(** * quizgen.py: a shallow embedding and its properties

    The script asks a text-generation service for multiple-choice
    questions, parses the reply with [json.loads] and either prints the
    parsed value with [json.dumps] (mode [json]) or runs a terminal quiz
    (mode [interactive]).  At import time it reads a usage counter from
    [usage_count.txt].

    The embedding follows the script top to bottom:
    - Python strings are lists of code points, integers are [Z];
    - values are the Python objects [json.loads] can build;
    - exceptions are an inductive type with the class tests the script's
      [except] clauses perform;
    - statements run in a monad over a [world] holding the standard
      streams, the counter file and the module global [usage_count]; the
      world survives a raised exception, as printed output does;
    - what the script takes from outside is a parameter: the upstream
      call [co.chat], the finite floats with their library operations
      ([FloatOps]) and Unicode's table of decimal digits ([Digits]).

    Left out: the traceback the interpreter prints for an uncaught
    exception, failures of [print] itself, and the interpreter's limits
    on recursion depth and on the number of digits of an integer. *)

From Stdlib Require Import List ZArith NArith Lia Bool String Ascii.
Import ListNotations.

Set Implicit Arguments.
Set Warnings "-register-all,-abstract-large-number".
Local Open Scope N_scope.

(* ================================================================== *)
(** * Python strings *)
(* ================================================================== *)

(** A Python [str] is a sequence of Unicode code points. *)
Definition pystr := list N.

(** ASCII literal of the script as a [pystr]. *)
Definition lit (s : string) : pystr :=
  map N_of_ascii (list_ascii_of_string s).

(** Literal in which an apostrophe stands for the double quote U+0022
    (none of the script's literals written this way has an apostrophe). *)
Definition qlit (s : string) : pystr :=
  map (fun c => if N.eqb c 39 then 34%N else c) (lit s).

Fixpoint pystr_eqb (a b : pystr) : bool :=
  match a, b with
  | [], [] => true
  | x :: a', y :: b' => N.eqb x y && pystr_eqb a' b'
  | _, _ => false
  end.

(** [a.startswith(p)]: the rest of [a] after the prefix [p], if any. *)
Fixpoint strip_prefix (p a : pystr) : option pystr :=
  match p, a with
  | [], _ => Some a
  | x :: p', y :: a' => if N.eqb x y then strip_prefix p' a' else None
  | _ :: _, [] => None
  end.

(** [needle in hay] on strings. *)
Fixpoint is_substring (needle hay : pystr) : bool :=
  match strip_prefix needle hay with
  | Some _ => true
  | None => match hay with
            | [] => false
            | _ :: hay' => is_substring needle hay'
            end
  end.

(** [str.isspace] per character, the set [str.strip()] and [int()]
    remove. *)
Definition is_space (c : N) : bool :=
  ((9 <=? c) && (c <=? 13)) || ((28 <=? c) && (c <=? 32))
  || (c =? 133) || (c =? 160) || (c =? 5760)
  || ((8192 <=? c) && (c <=? 8202))
  || (c =? 8232) || (c =? 8233) || (c =? 8239) || (c =? 8287)
  || (c =? 12288).

Fixpoint lstrip (s : pystr) : pystr :=
  match s with
  | c :: s' => if is_space c then lstrip s' else s
  | [] => []
  end.

Definition rstrip (s : pystr) : pystr := rev (lstrip (rev s)).

(** [s.strip()] *)
Definition strip (s : pystr) : pystr := rstrip (lstrip s).

(* ================================================================== *)
(** * Integers and their decimal text *)
(* ================================================================== *)

Definition digit_char (d : N) : N := 48 + d.

Fixpoint digits_of (fuel : nat) (n : N) (acc : pystr) : pystr :=
  match fuel with
  | O => acc
  | S fuel' =>
      let acc' := digit_char (n mod 10) :: acc in
      if n / 10 =? 0 then acc' else digits_of fuel' (n / 10) acc'
  end.

(** Decimal digits of a natural number, no leading zero. *)
Definition str_of_N (n : N) : pystr :=
  digits_of (S (N.to_nat (N.log2 n))) n [].

(** [str(z)] for a Python int. *)
Definition str_of_Z (z : Z) : pystr :=
  match z with
  | Zneg p => 45 :: str_of_N (Npos p)
  | _ => str_of_N (Z.to_N z)
  end.

Definition is_digit (c : N) : bool := (48 <=? c) && (c <=? 57).

(** The decimal digits [int()] knows are those of Unicode
    ([unicodedata.decimal]), a table that grows with the Unicode
    version; it is a parameter here, fixed on ASCII. *)
Class Digits : Type := {
  decimal_value : N -> option N;
  decimal_ascii :
    forall c, c < 128 ->
      decimal_value c = if is_digit c then Some (c - 48) else None
}.

Section Int.

Context {digits : Digits}.

(** Digits with single underscores between them, as [int()] accepts. *)
Fixpoint int_digits (s : pystr) (after_digit : bool) (acc : N) : option N :=
  match s with
  | [] => if after_digit then Some acc else None
  | c :: s' =>
      if c =? 95 then
        if after_digit then int_digits s' false acc else None
      else
        match decimal_value c with
        | Some d => int_digits s' true (10 * acc + d)
        | None => None
        end
  end.

(** [int(s)] on a string, base 10: surrounding whitespace, an optional
    sign, then digits.  [None] stands for [ValueError]. *)
Definition py_int (s : pystr) : option Z :=
  match strip s with
  | c :: ds =>
      if c =? 45 then
        option_map (fun n => (- Z.of_N n)%Z) (int_digits ds false 0)
      else if c =? 43 then option_map Z.of_N (int_digits ds false 0)
      else option_map Z.of_N (int_digits (c :: ds) false 0)
  | [] => None
  end.

End Int.

(* ================================================================== *)
(** * Python values and exceptions *)
(* ================================================================== *)

(** A Python [float]: the three non-finite values, or a finite one.  The
    finite floats are a type [F] with the library operations the script
    reaches; binary64 rounding itself is left to the instance. *)
Inductive pyfloat (F : Type) : Type :=
| FNan
| FInf
| FNegInf
| FFinite (x : F).

Arguments FNan {F}.
Arguments FInf {F}.
Arguments FNegInf {F}.

Class FloatOps (F : Type) : Type := {
  (** [float(text)] on the text of a JSON number with a fraction or an
      exponent (overflow gives an infinity) *)
  float_of_literal : pystr -> pyfloat F;
  (** [float.__repr__] of a finite float *)
  float_repr : F -> pystr;
  (** [z == x] for an int [z] and a finite float [x] *)
  float_eq_int : Z -> F -> bool;
  (** [x == 0.0] *)
  float_is_zero : F -> bool
}.

Section Values.

Context {F : Type}.

(** The objects [json.loads] builds.  A [dict] keeps its insertion order
    and has string keys only. *)
Inductive value : Type :=
| VNone
| VBool (b : bool)
| VInt (z : Z)
| VFloat (f : pyfloat F)
| VStr (s : pystr)
| VList (l : list value)
| VDict (d : list (pystr * value)).

(** Induction principle that reaches inside lists and dicts. *)
Fixpoint value_rect' (P : value -> Type)
    (Pl : list value -> Type) (Pd : list (pystr * value) -> Type)
    (HNone : P VNone) (HBool : forall b, P (VBool b))
    (HInt : forall z, P (VInt z)) (HFloat : forall f, P (VFloat f))
    (HStr : forall s, P (VStr s))
    (HList : forall l, Pl l -> P (VList l))
    (HDict : forall d, Pd d -> P (VDict d))
    (Hnil : Pl []) (Hcons : forall v l, P v -> Pl l -> Pl (v :: l))
    (Hdnil : Pd [])
    (Hdcons : forall k v d, P v -> Pd d -> Pd ((k, v) :: d))
    (v : value) {struct v} : P v :=
  let rec := value_rect' P Pl Pd HNone HBool HInt HFloat HStr HList HDict
               Hnil Hcons Hdnil Hdcons in
  match v with
  | VNone => HNone
  | VBool b => HBool b
  | VInt z => HInt z
  | VFloat f => HFloat f
  | VStr s => HStr s
  | VList l =>
      HList l ((fix go (l : list value) : Pl l :=
                  match l with
                  | [] => Hnil
                  | x :: l' => Hcons x l' (rec x) (go l')
                  end) l)
  | VDict d =>
      HDict d ((fix go (d : list (pystr * value)) : Pd d :=
                  match d with
                  | [] => Hdnil
                  | (k, x) :: d' => Hdcons k x d' (rec x) (go d')
                  end) d)
  end.

(** [d[k] = v] on a dict: an existing key keeps its place. *)
Fixpoint dict_set (d : list (pystr * value)) (k : pystr) (v : value)
  : list (pystr * value) :=
  match d with
  | [] => [(k, v)]
  | (k', v') :: d' =>
      if pystr_eqb k' k then (k', v) :: d' else (k', v') :: dict_set d' k v
  end.

Fixpoint dict_get (d : list (pystr * value)) (k : pystr) : option value :=
  match d with
  | [] => None
  | (k', v') :: d' => if pystr_eqb k' k then Some v' else dict_get d' k
  end.

(** The exceptions the script can meet, by class. *)
Inductive pyexc : Type :=
| JSONDecodeError (msg : pystr) (doc : pystr) (pos : N)
| ValueError (msg : pystr)
| KeyError (key : value)
| IndexError
| TypeError
| NameError (name : pystr)
| UnboundLocalError (name : pystr)
| RecursionError
| EOFError
| ServiceError (msg : pystr)     (* network, auth or service failure *)
| KeyboardInterrupt
| SystemExit (code : Z).

(** [isinstance(e, json.JSONDecodeError)] *)
Definition is_JSONDecodeError (e : pyexc) : bool :=
  match e with JSONDecodeError _ _ _ => true | _ => false end.

(** [isinstance(e, ValueError)]: [JSONDecodeError] derives from it. *)
Definition is_ValueError (e : pyexc) : bool :=
  match e with
  | JSONDecodeError _ _ _ | ValueError _ => true
  | _ => false
  end.

Definition is_KeyboardInterrupt (e : pyexc) : bool :=
  match e with KeyboardInterrupt => true | _ => false end.

(** [isinstance(e, Exception)]: everything but [KeyboardInterrupt] and
    [SystemExit], which derive from [BaseException] only. *)
Definition is_Exception (e : pyexc) : bool :=
  match e with
  | KeyboardInterrupt | SystemExit _ => false
  | _ => true
  end.

(** Result of evaluating an expression or running a statement. *)
Inductive res (A : Type) : Type :=
| Ret (a : A)
| Raise (e : pyexc).

End Values.

Arguments value F : clear implicits.
Arguments pyexc F : clear implicits.
Arguments res F A : clear implicits.
Arguments VNone {F}.
Arguments VBool {F} b.
Arguments VInt {F} z.
Arguments VFloat {F} f.
Arguments VStr {F} s.
Arguments VList {F} l.
Arguments VDict {F} d.
Arguments JSONDecodeError {F} msg doc pos.
Arguments ValueError {F} msg.
Arguments KeyError {F} key.
Arguments IndexError {F}.
Arguments TypeError {F}.
Arguments NameError {F} name.
Arguments UnboundLocalError {F} name.
Arguments RecursionError {F}.
Arguments EOFError {F}.
Arguments ServiceError {F} msg.
Arguments KeyboardInterrupt {F}.
Arguments SystemExit {F} code.
Arguments Ret {F A} a.
Arguments Raise {F A} e.

(* ================================================================== *)
(** * The [json] module: [dumps] *)
(* ================================================================== *)

Section Json.

Context {F : Type} {fops : FloatOps F}.

Definition hex_char (d : N) : N := if d <? 10 then 48 + d else 87 + d.

(** ['{0:04x}'.format(n)] for [n < 0x10000] *)
Definition hex4 (n : N) : pystr :=
  [ hex_char (N.land (N.shiftr n 12) 15); hex_char (N.land (N.shiftr n 8) 15);
    hex_char (N.land (N.shiftr n 4) 15); hex_char (N.land n 15) ].

(** The replacement [encode_basestring_ascii] makes for one character:
    printable ASCII other than the quote and the backslash is kept, the
    rest is escaped, code points above U+FFFF as a surrogate pair. *)
Definition escape_char (c : N) : pystr :=
  if c =? 92 then [92; 92]
  else if c =? 34 then [92; 34]
  else if c =? 8 then [92; 98]
  else if c =? 12 then [92; 102]
  else if c =? 10 then [92; 110]
  else if c =? 13 then [92; 114]
  else if c =? 9 then [92; 116]
  else if (32 <=? c) && (c <=? 126) then [c]
  else if c <? 65536 then 92 :: 117 :: hex4 c
  else
    let n := c - 65536 in
    let s1 := N.lor 55296 (N.land (N.shiftr n 10) 1023) in
    let s2 := N.lor 56320 (N.land n 1023) in
    (92 :: 117 :: hex4 s1) ++ (92 :: 117 :: hex4 s2).

Definition encode_string (s : pystr) : pystr :=
  34 :: flat_map escape_char s ++ [34].

(** [floatstr] of the encoder, with the default [allow_nan=True]. *)
Definition floatstr (f : pyfloat F) : pystr :=
  match f with
  | FNan => lit "NaN"
  | FInf => lit "Infinity"
  | FNegInf => lit "-Infinity"
  | FFinite x => float_repr x
  end.

(** [json.dumps(v)] with the default separators [", "] and [": "]. *)
Fixpoint json_dumps (v : value F) : pystr :=
  match v with
  | VNone => lit "null"
  | VBool true => lit "true"
  | VBool false => lit "false"
  | VInt z => str_of_Z z
  | VFloat f => floatstr f
  | VStr s => encode_string s
  | VList [] => lit "[]"
  | VList (x :: l) =>
      91 :: json_dumps x ++
        (fix items (l : list (value F)) : pystr :=
           match l with
           | [] => [93]
           | y :: l' => 44 :: 32 :: json_dumps y ++ items l'
           end) l
  | VDict [] => lit "{}"
  | VDict ((k, x) :: d) =>
      123 :: encode_string k ++ 58 :: 32 :: json_dumps x ++
        (fix items (d : list (pystr * value F)) : pystr :=
           match d with
           | [] => [125]
           | (k', y) :: d' =>
               44 :: 32 :: encode_string k' ++ 58 :: 32 :: json_dumps y
                 ++ items d'
           end) d
  end.

(** The two loops of [json_dumps], named. *)
Fixpoint dumps_items (l : list (value F)) : pystr :=
  match l with
  | [] => [93]
  | y :: l' => 44 :: 32 :: json_dumps y ++ dumps_items l'
  end.

Fixpoint dumps_pairs (d : list (pystr * value F)) : pystr :=
  match d with
  | [] => [125]
  | (k', y) :: d' =>
      44 :: 32 :: encode_string k' ++ 58 :: 32 :: json_dumps y
        ++ dumps_pairs d'
  end.

(* ================================================================== *)
(** * The [json] module: [loads] *)
(* ================================================================== *)

(** Outcome of a scanner on a suffix of the document: the value and the
    text left after it, a [JSONDecodeError] with the text from the error
    offset on, or the interpreter's recursion guard. *)
Inductive scan (A : Type) : Type :=
| Scanned (a : A) (rest : pystr)
| Failed (msg : pystr) (rest : pystr)
| TooDeep.

Arguments Failed {A} msg rest.
Arguments TooDeep {A}.

Definition scan_map {A B} (f : A -> B) (r : scan A) : scan B :=
  match r with
  | Scanned a rest => Scanned (f a) rest
  | Failed msg rest => Failed msg rest
  | TooDeep => TooDeep
  end.

(** JSON whitespace *)
Definition is_ws (c : N) : bool :=
  (c =? 32) || (c =? 9) || (c =? 10) || (c =? 13).

Fixpoint skip_ws (s : pystr) : pystr :=
  match s with
  | c :: s' => if is_ws c then skip_ws s' else s
  | [] => []
  end.

Definition hex_val (c : N) : option N :=
  if is_digit c then Some (c - 48)
  else if (97 <=? c) && (c <=? 102) then Some (c - 87)
  else if (65 <=? c) && (c <=? 70) then Some (c - 55)
  else None.

Definition decode_hex4 (a b c d : N) : option N :=
  match hex_val a, hex_val b, hex_val c, hex_val d with
  | Some x, Some y, Some z, Some w =>
      Some (N.lor (N.shiftl (N.lor (N.shiftl (N.lor (N.shiftl x 4) y) 4) z) 4) w)
  | _, _, _, _ => None
  end.

Definition is_high_surrogate (u : N) : bool := (55296 <=? u) && (u <=? 56319).
Definition is_low_surrogate (u : N) : bool := (56320 <=? u) && (u <=? 57343).

Definition join_surrogates (u u2 : N) : N :=
  65536 + N.lor (N.shiftl (N.land u 1023) 10) (N.land u2 1023).

(** The character a one-letter escape stands for. *)
Definition unescape (e : N) : option N :=
  if (e =? 34) || (e =? 92) || (e =? 47) then Some e
  else if e =? 98 then Some 8
  else if e =? 102 then Some 12
  else if e =? 110 then Some 10
  else if e =? 114 then Some 13
  else if e =? 116 then Some 9
  else None.

(** [scanstring]: [s] is the text after the opening quote, [begin] the
    text from that quote on (for the message). *)
Fixpoint scanstring (begin s : pystr) : scan pystr :=
  match s with
  | [] => Failed (lit "Unterminated string starting at") begin
  | c :: s1 =>
      if c =? 34 then Scanned [] s1
      else if c =? 92 then
        match s1 with
        | [] => Failed (lit "Unterminated string starting at") begin
        | e :: s2 =>
            if e =? 117 then
              match s2 with
              | h1 :: h2 :: h3 :: h4 :: ((_ :: _) as s3) =>
                  match decode_hex4 h1 h2 h3 h4 with
                  | None => Failed (lit "Invalid \uXXXX escape") s1
                  | Some u =>
                      match s3 with
                      | b :: u' :: l1 :: l2 :: l3 :: l4 :: ((_ :: _) as s4) =>
                          if is_high_surrogate u && (b =? 92) && (u' =? 117)
                          then
                            match decode_hex4 l1 l2 l3 l4 with
                            | None =>
                                Failed (lit "Invalid \uXXXX escape") (tl s3)
                            | Some u2 =>
                                if is_low_surrogate u2
                                then scan_map (cons (join_surrogates u u2))
                                       (scanstring begin s4)
                                else scan_map (cons u) (scanstring begin s3)
                            end
                          else scan_map (cons u) (scanstring begin s3)
                      | _ => scan_map (cons u) (scanstring begin s3)
                      end
                  end
              | _ => Failed (lit "Invalid \uXXXX escape") s1
              end
            else
              match unescape e with
              | Some ch => scan_map (cons ch) (scanstring begin s2)
              | None => Failed (lit "Invalid \escape") s
              end
        end
      else if c <=? 31 then Failed (lit "Invalid control character at") s
      else scan_map (cons c) (scanstring begin s1)
  end.

(** Longest run of decimal digits at the head of [s]. *)
Fixpoint span_digits (s : pystr) : pystr * pystr :=
  match s with
  | c :: s' =>
      if is_digit c then let (d, r) := span_digits s' in (c :: d, r)
      else ([], s)
  | [] => ([], [])
  end.

(** Integer part: a single [0], or a non-zero digit and more digits. *)
Definition match_int_part (s : pystr) : option (pystr * pystr) :=
  match s with
  | c :: s' =>
      if (49 <=? c) && (c <=? 57) then
        let (d, r) := span_digits s' in Some (c :: d, r)
      else if c =? 48 then Some ([48], s')
      else None
  | [] => None
  end.

(** Fraction: a dot followed by at least one digit. *)
Definition match_frac (s : pystr) : option (pystr * pystr) :=
  match s with
  | dot :: c :: s' =>
      if (dot =? 46) && is_digit c then
        let (d, r) := span_digits s' in Some (dot :: c :: d, r)
      else None
  | _ => None
  end.

(** Exponent: [e] or [E], an optional sign, at least one digit; without
    a digit the scanner backtracks to before the letter. *)
Definition match_exp (s : pystr) : option (pystr * pystr) :=
  match s with
  | e :: s1 =>
      if (e =? 101) || (e =? 69) then
        let (sign, s2) :=
          match s1 with
          | c :: ((_ :: _) as s2) =>
              if (c =? 45) || (c =? 43) then ([c], s2) else ([], s1)
          | _ => ([], s1)
          end in
        match span_digits s2 with
        | ([], _) => None
        | (d, r) => Some (e :: sign ++ d, r)
        end
      else None
  | [] => None
  end.

Definition N_of_digits (ds : pystr) : N :=
  fold_left (fun acc c => 10 * acc + (c - 48)) ds 0.

(** The integer part, the fraction and the exponent at the head of [s],
    the last two possibly absent, and the text after them. *)
Definition match_parts (s : pystr)
  : option (pystr * pystr * pystr * pystr) :=
  match match_int_part s with
  | None => None
  | Some (ip, s1) =>
      let (fp, s2) :=
        match match_frac s1 with Some (fp, s2) => (fp, s2) | None => ([], s1) end in
      let (ep, s3) :=
        match match_exp s2 with Some (ep, s3) => (ep, s3) | None => ([], s2) end in
      Some (ip, fp, ep, s3)
  end.

(** [_match_number]: the text of the number, whether it is a float, and
    the text after it. *)
Definition match_number (s : pystr) : option (pystr * bool * pystr) :=
  let (neg, s0) :=
    match s with
    | c :: s' => if c =? 45 then (true, s') else (false, s)
    | [] => (false, s)
    end in
  match match_parts s0 with
  | None => None
  | Some (ip, fp, ep, s3) =>
      let is_float := match fp, ep with [], [] => false | _, _ => true end in
      Some ((if neg then [45] else []) ++ ip ++ fp ++ ep, is_float, s3)
  end.

(** The Python number for the matched text. *)
Definition number_value (numstr : pystr) (is_float : bool) : value F :=
  if is_float then VFloat (float_of_literal numstr)
  else match numstr with
       | c :: ds =>
           if c =? 45 then VInt (- Z.of_N (N_of_digits ds))
           else VInt (Z.of_N (N_of_digits numstr))
       | [] => VInt 0
       end.

Section Containers.

(** The scanner for the elements, one level down. *)
Variable scan_elem : pystr -> scan (value F).

(** The loop of [_parse_array], entered at the first element. *)
Fixpoint parse_array_loop (fuel : nat) (s : pystr) : scan (list (value F)) :=
  match fuel with
  | O => TooDeep
  | S fuel' =>
      match scan_elem s with
      | Scanned v r =>
          match skip_ws r with
          | c :: r2 =>
              if c =? 93 then Scanned [v] r2
              else if c =? 44 then
                scan_map (cons v) (parse_array_loop fuel' (skip_ws r2))
              else Failed (lit "Expecting ',' delimiter") (skip_ws r)
          | [] => Failed (lit "Expecting ',' delimiter") []
          end
      | Failed msg r => Failed msg r
      | TooDeep => TooDeep
      end
  end.

(** [_parse_array] on the text after the bracket. *)
Definition parse_array (s : pystr) : scan (list (value F)) :=
  match skip_ws s with
  | c :: s2 =>
      if c =? 93 then Scanned [] s2
      else parse_array_loop (S (List.length s)) (skip_ws s)
  | [] => parse_array_loop (S (List.length s)) []
  end.

(** The loop of [_parse_object], entered at a key; [acc] is the dict
    built so far. *)
Fixpoint parse_object_loop (fuel : nat) (s : pystr)
    (acc : list (pystr * value F)) : scan (list (pystr * value F)) :=
  match fuel with
  | O => TooDeep
  | S fuel' =>
      match s with
      | q :: s1 =>
          if q =? 34 then
            match scanstring s s1 with
            | Scanned key r =>
                match skip_ws r with
                | colon :: r1 =>
                    if colon =? 58 then
                      match scan_elem (skip_ws r1) with
                      | Scanned v r2 =>
                          let acc' := dict_set acc key v in
                          match skip_ws r2 with
                          | c :: r3 =>
                              if c =? 125 then Scanned acc' r3
                              else if c =? 44 then
                                parse_object_loop fuel' (skip_ws r3) acc'
                              else Failed (lit "Expecting ',' delimiter")
                                     (skip_ws r2)
                          | [] => Failed (lit "Expecting ',' delimiter") []
                          end
                      | Failed msg r2 => Failed msg r2
                      | TooDeep => TooDeep
                      end
                    else Failed (lit "Expecting ':' delimiter") (skip_ws r)
                | [] => Failed (lit "Expecting ':' delimiter") []
                end
            | Failed msg r => Failed msg r
            | TooDeep => TooDeep
            end
          else
            Failed (lit "Expecting property name enclosed in double quotes") s
      | [] =>
          Failed (lit "Expecting property name enclosed in double quotes") []
      end
  end.

(** [_parse_object] on the text after the brace. *)
Definition parse_object (s : pystr) : scan (list (pystr * value F)) :=
  match skip_ws s with
  | c :: s2 =>
      if c =? 125 then Scanned [] s2
      else parse_object_loop (S (List.length s)) (skip_ws s) []
  | [] => parse_object_loop (S (List.length s)) [] []
  end.

End Containers.

(** [scan_once].  [constants] says whether the names [NaN], [Infinity]
    and [-Infinity] are read as floats, as [json.loads] does; the JSON
    grammar of RFC 8259 has no such names.  [fuel] bounds the nesting,
    where the interpreter has its recursion limit. *)
Fixpoint scan_once (constants : bool) (fuel : nat) (s : pystr)
  : scan (value F) :=
  match fuel with
  | O => TooDeep
  | S fuel' =>
      match s with
      | [] => Failed (lit "Expecting value") []
      | c :: s1 =>
          if c =? 34 then scan_map VStr (scanstring s s1)
          else if c =? 123 then
            scan_map VDict (parse_object (scan_once constants fuel') s1)
          else if c =? 91 then
            scan_map VList (parse_array (scan_once constants fuel') s1)
          else
            match strip_prefix (lit "null") s with
            | Some r => Scanned VNone r
            | None =>
            match strip_prefix (lit "true") s with
            | Some r => Scanned (VBool true) r
            | None =>
            match strip_prefix (lit "false") s with
            | Some r => Scanned (VBool false) r
            | None =>
            match (if constants then strip_prefix (lit "NaN") s else None) with
            | Some r => Scanned (VFloat FNan) r
            | None =>
            match (if constants then strip_prefix (lit "Infinity") s else None) with
            | Some r => Scanned (VFloat FInf) r
            | None =>
            match (if constants then strip_prefix (lit "-Infinity") s else None) with
            | Some r => Scanned (VFloat FNegInf) r
            | None =>
            match match_number s with
            | Some (numstr, is_float, r) =>
                Scanned (number_value numstr is_float) r
            | None => Failed (lit "Expecting value") s
            end end end end end end end
      end
  end.

(** [JSONDecoder.decode]: leading whitespace, one value, trailing
    whitespace, nothing else. *)
Definition decode (constants : bool) (doc : pystr) : res F (value F) :=
  let err msg (rest : pystr) :=
    Raise (JSONDecodeError msg doc (N.of_nat (List.length doc - List.length rest))) in
  match scan_once constants (S (List.length doc)) (skip_ws doc) with
  | Scanned v rest =>
      match skip_ws rest with
      | [] => Ret v
      | _ :: _ => err (lit "Extra data") (skip_ws rest)
      end
  | Failed msg rest => err msg rest
  | TooDeep => Raise RecursionError
  end.

(** [json.loads(doc)] for a [str] *)
Definition json_loads (doc : pystr) : res F (value F) :=
  if match doc with c :: _ => c =? 65279 | [] => false end then
    Raise (JSONDecodeError
             (lit "Unexpected UTF-8 BOM (decode using utf-8-sig)") doc 0)
  else decode true doc.

(** A text is valid JSON when the scanner without the three names reads
    exactly one value from it. *)
Definition valid_json (doc : pystr) : bool :=
  match decode false doc with
  | Ret _ => true
  | Raise _ => false
  end.

End Json.

(* ================================================================== *)
(** * Operations of the language the script uses on parsed values *)
(* ================================================================== *)

Section Builtins.

Context {F : Type} {fops : FloatOps F}.

(** [bool(v)], as [not questions] tests it *)
Definition py_truthy (v : value F) : bool :=
  match v with
  | VNone => false
  | VBool b => b
  | VInt z => negb (Z.eqb z 0)
  | VFloat (FFinite x) => negb (float_is_zero x)
  | VFloat _ => true
  | VStr s => match s with [] => false | _ => true end
  | VList l => match l with [] => false | _ => true end
  | VDict d => match d with [] => false | _ => true end
  end.

(** The items a [for] loop over [v] visits: the elements of a list, the
    characters of a string, the keys of a dict. *)
Definition py_iter (v : value F) : res F (list (value F)) :=
  match v with
  | VList l => Ret l
  | VStr s => Ret (map (fun c => VStr [c]) s)
  | VDict d => Ret (map (fun kv => VStr (fst kv)) d)
  | _ => Raise TypeError
  end.

(** [seq[i]] for an int [i]: negative indices count from the end. *)
Definition index_seq {A} (l : list A) (i : Z) : option A :=
  let n := Z.of_nat (List.length l) in
  let j := (if i <? 0 then i + n else i)%Z in
  if ((0 <=? j) && (j <? n))%Z then nth_error l (Z.to_nat j) else None.

(** [c[k]] *)
Definition py_getitem (c k : value F) : res F (value F) :=
  let as_index :=
    match k with
    | VInt z => Some z
    | VBool b => Some (if b then 1 else 0)%Z
    | _ => None
    end in
  match c with
  | VDict d =>
      match k with
      | VStr s => match dict_get d s with
                  | Some v => Ret v
                  | None => Raise (KeyError k)
                  end
      | VList _ | VDict _ => Raise TypeError          (* unhashable *)
      | _ => Raise (KeyError k)
      end
  | VList l =>
      match as_index with
      | Some i => match index_seq l i with
                  | Some v => Ret v
                  | None => Raise IndexError
                  end
      | None => Raise TypeError
      end
  | VStr s =>
      match as_index with
      | Some i => match index_seq s i with
                  | Some ch => Ret (VStr [ch])
                  | None => Raise IndexError
                  end
      | None => Raise TypeError
      end
  | _ => Raise TypeError                              (* not subscriptable *)
  end.

(** [z == v] for an int [z] *)
Definition py_eq_int (z : Z) (v : value F) : bool :=
  match v with
  | VInt z' => Z.eqb z z'
  | VBool b => Z.eqb z (if b then 1 else 0)
  | VFloat (FFinite x) => float_eq_int z x
  | _ => false
  end.

(** [k in c] for a string [k] *)
Definition py_contains (k : pystr) (c : value F) : res F bool :=
  match c with
  | VDict d => Ret (match dict_get d k with Some _ => true | None => false end)
  | VList l =>
      Ret (existsb (fun x => match x with
                             | VStr s => pystr_eqb s k
                             | _ => false
                             end) l)
  | VStr s => Ret (is_substring k s)
  | _ => Raise TypeError
  end.

End Builtins.

(* ================================================================== *)
(** * The process: streams, the counter file, the module global *)
(* ================================================================== *)

Section Process.

Context {F : Type} {fops : FloatOps F} {digits : Digits}.

(** What one call of [input()] finds on standard input; an exhausted
    list is end of file. *)
Inductive input_event : Type :=
| Line (s : pystr)
| CtrlC.

(** Pieces of a printed line: text, and [str()] of a value or of an
    exception interpolated by an f-string. *)
Inductive frag : Type :=
| FStr (s : pystr)
| FVal (v : value F)
| FExc (e : pyexc F).

Inductive out_event : Type :=
| Print (line : list frag)        (* [print(...)] *)
| Prompt (text : pystr).          (* the prompt [input(...)] writes *)

Record world : Type := {
  stdin : list input_event;
  stdout : list out_event;
  stderr : list (list frag);
  usage_file : option pystr;      (* content of usage_count.txt, if it exists *)
  usage_count : option Z          (* the global, once assigned *)
}.

(** A statement: it may change the world and either finishes with a
    result or raises. *)
Definition M (A : Type) : Type := world -> res F A * world.

Definition ret {A} (a : A) : M A := fun w => (Ret a, w).
Definition raise {A} (e : pyexc F) : M A := fun w => (Raise e, w).
Definition lift {A} (r : res F A) : M A := fun w => (r, w).

Definition bind {A B} (m : M A) (k : A -> M B) : M B :=
  fun w =>
    match m w with
    | (Ret a, w') => k a w'
    | (Raise e, w') => (Raise e, w')
    end.

(** [try: body  except <classes>: handler] *)
Definition try_except {A} (body : M A) (classes : pyexc F -> bool)
    (handler : pyexc F -> M A) : M A :=
  fun w =>
    match body w with
    | (Raise e, w') => if classes e then handler e w' else (Raise e, w')
    | r => r
    end.

Definition print (line : list frag) : M unit :=
  fun w => (Ret tt, {| stdin := stdin w;
                       stdout := stdout w ++ [Print line];
                       stderr := stderr w;
                       usage_file := usage_file w;
                       usage_count := usage_count w |}).

(** [print(..., file=sys.stderr)] *)
Definition print_err (line : list frag) : M unit :=
  fun w => (Ret tt, {| stdin := stdin w;
                       stdout := stdout w;
                       stderr := stderr w ++ [line];
                       usage_file := usage_file w;
                       usage_count := usage_count w |}).

(** [input(prompt)] *)
Definition input (prompt : pystr) : M pystr :=
  fun w =>
    let w' rest := {| stdin := rest;
                      stdout := stdout w ++ [Prompt prompt];
                      stderr := stderr w;
                      usage_file := usage_file w;
                      usage_count := usage_count w |} in
    match stdin w with
    | Line s :: rest => (Ret s, w' rest)
    | CtrlC :: rest => (Raise KeyboardInterrupt, w' rest)
    | [] => (Raise EOFError, w' [])
    end.

(** [int(s)] *)
Definition int (s : pystr) : M Z :=
  match py_int s with
  | Some z => ret z
  | None => raise (ValueError s)
  end.

End Process.

Arguments world F : clear implicits.
Arguments M F A : clear implicits.
Arguments frag F : clear implicits.
Arguments out_event F : clear implicits.

Declare Scope py_scope.
Delimit Scope py_scope with py.
Notation "x <- m ;; k" := (bind m (fun x => k))
  (at level 61, m at next level, right associativity) : py_scope.
Notation "m ;; k" := (bind m (fun _ => k))
  (at level 61, right associativity) : py_scope.

(* ================================================================== *)
(** * quizgen.py *)
(* ================================================================== *)

Section Quizgen.

Context {F : Type} {fops : FloatOps F} {digits : Digits}.

(** The upstream collaborator: [co.chat(model="command-r", message=prompt,
    temperature=0.7, max_tokens=800)] either returns a response, of which
    the script reads [.text], or raises. *)
Variable co_chat : pystr -> res F pystr.

Local Open Scope py_scope.

(** ** The usage counter (lines 7-20) *)

(** Lines 10-14, run when the module is loaded. *)
Definition read_usage_count : M F unit :=
  fun w =>
    let assign n := {| stdin := stdin w; stdout := stdout w;
                       stderr := stderr w; usage_file := usage_file w;
                       usage_count := Some n |} in
    match usage_file w with
    | Some content =>
        match strip content with
        | [] => (Ret tt, assign 0%Z)                 (* [... or 0] *)
        | text => match py_int text with
                  | Some n => (Ret tt, assign n)
                  | None => (Raise (ValueError text), w)
                  end
        end
    | None => (Ret tt, assign 0%Z)
    end.

(** Lines 16-20. *)
Definition log_api_usage : M F unit :=
  fun w =>
    match usage_count w with
    | Some n =>
        let n' := (n + 1)%Z in
        (Ret tt, {| stdin := stdin w; stdout := stdout w;
                    stderr := stderr w;
                    usage_file := Some (str_of_Z n');
                    usage_count := Some n' |})
    | None => (Raise (NameError (lit "usage_count")), w)
    end.

(** ** [generate_questions] (lines 25-59) *)

Definition prompt_of (topic difficulty : pystr) (num_questions : Z) : pystr :=
  lit "
You are an adaptive quiz generator.
Topic: " ++ topic ++ lit "
Difficulty: " ++ difficulty ++ lit "
Generate " ++ str_of_Z num_questions ++ qlit " multiple-choice questions in JSON format:
[
  {
    'question': 'string',
    'choices': ['A', 'B', 'C', 'D'],
    'answer_index': 0,
    'explanation': 'string'
  }
]
Ensure the JSON is valid and nothing else is returned.
".

Definition generate_questions (topic difficulty : pystr) (num_questions : Z)
  : M F (value F) :=
  let prompt := prompt_of topic difficulty num_questions in
  (* the local [response] is bound only once [co.chat] has returned *)
  let handlers (response : option pystr) (e : pyexc F) : M F (value F) :=
    if is_JSONDecodeError e then
      print_err [FStr (lit "Error parsing JSON from Cohere output: "); FExc e] ;;
      match response with
      | Some text =>
          print_err [FStr (lit "Raw response: "); FStr text] ;;
          ret (VList [])
      | None => raise (UnboundLocalError (lit "response"))
      end
    else if is_Exception e then
      print_err [FStr (lit "Error calling Cohere API: "); FExc e] ;;
      ret (VList [])
    else raise e in
  match co_chat prompt with
  | Ret text =>
      match json_loads text with
      | Ret questions => ret questions
      | Raise e => handlers (Some text) e
      end
  | Raise e => handlers None e
  end.

(** ** The entry point (lines 61-114) *)

Inductive mode : Type := Json | Interactive.

(** The namespace [parser.parse_args()] returns. *)
Record args : Type := {
  topic : pystr;
  difficulty : pystr;
  count : Z;
  arg_mode : mode
}.

(** [for idx, choice in enumerate(choices): print(f"  {idx}. {choice}")] *)
Fixpoint print_choices (idx : Z) (choices : list (value F)) : M F unit :=
  match choices with
  | [] => ret tt
  | choice :: rest =>
      print [FStr (lit "  "); FStr (str_of_Z idx); FStr (lit ". "); FVal choice] ;;
      print_choices (idx + 1) rest
  end.

(** How an iteration of the [for] loop ends. *)
Inductive flow : Type := Continue | Break.

Definition answer_prompt : pystr := lit "Your answer (0-3): ".
Definition msg_correct : pystr := 9989 :: lit " Correct!".
Definition msg_wrong : pystr := 10060 :: lit " Wrong. Correct answer: ".

(** Lines 88-100: the first [try] statement of the loop body. *)
Definition first_try (q : value F) : M F flow :=
  try_except
    (s <- input answer_prompt ;;
     user_input <- int s ;;
     (if ((0 <=? user_input) && (user_input <=? 3))%Z then
        ai <- lift (py_getitem q (VStr (lit "answer_index"))) ;;
        let correct := py_eq_int user_input ai in
        choices <- lift (py_getitem q (VStr (lit "choices"))) ;;
        ai' <- lift (py_getitem q (VStr (lit "answer_index"))) ;;
        correct_answer <- lift (py_getitem choices ai') ;;
        print (if correct then [FStr msg_correct]
               else [FStr msg_wrong; FVal correct_answer]) ;;
        has <- lift (py_contains (lit "explanation") q) ;;
        if has : bool then
          e <- lift (py_getitem q (VStr (lit "explanation"))) ;;
          print [FStr (lit "Explanation: "); FVal e]
        else ret tt
      else print [FStr (lit "Invalid input. Please enter 0-3.")]) ;;
     ret Continue)
    (fun e => is_ValueError e || is_KeyboardInterrupt e)
    (fun _ => print [FStr (10 :: lit "Quiz interrupted.")] ;; ret Break).

(** Lines 101-114: what follows the first [try] statement in the body. *)
Definition after_first_try (q : value F) : M F flow :=
  choices <- lift (py_getitem q (VStr (lit "choices"))) ;;
  items <- lift (py_iter choices) ;;
  print_choices 0 items ;;
  r <- try_except
         (s <- input answer_prompt ;;
          user_input <- int s ;;
          ret (Some user_input))
         is_ValueError
         (fun _ => print [FStr (lit "Invalid input.")] ;; ret None) ;;
  match r with
  | None => ret Continue                                  (* [continue] *)
  | Some user_input =>
      ai <- lift (py_getitem q (VStr (lit "answer_index"))) ;;
      (if py_eq_int user_input ai then print [FStr msg_correct]
       else
         choices <- lift (py_getitem q (VStr (lit "choices"))) ;;
         ai' <- lift (py_getitem q (VStr (lit "answer_index"))) ;;
         correct_answer <- lift (py_getitem choices ai') ;;
         print [FStr msg_wrong; FVal correct_answer]) ;;
      e <- lift (py_getitem q (VStr (lit "explanation"))) ;;
      print [FStr (lit "Explanation: "); FVal e] ;;
      (* [update_ability] is bound nowhere in the module *)
      raise (NameError (lit "update_ability"))
  end.

(** Lines 84-114: the body of the loop for question number [i]. *)
Definition loop_body (i : Z) (q : value F) : M F flow :=
  text <- lift (py_getitem q (VStr (lit "question"))) ;;
  print [FStr (10 :: lit "Q"); FStr (str_of_Z i); FStr (lit ": "); FVal text] ;;
  choices <- lift (py_getitem q (VStr (lit "choices"))) ;;
  items <- lift (py_iter choices) ;;
  print_choices 0 items ;;
  f <- first_try q ;;
  match f with
  | Break => ret Break
  | Continue => after_first_try q
  end.

(** [for i, q in enumerate(questions, start=1): ...] *)
Fixpoint quiz_loop (i : Z) (questions : list (value F)) : M F unit :=
  match questions with
  | [] => ret tt
  | q :: rest =>
      f <- loop_body i q ;;
      match f with
      | Break => ret tt
      | Continue => quiz_loop (i + 1) rest
      end
  end.

(** Lines 71-114. *)
Definition main (a : args) : M F unit :=
  match arg_mode a with
  | Json =>
      questions <- generate_questions (topic a) (difficulty a) (count a) ;;
      print [FStr (json_dumps questions)]
  | Interactive =>
      questions <- generate_questions (topic a) (difficulty a) (count a) ;;
      if negb (py_truthy questions) then
        print [FStr (lit "No questions generated.")] ;;
        raise (SystemExit 1)
      else
        items <- lift (py_iter questions) ;;
        quiz_loop 1 items
  end.

(** The module from its first line to its last. *)
Definition script (a : args) : M F unit :=
  read_usage_count ;; main a.

(** The world a run starts in. *)
Definition boot (keys : list input_event) (file : option pystr) : world F :=
  {| stdin := keys; stdout := []; stderr := [];
     usage_file := file; usage_count := None |}.

(** How the process ends. *)
Inductive termination : Type :=
| Exited (status : Z)
| Interrupted.                    (* ended by SIGINT *)

(** The interpreter's treatment of what reaches the top level. *)
Definition exit_of (r : res F unit) : termination :=
  match r with
  | Ret _ => Exited 0
  | Raise (SystemExit code) => Exited code
  | Raise KeyboardInterrupt => Interrupted
  | Raise _ => Exited 1
  end.

Definition run (a : args) (keys : list input_event) (file : option pystr)
  : termination * world F :=
  let (r, w) := script a (boot keys file) in (exit_of r, w).

End Quizgen.

(* ================================================================== *)
(** * Vocabulary of the properties *)
(* ================================================================== *)

Unset Implicit Arguments.

(** A world with [lines] added to standard error. *)
Definition logged {F} (w : world F) (lines : list (list (frag F))) : world F :=
  {| stdin := stdin w; stdout := stdout w; stderr := stderr w ++ lines;
     usage_file := usage_file w; usage_count := usage_count w |}.

(** A world with [events] added to standard output. *)
Definition printed {F} (w : world F) (events : list (out_event F)) : world F :=
  {| stdin := stdin w; stdout := stdout w ++ events; stderr := stderr w;
     usage_file := usage_file w; usage_count := usage_count w |}.

(** [n] calls of [log_api_usage] in a row. *)
Fixpoint log_api_usage_times {F} (n : nat) : M F unit :=
  match n with
  | O => ret tt
  | S n' => bind log_api_usage (fun _ => log_api_usage_times n')
  end.

(** The upstream call ended the way the specification of the collaborator
    allows: it returned text, or it failed with an ordinary error (an
    [Exception] that is not a JSON decoding error). *)
Definition service_outcome {F} (r : res F pystr) : Prop :=
  match r with
  | Ret _ => True
  | Raise e => is_Exception e = true /\ is_JSONDecodeError e = false
  end.

Section Vocabulary.

Context {F : Type} {fops : FloatOps F} {digits : Digits}.

(** What may follow a value inside [json.dumps] output: nothing, a comma,
    or a closing bracket or brace. *)
Definition follows (rest : pystr) : bool :=
  match rest with
  | [] => true
  | c :: _ => (c =? 44) || (c =? 93) || (c =? 125)
  end.

(** The whole of [r] is one JSON number. *)
Definition is_json_number (r : pystr) : bool :=
  match match_number r with
  | Some (_, _, []) => true
  | _ => false
  end.

Definition no_digit_head (rest : pystr) : Prop :=
  match rest with [] => True | c :: _ => is_digit c = false end.

Definition all_digits (ds : pystr) : bool := forallb is_digit ds.

(** The text [encode_basestring_ascii] writes between the quotes: plain
    characters, one-letter escapes, and [\u] with four hex digits. *)
Inductive esc_text : pystr -> Prop :=
| esc_nil : esc_text []
| esc_plain c t :
    32 <= c -> c <> 34 -> c <> 92 -> esc_text t -> esc_text (c :: t)
| esc_letter e ch t :
    e <> 117 -> unescape e = Some ch -> esc_text t -> esc_text (92 :: e :: t)
| esc_hex h1 h2 h3 h4 u t :
    decode_hex4 h1 h2 h3 h4 = Some u -> esc_text t ->
    esc_text (92 :: 117 :: h1 :: h2 :: h3 :: h4 :: t).

(** No [NaN], [Infinity] or [-Infinity] anywhere in the value. *)
Fixpoint finite_floats (v : value F) : bool :=
  match v with
  | VFloat (FFinite _) => true
  | VFloat _ => false
  | VList l => forallb finite_floats l
  | VDict d =>
      (fix pairs (d : list (pystr * value F)) : bool :=
         match d with
         | [] => true
         | (_, x) :: d' => finite_floats x && pairs d'
         end) d
  | _ => true
  end.

(** A scanner reads the serialised form of [v] in front of any
    delimiter. *)
Definition reads (scan_elem : pystr -> scan (value F)) (v : value F) : Prop :=
  forall rest, follows rest = true ->
    exists v', scan_elem (json_dumps v ++ rest) = Scanned v' rest.

(** A Unicode scalar value: a code point that is not a surrogate. *)
Definition scalar (c : N) : bool :=
  (c <? 55296) || ((57344 <=? c) && (c <? 1114112)).

Definition key_in (k : pystr) (d : list (pystr * value F)) : bool :=
  existsb (fun kv => pystr_eqb (fst kv) k) d.

Fixpoint distinct_keys (d : list (pystr * value F)) : bool :=
  match d with
  | [] => true
  | (k, _) :: d' => negb (key_in k d') && distinct_keys d'
  end.

(** Values as [json.loads] builds them from text without fractions:
    no float, strings and keys made of scalar values, the keys of a dict
    all different. *)
Fixpoint plain (v : value F) : bool :=
  match v with
  | VFloat _ => false
  | VStr s => forallb scalar s
  | VList l => forallb plain l
  | VDict d =>
      distinct_keys d &&
      (fix pairs (d : list (pystr * value F)) : bool :=
         match d with
         | [] => true
         | (k, x) :: d' => forallb scalar k && plain x && pairs d'
         end) d
  | _ => true
  end.

Definition add_digit (acc c : N) : N := 10 * acc + (c - 48).

(** [P] holds on the [fuel] code points from [c] on. *)
Fixpoint holds_from (P : N -> bool) (fuel : nat) (c : N) : bool :=
  match fuel with
  | O => true
  | S fuel' => P c && holds_from P fuel' (N.succ c)
  end.

Definition hex4_read_back (n : N) : bool :=
  match hex4 n with
  | [h1; h2; h3; h4] =>
      match decode_hex4 h1 h2 h3 h4 with
      | Some u => u =? n
      | None => false
      end
  | _ => false
  end.

(** The halves of a surrogate pair, as [escape_char] builds them from ten
    bits each: in range, below U+10000, and giving the ten bits back. *)
Definition high_half_ok (x : N) : bool :=
  let s1 := N.lor 55296 x in
  is_high_surrogate s1 && (s1 <? 65536) && (N.land s1 1023 =? x).

Definition low_half_ok (y : N) : bool :=
  let s2 := N.lor 56320 y in
  is_low_surrogate s2 && (s2 <? 65536) && (N.land s2 1023 =? y).

(** A scanner reads the serialised form of [v], in front of any
    delimiter, as [v] itself. *)
Definition reads_back (scan_elem : pystr -> scan (value F)) (v : value F)
  : Prop :=
  forall rest, follows rest = true ->
    scan_elem (json_dumps v ++ rest) = Scanned v rest.

(** A statement that leaves the counter file as it found it. *)
Definition keeps_file {A} (m : M F A) : Prop :=
  forall w, usage_file (snd (m w)) = usage_file w.

(** What [py_getitem] and [py_contains] raise is none of the classes the
    first [try] statement handles. *)
Definition lookup_error (e : pyexc F) : Prop :=
  is_ValueError e = false /\ is_KeyboardInterrupt e = false.

(** The counter file is absent, blank, or holds an integer. *)
Definition readable_counter (file : option pystr) : bool :=
  match file with
  | None => true
  | Some content =>
      match strip content with
      | [] => true
      | text => match py_int text with Some _ => true | None => false end
      end
  end.

(** ** Vocabulary of the further properties *)

(** Nothing but whitespace, as [str.strip] and [int()] see it. *)
Definition blank (s : pystr) : bool := forallb is_space s.

(** The world of a process after another process has left [file] as the
    counter file. *)
Definition with_file (w : world F) (file : option pystr) : world F :=
  {| stdin := stdin w; stdout := stdout w; stderr := stderr w;
     usage_file := file; usage_count := usage_count w |}.

(** Two processes that have loaded the module and share the counter
    file call [log_api_usage] in the order of the schedule: [true] is a
    call by the first process, [false] one by the second.  Each has its
    own global [usage_count]; what one writes is the file the other
    finds. *)
Fixpoint interleave (sched : list bool) (wa wb : world F)
  : world F * world F :=
  match sched with
  | [] => (wa, wb)
  | true :: sched' =>
      let wa' := snd (log_api_usage wa) in
      interleave sched' wa' (with_file wb (usage_file wa'))
  | false :: sched' =>
      let wb' := snd (log_api_usage wb) in
      interleave sched' (with_file wa (usage_file wb')) wb'
  end.

(** One run of a program that loads the module and calls
    [log_api_usage] [n] times: the counter file it leaves behind. *)
Definition session (n : nat) (file : option pystr) : option pystr :=
  usage_file (snd (bind read_usage_count (fun _ => log_api_usage_times n)
                     (boot (F:=F) [] file))).

(** One run after another, each finding the file the previous one
    left. *)
Definition sessions (ns : list nat) (file : option pystr) : option pystr :=
  fold_left (fun f n => session n f) ns file.

(** How many calls of the schedule are by process [who]. *)
Definition calls (who : bool) (sched : list bool) : nat :=
  List.length (filter (Bool.eqb who) sched).



(** Printable ASCII: the space to the tilde. *)
Definition printable (c : N) : bool := (32 <=? c) && (c <=? 126).

(** The world once the script has read standard input down to [keys]
    and written [events] to standard output. *)
Definition advanced (w : world F) (keys : list input_event)
    (events : list (out_event F)) : world F :=
  {| stdin := keys; stdout := stdout w ++ events; stderr := stderr w;
     usage_file := usage_file w; usage_count := usage_count w |}.

(** The lines [print_choices] writes, numbered from [idx]. *)
Fixpoint choices_shown (idx : Z) (choices : list (value F))
  : list (out_event F) :=
  match choices with
  | [] => []
  | choice :: rest =>
      Print [FStr (lit "  "); FStr (str_of_Z idx); FStr (lit ". ");
             FVal choice]
        :: choices_shown (idx + 1) rest
  end.

(** The line for the question's title. *)
Definition question_shown (i : Z) (text : value F) : out_event F :=
  Print [FStr (10 :: lit "Q"); FStr (str_of_Z i); FStr (lit ": "); FVal text].



Definition is_list (v : value F) : bool :=
  match v with VList _ => true | _ => false end.

Definition is_dict (v : value F) : bool :=
  match v with VDict _ => true | _ => false end.


(** [int()] accepts the line. *)
Definition reads_int (s : pystr) : bool :=
  match py_int s with Some _ => true | None => false end.



(** What the first [try] statement handles at the prompt: a line that
    [int()] rejects, or a keyboard interrupt. *)
Definition no_integer (ev : input_event) : bool :=
  match ev with
  | Line s => negb (reads_int s)
  | CtrlC => true
  end.

(** The exceptions a run may end in when [keys] are the keystrokes
    waiting: [KeyboardInterrupt] only if one of them is a keyboard
    interrupt, [SystemExit] with status 1 only. *)
Definition allowed (keys : list input_event) (e : pyexc F) : Prop :=
  match e with
  | KeyboardInterrupt => In CtrlC keys
  | SystemExit code => code = 1%Z
  | _ => True
  end.

(** The statement [m] reads standard input from its front only, and
    raises allowed exceptions only. *)
Definition tame {A} (m : M F A) : Prop :=
  forall w r w',
    m w = (r, w') ->
    (exists used, stdin w = used ++ stdin w')
    /\ (forall e, r = Raise e -> allowed (stdin w) e).

(** Two worlds with the same standard streams. *)
Definition same_streams (w w' : world F) : Prop :=
  stdin w = stdin w' /\ stdout w = stdout w' /\ stderr w = stderr w'.

(** A statement whose result and whose effect on the streams depend on
    neither the counter nor its file. *)
Definition ignores_counter {A} (m : M F A) : Prop :=
  forall w w',
    same_streams w w' ->
    fst (m w) = fst (m w') /\ same_streams (snd (m w)) (snd (m w')).

(** A character that can stand right after a value: JSON whitespace, a
    comma, a closing bracket or brace. *)
Definition terminator (c : N) : bool :=
  is_ws c || (c =? 44) || (c =? 93) || (c =? 125).

(** The text is empty or starts with a terminator. *)
Definition ended (s : pystr) : bool :=
  match s with
  | [] => true
  | c :: _ => terminator c
  end.

(** Nothing but JSON whitespace. *)
Definition all_ws (s : pystr) : bool := forallb is_ws s.

End Vocabulary.

(* ================================================================== *)
(** * Concrete inputs *)
(* ================================================================== *)

(** Floats for documents in which no number has a fraction or an
    exponent: there is no finite float, and [float_of_literal] is never
    reached on such documents. *)
#[local] Instance no_fractions : FloatOps Empty_set := {
  float_of_literal := fun _ => FNan;
  float_repr := fun x => match x with end;
  float_eq_int := fun _ x => match x with end;
  float_is_zero := fun x => match x with end
}.

(** The digit table of an interpreter that is given ASCII input. *)
#[local] Instance ascii_digits : Digits := {|
  decimal_value := fun c => if is_digit c then Some (c - 48) else None;
  decimal_ascii := fun _ _ => eq_refl
|}.

(** Replies of the service: one question, and two questions of which the
    second has no explanation. *)
Definition one_question : pystr :=
  qlit "[{'question': 'Q', 'choices': ['A', 'B', 'C', 'D'], 'answer_index': 1, 'explanation': 'E'}]".

Definition two_questions : pystr :=
  qlit "[{'question': 'Q', 'choices': ['A', 'B', 'C', 'D'], 'answer_index': 1, 'explanation': 'E'},
 {'question': 'R', 'choices': ['A', 'B', 'C', 'D'], 'answer_index': 0}]".

(** The two questions as [json.loads] builds them. *)
Definition question_Q : value Empty_set :=
  VDict [(lit "question", VStr (lit "Q"));
         (lit "choices", VList [VStr (lit "A"); VStr (lit "B");
                                VStr (lit "C"); VStr (lit "D")]);
         (lit "answer_index", VInt 1);
         (lit "explanation", VStr (lit "E"))].

Definition question_R : value Empty_set :=
  VDict [(lit "question", VStr (lit "R"));
         (lit "choices", VList [VStr (lit "A"); VStr (lit "B");
                                VStr (lit "C"); VStr (lit "D")]);
         (lit "answer_index", VInt 0)].

(** The command line with every option but [--mode] left at its
    default. *)
Definition default_args (m : mode) : args :=
  {| topic := lit "HTML Basics"; difficulty := lit "beginner";
     count := 1; arg_mode := m |}.

(** A service that answers with a fixed text, and one that fails. *)
Definition answers (a : pystr) : res Empty_set pystr := Ret a.

Definition unreachable (msg : pystr) : res Empty_set pystr :=
  Raise (ServiceError msg).

(** A reply whose only element has no [question] key. *)
Definition no_question_key : pystr :=
  qlit "[{'text': 'Q', 'choices': ['A', 'B', 'C', 'D'], 'answer_index': 1}]".

(** The lines [print] writes for the four choices and for the title of a
    question. *)
Definition choice_lines : list (out_event Empty_set) :=
  [Print [FStr (lit "  "); FStr (lit "0"); FStr (lit ". "); FVal (VStr (lit "A"))];
   Print [FStr (lit "  "); FStr (lit "1"); FStr (lit ". "); FVal (VStr (lit "B"))];
   Print [FStr (lit "  "); FStr (lit "2"); FStr (lit ". "); FVal (VStr (lit "C"))];
   Print [FStr (lit "  "); FStr (lit "3"); FStr (lit ". "); FVal (VStr (lit "D"))]].

Definition question_line (i title : pystr) : out_event Empty_set :=
  Print [FStr (10 :: lit "Q"); FStr i; FStr (lit ": "); FVal (VStr title)].

(** The fields of the two questions, and those of a question whose
    answer index is past its three choices. *)
Definition fields_Q : list (pystr * value Empty_set) :=
  [(lit "question", VStr (lit "Q"));
   (lit "choices", VList [VStr (lit "A"); VStr (lit "B");
                          VStr (lit "C"); VStr (lit "D")]);
   (lit "answer_index", VInt 1);
   (lit "explanation", VStr (lit "E"))].



(** The four choices of the questions [Q] and [R]. *)
Definition choices_ABCD : list (value Empty_set) :=
  [VStr (lit "A"); VStr (lit "B"); VStr (lit "C"); VStr (lit "D")].

(** An upstream call that is interrupted from the keyboard, and one
    whose client fails to decode the service's answer. *)
Definition interrupted (prompt : pystr) : res Empty_set pystr :=
  Raise KeyboardInterrupt.

Definition undecodable (prompt : pystr) : res Empty_set pystr :=
  Raise (JSONDecodeError (lit "Expecting value") (lit "<html>") 0).

(** A process that has loaded the count 5 from the file. *)
Definition loaded_5 : world Empty_set :=
  {| stdin := []; stdout := []; stderr := [];
     usage_file := Some (lit "5"); usage_count := Some 5%Z |}.

(* ================================================================== *)
(** * Properties *)
(* ================================================================== *)

(* ------------------------------------------------------------------ *)
(** ** What [json.dumps] writes is read back by the scanner *)
(* ------------------------------------------------------------------ *)

(** Turn boolean comparisons in the context into propositions. *)
Ltac cmp :=
  repeat match goal with
  | H : (_ && _) = true |- _ => apply andb_true_iff in H; destruct H
  | H : (_ || _) = true |- _ => apply orb_true_iff in H
  | H : (_ || _) = false |- _ => apply orb_false_iff in H; destruct H
  | H : (_ =? _) = true |- _ => apply N.eqb_eq in H
  | H : (_ =? _) = false |- _ => apply N.eqb_neq in H
  | H : (_ <=? _) = true |- _ => apply N.leb_le in H
  | H : (_ <=? _) = false |- _ => apply N.leb_gt in H
  | H : (_ <? _) = true |- _ => apply N.ltb_lt in H
  | H : (_ <? _) = false |- _ => apply N.ltb_ge in H
  end.

(** Split a disjunction of character tests into its cases. *)
Ltac char_cases H :=
  repeat (apply orb_true_iff in H; destruct H as [H|H]);
  apply N.eqb_eq in H; subst.

Lemma pystr_eqb_spec a b : reflect (a = b) (pystr_eqb a b).
Proof.
  revert b; induction a as [|x a IH]; intros [|y b]; simpl;
    try (constructor; congruence).
  destruct (N.eqb_spec x y) as [->|ne]; simpl.
  - destruct (IH b) as [->|ne]; constructor; congruence.
  - constructor; congruence.
Qed.

Lemma pystr_eqb_refl a : pystr_eqb a a = true.
Proof. destruct (pystr_eqb_spec a a); congruence. Qed.

Lemma strip_prefix_app p r : strip_prefix p (p ++ r) = Some r.
Proof. induction p as [|x p IH]; simpl; [|rewrite N.eqb_refl]; auto. Qed.

Section Serialisation.

Context {F : Type} {fops : FloatOps F}.

#[local] Arguments is_digit : simpl never.
#[local] Arguments is_ws : simpl never.

Lemma json_dumps_list x l :
  json_dumps (VList (x :: l)) = 91 :: json_dumps x ++ dumps_items l.
Proof.
  reflexivity.
Qed.

Lemma json_dumps_dict k x d :
  json_dumps (VDict ((k, x) :: d)) =
  123 :: encode_string k ++ 58 :: 32 :: json_dumps x ++ dumps_pairs d.
Proof.
  reflexivity.
Qed.

Lemma follows_no_digit rest : follows rest = true -> no_digit_head rest.
Proof.
  destruct rest as [|c rest]; simpl; [easy|].
  intros H. char_cases H; reflexivity.
Qed.

Lemma span_digits_app s d r rest :
  span_digits s = (d, r) ->
  r <> [] \/ no_digit_head rest ->
  span_digits (s ++ rest) = (d, r ++ rest).
Proof.
  revert d r. induction s as [|c s IH]; intros d r; simpl.
  - intros H [Hr|Hr]; inversion H; subst; [congruence|].
    destruct rest as [|c rest]; simpl in *; [reflexivity|now rewrite Hr].
  - destruct (is_digit c).
    + destruct (span_digits s) as [d0 r0] eqn:E. intros H Hr.
      inversion H; subst. now rewrite (IH d0 r eq_refl Hr).
    + intros H _. now inversion H.
Qed.

Lemma match_int_part_app s ip r rest :
  match_int_part s = Some (ip, r) ->
  r <> [] \/ no_digit_head rest ->
  match_int_part (s ++ rest) = Some (ip, r ++ rest).
Proof.
  destruct s as [|c s]; simpl; [discriminate|].
  destruct ((49 <=? c) && (c <=? 57)).
  - destruct (span_digits s) as [d0 r0] eqn:E. intros H Hr.
    inversion H; subst. now rewrite (span_digits_app _ _ _ _ E Hr).
  - destruct (c =? 48); [|discriminate]. intros H _. now inversion H.
Qed.

Lemma match_frac_app s fp r rest :
  match_frac s = Some (fp, r) ->
  r <> [] \/ no_digit_head rest ->
  match_frac (s ++ rest) = Some (fp, r ++ rest).
Proof.
  destruct s as [|dot [|c s]]; simpl; try discriminate.
  destruct ((dot =? 46) && is_digit c); [|discriminate].
  destruct (span_digits s) as [d0 r0] eqn:E. intros H Hr.
  inversion H; subst. now rewrite (span_digits_app _ _ _ _ E Hr).
Qed.

Lemma match_frac_none_app s rest :
  match_frac s = None -> follows rest = true ->
  match_frac (s ++ rest) = None.
Proof.
  intros H Hf. pose proof (follows_no_digit _ Hf) as Hd.
  destruct s as [|dot [|c s]]; simpl in *.
  - destruct rest as [|a [|b rest]]; simpl in *; try reflexivity.
    replace (a =? 46) with false; [reflexivity|].
    char_cases Hf; reflexivity.
  - destruct rest as [|a rest]; simpl in *; [reflexivity|].
    rewrite Hd. now rewrite andb_false_r.
  - destruct ((dot =? 46) && is_digit c); [|reflexivity].
    now destruct (span_digits s).
Qed.

Lemma match_exp_app s ep r rest :
  match_exp s = Some (ep, r) ->
  r <> [] \/ no_digit_head rest ->
  match_exp (s ++ rest) = Some (ep, r ++ rest).
Proof.
  destruct s as [|e s1]; simpl; [discriminate|].
  destruct ((e =? 101) || (e =? 69)); [|discriminate].
  destruct s1 as [|c [|c2 t]]; simpl.
  - discriminate.
  - destruct (is_digit c) eqn:Hc; [|discriminate].
    intros H Hr. inversion H; subst.
    destruct Hr as [Hr|Hr]; [congruence|].
    destruct rest as [|a rest]; simpl.
    + now rewrite Hc.
    + assert (Hs : (c =? 45) || (c =? 43) = false).
      { clear -Hc. unfold is_digit in Hc. cmp.
        apply orb_false_iff. split; apply N.eqb_neq; lia. }
      rewrite Hs. simpl. rewrite Hc. simpl in Hr. now rewrite Hr.
  - destruct ((c =? 45) || (c =? 43)).
    + destruct (span_digits (c2 :: t)) as [d0 r0] eqn:E. intros H Hr.
      destruct d0 as [|x d0]; [discriminate|]. inversion H; subst.
      change (c2 :: t ++ rest) with ((c2 :: t) ++ rest).
      now rewrite (span_digits_app _ _ _ _ E Hr).
    + destruct (span_digits (c :: c2 :: t)) as [d0 r0] eqn:E. intros H Hr.
      destruct d0 as [|x d0]; [discriminate|]. inversion H; subst.
      change (c :: c2 :: t ++ rest) with ((c :: c2 :: t) ++ rest).
      now rewrite (span_digits_app _ _ _ _ E Hr).
Qed.

Lemma span_digits_no_digit rest :
  no_digit_head rest -> span_digits rest = ([], rest).
Proof. destruct rest as [|a rest]; simpl; [easy|]. now intros ->. Qed.

Lemma span_digits_nil_app s r rest :
  span_digits s = ([], r) -> no_digit_head rest ->
  exists r', span_digits (s ++ rest) = ([], r').
Proof.
  destruct s as [|c s]; simpl.
  - intros _ Hr. rewrite (span_digits_no_digit _ Hr). eauto.
  - destruct (is_digit c); [|eauto].
    destruct (span_digits s); discriminate.
Qed.

Lemma match_exp_none_app s rest :
  match_exp s = None -> follows rest = true ->
  match_exp (s ++ rest) = None.
Proof.
  intros H Hf. pose proof (follows_no_digit _ Hf) as Hd.
  destruct s as [|e s1]; simpl in *.
  - destruct rest as [|a rest]; [reflexivity|]. simpl in Hf. simpl.
    replace ((a =? 101) || (a =? 69)) with false; [reflexivity|].
    char_cases Hf; reflexivity.
  - destruct ((e =? 101) || (e =? 69)); [|reflexivity].
    assert (Hsign : forall a, follows (a :: nil) = true ->
                              (a =? 45) || (a =? 43) = false).
    { intros a Ha. simpl in Ha. char_cases Ha; reflexivity. }
    destruct s1 as [|c [|c2 t]]; simpl in *.
    + destruct rest as [|a [|b rest]]; simpl in *; try reflexivity.
      * now rewrite Hd.
      * replace ((a =? 45) || (a =? 43)) with false
          by (symmetry; apply Hsign; exact Hf).
        cbn [span_digits]. now rewrite Hd.
    + destruct (is_digit c) eqn:Hc; [discriminate|].
      destruct rest as [|a rest]; simpl in *.
      * now rewrite Hc.
      * destruct ((c =? 45) || (c =? 43)); simpl.
        -- now rewrite Hd.
        -- now rewrite Hc.
    + destruct ((c =? 45) || (c =? 43)).
      * destruct (span_digits (c2 :: t)) as [d0 r0] eqn:E.
        destruct d0 as [|x d0]; [|discriminate].
        change (c2 :: t ++ rest) with ((c2 :: t) ++ rest).
        destruct (span_digits_nil_app _ _ rest E Hd) as [r' ->]. reflexivity.
      * destruct (span_digits (c :: c2 :: t)) as [d0 r0] eqn:E.
        destruct d0 as [|x d0]; [|discriminate].
        change (c :: c2 :: t ++ rest) with ((c :: c2 :: t) ++ rest).
        destruct (span_digits_nil_app _ _ rest E Hd) as [r' ->]. reflexivity.
Qed.

Lemma match_parts_app s ip fp ep rest :
  match_parts s = Some (ip, fp, ep, []) ->
  follows rest = true ->
  match_parts (s ++ rest) = Some (ip, fp, ep, rest).
Proof.
  intros H Hf. pose proof (follows_no_digit _ Hf) as Hd.
  unfold match_parts in *.
  destruct (match_int_part s) as [[ip' s1]|] eqn:Ei; [|discriminate].
  rewrite (match_int_part_app _ _ _ rest Ei (or_intror Hd)).
  destruct (match_frac s1) as [[fp' s2]|] eqn:Efr.
  - rewrite (match_frac_app _ _ _ rest Efr (or_intror Hd)).
    destruct (match_exp s2) as [[ep' s3]|] eqn:Ee.
    + rewrite (match_exp_app _ _ _ rest Ee (or_intror Hd)).
      inversion H; subst. reflexivity.
    + inversion H; subst.
      rewrite (match_exp_none_app _ rest Ee Hf). reflexivity.
  - rewrite (match_frac_none_app _ rest Efr Hf).
    destruct (match_exp s1) as [[ep' s3]|] eqn:Ee.
    + rewrite (match_exp_app _ _ _ rest Ee (or_intror Hd)).
      inversion H; subst. reflexivity.
    + inversion H; subst.
      rewrite (match_exp_none_app _ rest Ee Hf). reflexivity.
Qed.

(** A number that fills its text is read the same way in front of a
    delimiter. *)
Lemma match_number_app r t fl rest :
  match_number r = Some (t, fl, []) ->
  follows rest = true ->
  match_number (r ++ rest) = Some (t, fl, rest).
Proof.
  intros H Hf. unfold match_number in *.
  destruct r as [|c r0]; [discriminate|].
  cbn [app]. destruct (c =? 45).
  - destruct (match_parts r0) as [[[[ip fp] ep] s3]|] eqn:E; [|discriminate].
    inversion H; subst.
    now rewrite (match_parts_app _ _ _ _ rest E Hf).
  - destruct (match_parts (c :: r0)) as [[[[ip fp] ep] s3]|] eqn:E;
      [|discriminate].
    inversion H; subst.
    change (c :: r0 ++ rest) with ((c :: r0) ++ rest).
    now rewrite (match_parts_app _ _ _ _ rest E Hf).
Qed.

(** A number starts with a digit, or with a minus sign and a digit. *)
Lemma match_number_head r res :
  match_number r = Some res ->
  exists c r', r = c :: r'
    /\ (is_digit c = true
        \/ (c = 45 /\ exists c2 r'', r' = c2 :: r'' /\ is_digit c2 = true)).
Proof.
  assert (Hip : forall s x, match_int_part s = Some x ->
                  exists c s', s = c :: s' /\ is_digit c = true).
  { intros [|c s'] x; simpl; [discriminate|].
    destruct ((49 <=? c) && (c <=? 57)) eqn:E1.
    - intros _. exists c, s'. split; [reflexivity|].
      unfold is_digit. cmp. apply andb_true_iff; split; apply N.leb_le; lia.
    - destruct (c =? 48) eqn:E2; [|discriminate].
      intros _. exists c, s'. cmp. now subst. }
  unfold match_number, match_parts. destruct r as [|c r0].
  - simpl. discriminate.
  - intros H. exists c, r0. split; [reflexivity|].
    destruct (c =? 45) eqn:Ec.
    + right. cmp. split; [assumption|].
      destruct (match_int_part r0) as [x|] eqn:E; [|discriminate].
      destruct (Hip _ _ E) as (c2 & r'' & -> & Hd). eauto.
    + left. destruct (match_int_part (c :: r0)) as [x|] eqn:E; [|discriminate].
      destruct (Hip _ _ E) as (c2 & r'' & Heq & Hd). now inversion Heq; subst.
Qed.

(** ** Decimal text of an integer *)

Lemma log2_div10 n : n / 10 <> 0 -> N.log2 (n / 10) < N.log2 n.
Proof.
  intros Hq.
  assert (Hn : 0 < n) by (destruct n; [now compute in Hq|lia]).
  assert (Hq' : 0 < n / 10) by now apply N.neq_0_lt_0.
  apply (proj1 (N.log2_lt_pow2 (n / 10) (N.log2 n) Hq')).
  pose proof (N.log2_spec n Hn) as [_ Hub].
  rewrite N.pow_succ_r' in Hub.
  apply N.Div0.div_lt_upper_bound. lia.
Qed.

Lemma digits_of_shape fuel n acc :
  n <> 0 -> (N.to_nat (N.log2 n) < fuel)%nat ->
  exists d ds, digits_of fuel n acc = d :: ds ++ acc
               /\ 49 <= d <= 57 /\ all_digits ds = true.
Proof.
  revert n acc. induction fuel as [|fuel IH]; intros n acc Hn Hf; [lia|].
  cbn [digits_of]. pose proof (N.mod_lt n 10 ltac:(lia)) as Hm.
  destruct (n / 10 =? 0) eqn:Eq; cmp.
  - exists (digit_char (n mod 10)), []. repeat split.
    + assert (n < 10) by (apply N.div_small_iff in Eq; lia).
      rewrite N.mod_small by assumption. unfold digit_char. lia.
    + unfold digit_char. lia.
  - pose proof (log2_div10 n Eq) as Hl.
    assert (Hf' : (N.to_nat (N.log2 (n / 10)) < fuel)%nat).
    { revert Hl Hf. generalize (N.log2 (n / 10)) (N.log2 n). lia. }
    destruct (IH (n / 10) (digit_char (n mod 10) :: acc) Eq Hf')
      as (d & ds & -> & Hd & Hds).
    exists d, (ds ++ [digit_char (n mod 10)]). repeat split; try lia.
    + now rewrite <- app_assoc.
    + unfold all_digits in *. rewrite forallb_app, Hds. cbn [forallb andb].
      unfold is_digit, digit_char. rewrite andb_true_r.
      revert Hm. generalize (n mod 10). clear. intros m Hm.
      apply andb_true_iff; split; apply N.leb_le; lia.
Qed.

Lemma str_of_N_shape n :
  n <> 0 ->
  exists d ds, str_of_N n = d :: ds /\ 49 <= d <= 57 /\ all_digits ds = true.
Proof.
  intros Hn. unfold str_of_N.
  destruct (digits_of_shape (S (N.to_nat (N.log2 n))) n [] Hn ltac:(lia))
    as (d & ds & -> & Hd & Hds).
  exists d, ds. now rewrite app_nil_r.
Qed.

Lemma span_digits_all ds : all_digits ds = true -> span_digits ds = (ds, []).
Proof.
  induction ds as [|c ds IH]; simpl; [reflexivity|].
  intros H. apply andb_true_iff in H. destruct H as [Hc Hds].
  now rewrite Hc, (IH Hds).
Qed.

Lemma match_number_str_of_N n :
  match_number (str_of_N n) = Some (str_of_N n, false, []).
Proof.
  destruct (N.eq_dec n 0) as [->|Hn]; [reflexivity|].
  destruct (str_of_N_shape n Hn) as (d & ds & -> & Hd & Hds).
  unfold match_number, match_parts, match_int_part.
  replace (d =? 45) with false by (symmetry; apply N.eqb_neq; lia).
  replace ((49 <=? d) && (d <=? 57)) with true
    by (symmetry; apply andb_true_iff; split; apply N.leb_le; lia).
  rewrite (span_digits_all ds Hds). cbn. now rewrite app_nil_r.
Qed.

Lemma match_number_str_of_Z z :
  match_number (str_of_Z z) = Some (str_of_Z z, false, []).
Proof.
  destruct z as [|p|p]; cbn [str_of_Z].
  - apply match_number_str_of_N.
  - apply match_number_str_of_N.
  - pose proof (match_number_str_of_N (N.pos p)) as H.
    destruct (str_of_N_shape (N.pos p) ltac:(lia)) as (d & ds & E & Hd & _).
    rewrite E in *. unfold match_number in *. cbn [N.eqb Pos.eqb] .
    replace (45 =? 45) with true by reflexivity.
    replace (d =? 45) with false in H by (symmetry; apply N.eqb_neq; lia).
    destruct (match_parts (d :: ds)) as [[[[ip fp] ep] s3]|]; [|discriminate].
    injection H as H1 H2 H3. cbn [app] in *. now rewrite H1, H2, H3.
Qed.

(** ** Escaped strings *)

Lemma hex_val_hex_char x : exists d, hex_val (hex_char (N.land x 15)) = Some d.
Proof.
  assert (H : N.land x 15 < 16).
  { change 15 with (N.ones 4). rewrite N.land_ones.
    apply N.mod_lt. discriminate. }
  revert H. generalize (N.land x 15). intros d Hd.
  unfold hex_char, hex_val, is_digit.
  destruct (d <? 10) eqn:E; cmp.
  - replace ((48 <=? 48 + d) && (48 + d <=? 57)) with true; [eauto|].
    symmetry. apply andb_true_iff; split; apply N.leb_le; lia.
  - replace ((48 <=? 87 + d) && (87 + d <=? 57)) with false.
    + replace ((97 <=? 87 + d) && (87 + d <=? 102)) with true; [eauto|].
      symmetry. apply andb_true_iff; split; apply N.leb_le; lia.
    + symmetry. apply andb_false_iff. right. apply N.leb_gt. lia.
Qed.

Lemma esc_hex4 n t : esc_text t -> esc_text (92 :: 117 :: hex4 n ++ t).
Proof.
  intros Ht. unfold hex4. cbn [app].
  destruct (hex_val_hex_char (N.shiftr n 12)) as [d1 H1].
  destruct (hex_val_hex_char (N.shiftr n 8)) as [d2 H2].
  destruct (hex_val_hex_char (N.shiftr n 4)) as [d3 H3].
  destruct (hex_val_hex_char n) as [d4 H4].
  eapply esc_hex; [|exact Ht]. unfold decode_hex4.
  rewrite H1, H2, H3, H4. reflexivity.
Qed.

Lemma esc_escape_char c t : esc_text t -> esc_text (escape_char c ++ t).
Proof.
  intros Ht. unfold escape_char.
  destruct (c =? 92) eqn:E1; [now apply (esc_letter 92 92)|].
  destruct (c =? 34) eqn:E2; [now apply (esc_letter 34 34)|].
  destruct (c =? 8) eqn:E3; [now apply (esc_letter 98 8)|].
  destruct (c =? 12) eqn:E4; [now apply (esc_letter 102 12)|].
  destruct (c =? 10) eqn:E5; [now apply (esc_letter 110 10)|].
  destruct (c =? 13) eqn:E6; [now apply (esc_letter 114 13)|].
  destruct (c =? 9) eqn:E7; [now apply (esc_letter 116 9)|].
  destruct ((32 <=? c) && (c <=? 126)) eqn:E8.
  - cmp. now apply esc_plain.
  - destruct (c <? 65536).
    + apply esc_hex4. exact Ht.
    + cbv zeta. rewrite <- app_assoc.
      change ((92 :: 117 :: hex4 ?a) ++ ?b) with (92 :: 117 :: hex4 a ++ b).
      apply esc_hex4. cbn [app]. apply esc_hex4. exact Ht.
Qed.

Lemma esc_flat_map s : esc_text (flat_map escape_char s).
Proof.
  induction s as [|c s IH]; simpl; [constructor|]. now apply esc_escape_char.
Qed.

Lemma scan_map_scanned {A B} (f : A -> B) (r : scan A) rest :
  (exists a, r = Scanned a rest) ->
  exists b, scan_map f r = Scanned b rest.
Proof. intros [a ->]. simpl. eauto. Qed.

Lemma scanstring_plain begin c s1 :
  32 <= c -> c <> 34 -> c <> 92 ->
  scanstring begin (c :: s1) = scan_map (cons c) (scanstring begin s1).
Proof.
  intros H1 H2 H3. cbn [scanstring].
  replace (c =? 34) with false by (symmetry; now apply N.eqb_neq).
  replace (c =? 92) with false by (symmetry; now apply N.eqb_neq).
  replace (c <=? 31) with false by (symmetry; apply N.leb_gt; lia).
  reflexivity.
Qed.

Lemma scanstring_letter begin e ch s2 :
  e <> 117 -> unescape e = Some ch ->
  scanstring begin (92 :: e :: s2) = scan_map (cons ch) (scanstring begin s2).
Proof.
  intros H1 H2. cbn [scanstring].
  change (92 =? 34) with false. change (92 =? 92) with true. cbv iota.
  replace (e =? 117) with false by (symmetry; now apply N.eqb_neq).
  now rewrite H2.
Qed.

(** After [\uXXXX], a text that does not go on with [\u] is scanned from
    where it stands. *)
Lemma scanstring_hex_alone begin h1 h2 h3 h4 u s3 :
  decode_hex4 h1 h2 h3 h4 = Some u ->
  s3 <> [] ->
  match s3 with
  | b :: u' :: _ => (b =? 92) && (u' =? 117) = false
  | _ => True
  end ->
  scanstring begin (92 :: 117 :: h1 :: h2 :: h3 :: h4 :: s3) =
  scan_map (cons u) (scanstring begin s3).
Proof.
  intros Hu Hne Hs. cbn [scanstring].
  change (92 =? 34) with false. change (92 =? 92) with true.
  change (117 =? 117) with true. cbv iota.
  destruct s3 as [|b s3]; [congruence|]. rewrite Hu.
  destruct s3 as [|u' [|l1 [|l2 [|l3 [|l4 [|c7 s4]]]]]]; try reflexivity.
  apply andb_false_iff in Hs.
  replace (is_high_surrogate u && (b =? 92) && (u' =? 117)) with false;
    [reflexivity|].
  symmetry. destruct Hs as [-> | ->].
  - now rewrite andb_false_r.
  - now rewrite andb_false_r.
Qed.

(** After [\uXXXX], a second [\uXXXX] is joined to the first when the two
    are a surrogate pair, and left for the next turn otherwise. *)
Lemma scanstring_hex_pair begin h1 h2 h3 h4 u l1 l2 l3 l4 u2 s4 :
  decode_hex4 h1 h2 h3 h4 = Some u ->
  decode_hex4 l1 l2 l3 l4 = Some u2 ->
  s4 <> [] ->
  scanstring begin
    (92 :: 117 :: h1 :: h2 :: h3 :: h4 :: 92 :: 117 :: l1 :: l2 :: l3 :: l4 :: s4) =
  if is_high_surrogate u && is_low_surrogate u2
  then scan_map (cons (join_surrogates u u2)) (scanstring begin s4)
  else scan_map (cons u)
         (scanstring begin (92 :: 117 :: l1 :: l2 :: l3 :: l4 :: s4)).
Proof.
  intros Hu Hu2 Hne.
  destruct s4 as [|c7 s4]; [congruence|].
  set (tail := 92 :: 117 :: l1 :: l2 :: l3 :: l4 :: c7 :: s4).
  cbn [scanstring].
  change (92 =? 34) with false. change (92 =? 92) with true.
  change (117 =? 117) with true. cbv iota.
  rewrite Hu. subst tail. cbv iota. rewrite Hu2.
  change (92 =? 92) with true. change (117 =? 117) with true.
  rewrite !andb_true_r.
  destruct (is_high_surrogate u); [|reflexivity].
  cbn [andb]. destruct (is_low_surrogate u2); reflexivity.
Qed.

(** Escaped text up to the closing quote is scanned to the end of the
    string, whatever stands after the quote. *)
Lemma scanstring_escaped n t :
  (List.length t <= n)%nat -> esc_text t ->
  forall begin rest,
    exists s', scanstring begin (t ++ 34 :: rest) = Scanned s' rest.
Proof.
  revert t. induction n as [|n IH]; intros t Hn Ht begin rest.
  - destruct t; [|simpl in Hn; lia]. simpl. eauto.
  - destruct Ht as [|c t H1 H2 H3 Ht|e ch t H1 H2 Ht|h1 h2 h3 h4 u t Hu Ht].
    + simpl. eauto.
    + cbn [app]. rewrite (scanstring_plain _ _ _ H1 H2 H3).
      apply scan_map_scanned. apply IH; [simpl in Hn; lia|exact Ht].
    + cbn [app]. rewrite (scanstring_letter _ _ _ _ H1 H2).
      apply scan_map_scanned. apply IH; [simpl in Hn; lia|exact Ht].
    + cbn [app].
      assert (Hne : t ++ 34 :: rest <> []) by (destruct t; discriminate).
      assert (Hrec : exists s', scanstring begin (t ++ 34 :: rest) =
                                Scanned s' rest)
        by (apply IH; [simpl in Hn; lia|exact Ht]).
      destruct Ht as [|c t H1 H2 H3 Ht|e ch t H1 H2 Ht
                     |l1 l2 l3 l4 u2 t Hu2 Ht].
      * rewrite (scanstring_hex_alone _ _ _ _ _ _ _ Hu Hne).
        -- now apply scan_map_scanned.
        -- cbn [app]. now destruct rest.
      * rewrite (scanstring_hex_alone _ _ _ _ _ _ _ Hu Hne).
        -- now apply scan_map_scanned.
        -- cbn [app].
           replace (c =? 92) with false by (symmetry; now apply N.eqb_neq).
           now destruct (t ++ 34 :: rest).
      * rewrite (scanstring_hex_alone _ _ _ _ _ _ _ Hu Hne).
        -- now apply scan_map_scanned.
        -- cbn [app].
           replace (e =? 117) with false by (symmetry; now apply N.eqb_neq).
           apply andb_false_r.
      * cbn [app] in *.
        rewrite (scanstring_hex_pair begin _ _ _ _ _ _ _ _ _ _ _ Hu Hu2)
          by (destruct t; discriminate).
        destruct (is_high_surrogate u && is_low_surrogate u2).
        -- apply scan_map_scanned. apply IH; [simpl in Hn; lia|exact Ht].
        -- now apply scan_map_scanned.
Qed.

(** An encoded string, from its opening quote on, is scanned as a
    string. *)
Lemma scanstring_encode_string s begin rest :
  exists s',
    scanstring begin (flat_map escape_char s ++ 34 :: rest) = Scanned s' rest.
Proof.
  apply (scanstring_escaped (List.length (flat_map escape_char s)));
    [lia|apply esc_flat_map].
Qed.

(** ** Serialised values *)

(** [float.__repr__] of a finite float is the text of a JSON number. *)
Hypothesis repr_is_number : forall x : F, is_json_number (float_repr x) = true.

Lemma is_json_number_spec r :
  is_json_number r = true -> exists t fl, match_number r = Some (t, fl, []).
Proof.
  unfold is_json_number.
  destruct (match_number r) as [[[t fl] [|c s]]|]; try discriminate. eauto.
Qed.

Lemma skip_ws_keep c s : is_ws c = false -> skip_ws (c :: s) = c :: s.
Proof. intros H. cbn [skip_ws]. now rewrite H. Qed.

Lemma skip_ws_space s : skip_ws (32 :: s) = skip_ws s.
Proof. reflexivity. Qed.

(** The first character of a serialised value is neither whitespace nor
    a closing bracket or brace. *)
Lemma json_dumps_head (v : value F) :
  exists c t, json_dumps v = c :: t
              /\ is_ws c = false /\ c <> 93 /\ c <> 125.
Proof.
  assert (Hnum : forall r res, match_number r = Some res ->
            exists c t, r = c :: t /\ is_ws c = false /\ c <> 93 /\ c <> 125).
  { intros r res H.
    destruct (match_number_head r res H) as (c & r' & -> & [Hd | [-> _]]).
    - exists c, r'. unfold is_digit in Hd. cmp.
      repeat split; try lia. unfold is_ws.
      repeat (apply orb_false_iff; split); apply N.eqb_neq; lia.
    - exists 45, r'. repeat split; discriminate. }
  destruct v as [|[|]|z|[| | |x]|s|[|x l]|[|[k x] d]];
    try (eexists; eexists; split;
         [reflexivity|repeat split; discriminate]).
  - exact (Hnum _ _ (match_number_str_of_Z z)).
  - destruct (is_json_number_spec _ (repr_is_number x)) as (t & fl & H).
    exact (Hnum _ _ H).
Qed.

Lemma skip_ws_json_dumps (v : value F) t :
  skip_ws (json_dumps v ++ t) = json_dumps v ++ t.
Proof.
  destruct (json_dumps_head v) as (c & t0 & -> & Hw & _).
  cbn [app]. now apply skip_ws_keep.
Qed.

Lemma strip_prefix_other p0 p c s :
  p0 <> c -> strip_prefix (p0 :: p) (c :: s) = None.
Proof.
  intros H. cbn [strip_prefix].
  now replace (p0 =? c) with false by (symmetry; now apply N.eqb_neq).
Qed.

(** A number in front of a delimiter is scanned as that number. *)
Lemma scan_once_number constants fuel r t fl rest :
  match_number r = Some (t, fl, []) ->
  follows rest = true ->
  scan_once constants (S fuel) (r ++ rest) = Scanned (number_value t fl) rest.
Proof.
  intros H Hf. pose proof (match_number_app _ _ _ _ H Hf) as Happ.
  destruct (match_number_head r _ H) as (c & r' & -> & Hc).
  cbn [app] in *. cbn [scan_once].
  assert (Hc' : c = 45 \/ 48 <= c <= 57).
  { destruct Hc as [Hd | [-> _]]; [right|now left].
    unfold is_digit in Hd. cmp. lia. }
  replace (c =? 34) with false by (symmetry; apply N.eqb_neq; lia).
  replace (c =? 123) with false by (symmetry; apply N.eqb_neq; lia).
  replace (c =? 91) with false by (symmetry; apply N.eqb_neq; lia).
  change (lit "null") with (110 :: lit "ull").
  change (lit "true") with (116 :: lit "rue").
  change (lit "false") with (102 :: lit "alse").
  change (lit "NaN") with (78 :: lit "aN").
  change (lit "Infinity") with (73 :: lit "nfinity").
  rewrite !strip_prefix_other by lia.
  assert (Hneg : strip_prefix (lit "-Infinity") (c :: r' ++ rest) = None).
  { destruct Hc as [Hd | [-> (c2 & r'' & -> & Hd)]].
    - change (lit "-Infinity") with (45 :: lit "Infinity").
      apply strip_prefix_other. unfold is_digit in Hd. cmp. lia.
    - change (lit "-Infinity") with (45 :: 73 :: lit "nfinity").
      cbn [app strip_prefix]. change (45 =? 45) with true. cbv iota.
      replace (73 =? c2) with false; [reflexivity|].
      symmetry. apply N.eqb_neq. unfold is_digit in Hd. cmp. lia. }
  rewrite Hneg, Happ. now destruct constants.
Qed.

Lemma scan_once_string constants fuel s1 :
  scan_once constants (S fuel) (34 :: s1) =
  scan_map VStr (scanstring (34 :: s1) s1).
Proof. reflexivity. Qed.

Lemma scan_once_array constants fuel s1 :
  scan_once constants (S fuel) (91 :: s1) =
  scan_map VList (parse_array (scan_once constants fuel) s1).
Proof. reflexivity. Qed.

Lemma scan_once_object constants fuel s1 :
  scan_once constants (S fuel) (123 :: s1) =
  scan_map VDict (parse_object (scan_once constants fuel) s1).
Proof. reflexivity. Qed.

Lemma encode_string_app k t :
  encode_string k ++ t = 34 :: flat_map escape_char k ++ 34 :: t.
Proof. unfold encode_string. cbn [app]. now rewrite <- app_assoc. Qed.

Lemma parse_array_loop_items scan_elem l :
  forall x fuel rest,
    (List.length l < fuel)%nat ->
    (forall y, In y (x :: l) -> reads scan_elem y) ->
    exists l',
      parse_array_loop scan_elem fuel (json_dumps x ++ dumps_items l ++ rest) =
      Scanned l' rest.
Proof.
  induction l as [|y l IH]; intros x fuel rest Hfuel Hall;
    (destruct fuel as [|fuel]; [simpl in Hfuel; lia|]);
    cbn [parse_array_loop dumps_items app].
  - destruct (Hall x (or_introl eq_refl) (93 :: rest) eq_refl) as [x' ->].
    rewrite skip_ws_keep by reflexivity.
    change (93 =? 93) with true. cbv iota. eauto.
  - destruct (Hall x (or_introl eq_refl)
                (44 :: 32 :: json_dumps y ++ dumps_items l ++ rest) eq_refl)
      as [x' Hx].
    rewrite <- app_assoc. rewrite Hx.
    rewrite skip_ws_keep by reflexivity.
    change (44 =? 93) with false. change (44 =? 44) with true. cbv iota.
    rewrite skip_ws_space, skip_ws_json_dumps.
    apply scan_map_scanned. apply IH; [simpl in Hfuel; lia|].
    intros z Hz. apply Hall. now right.
Qed.

Lemma parse_object_loop_pairs scan_elem d :
  forall k x acc fuel rest,
    (List.length d < fuel)%nat ->
    (forall k' y, In (k', y) ((k, x) :: d) -> reads scan_elem y) ->
    exists d',
      parse_object_loop scan_elem fuel
        (encode_string k ++ 58 :: 32 :: json_dumps x ++ dumps_pairs d ++ rest)
        acc =
      Scanned d' rest.
Proof.
  induction d as [|[k' y] d IH]; intros k x acc fuel rest Hfuel Hall;
    (destruct fuel as [|fuel]; [simpl in Hfuel; lia|]);
    rewrite encode_string_app; cbn [parse_object_loop dumps_pairs];
    repeat (progress cbn [app] || rewrite <- app_assoc);
    change (34 =? 34) with true; cbv iota;
    match goal with
    | |- context [scanstring ?b (flat_map escape_char k ++ 34 :: ?r)] =>
        destruct (scanstring_encode_string k b r) as [key ->]
    end;
    rewrite skip_ws_keep by reflexivity;
    change (58 =? 58) with true; cbv iota;
    rewrite skip_ws_space, skip_ws_json_dumps;
    match goal with
    | |- context [scan_elem (json_dumps x ++ ?r)] =>
        destruct (Hall k x (or_introl eq_refl) r eq_refl) as [x' ->]
    end;
    rewrite skip_ws_keep by reflexivity.
  - change (125 =? 125) with true. cbv iota. eauto.
  - change (44 =? 125) with false. change (44 =? 44) with true. cbv iota.
    rewrite skip_ws_space, (encode_string_app k').
    rewrite skip_ws_keep by reflexivity.
    rewrite <- (encode_string_app k').
    apply IH; [simpl in Hfuel; lia|].
    intros k2 z Hz. apply (Hall k2 z). now right.
Qed.

Lemma parse_array_nonempty (scan_elem : pystr -> scan (value F)) s :
  (exists c t, s = c :: t /\ is_ws c = false /\ c <> 93) ->
  parse_array scan_elem s = parse_array_loop scan_elem (S (List.length s)) s.
Proof.
  intros (c & t & -> & Hw & Hc). unfold parse_array.
  rewrite skip_ws_keep by assumption.
  now replace (c =? 93) with false by (symmetry; now apply N.eqb_neq).
Qed.

Lemma parse_object_nonempty (scan_elem : pystr -> scan (value F)) s :
  (exists c t, s = c :: t /\ is_ws c = false /\ c <> 125) ->
  parse_object scan_elem s =
  parse_object_loop scan_elem (S (List.length s)) s [].
Proof.
  intros (c & t & -> & Hw & Hc). unfold parse_object.
  rewrite skip_ws_keep by assumption.
  now replace (c =? 125) with false by (symmetry; now apply N.eqb_neq).
Qed.

Lemma dumps_items_length (l : list (value F)) :
  (List.length l < List.length (dumps_items l))%nat
  /\ forall y, In y l ->
       (List.length (json_dumps y) <= List.length (dumps_items l))%nat.
Proof.
  induction l as [|x l [IH1 IH2]]; cbn [dumps_items List.length].
  - split; [lia|intros y []].
  - rewrite length_app. split; [lia|].
    intros y [->|Hy]; [lia|]. specialize (IH2 y Hy). lia.
Qed.

Lemma dumps_pairs_length (d : list (pystr * value F)) :
  (List.length d < List.length (dumps_pairs d))%nat
  /\ forall k y, In (k, y) d ->
       (List.length (json_dumps y) <= List.length (dumps_pairs d))%nat.
Proof.
  induction d as [|[k x] d [IH1 IH2]]; cbn [dumps_pairs List.length].
  - split; [lia|intros k y []].
  - rewrite !length_app. cbn [List.length]. rewrite length_app. split; [lia|].
    intros k' y [E|Hy]; [inversion E; subst; lia|].
    specialize (IH2 k' y Hy). lia.
Qed.

Lemma finite_floats_dict k x (d : list (pystr * value F)) :
  finite_floats (VDict d) = true -> In (k, x) d -> finite_floats x = true.
Proof.
  induction d as [|[k' y] d IH]; [intros _ []|].
  cbn [finite_floats]. intros H. apply andb_true_iff in H.
  destruct H as [Hy Hd]. intros [E|Hin]; [now inversion E; subst|].
  now apply IH.
Qed.

(** The scanner reads back what [json.dumps] wrote, in front of any
    delimiter, given fuel for the length of the text; with [constants]
    off, the value must have no non-finite float. *)
Lemma scan_once_json_dumps constants (v : value F) :
  finite_floats v = true ->
  forall fuel rest,
    (List.length (json_dumps v) <= fuel)%nat ->
    follows rest = true ->
    exists v',
      scan_once constants fuel (json_dumps v ++ rest) = Scanned v' rest.
Proof.
  pattern v.
  apply value_rect' with
    (Pl := fun l => forall y, In y l ->
             finite_floats y = true ->
             forall fuel rest,
               (List.length (json_dumps y) <= fuel)%nat ->
               follows rest = true ->
               exists v', scan_once constants fuel (json_dumps y ++ rest) =
                          Scanned v' rest)
    (Pd := fun d => forall k y, In (k, y) d ->
             finite_floats y = true ->
             forall fuel rest,
               (List.length (json_dumps y) <= fuel)%nat ->
               follows rest = true ->
               exists v', scan_once constants fuel (json_dumps y ++ rest) =
                          Scanned v' rest);
    clear v.
  - intros _ [|fuel] rest Hfuel _; [simpl in Hfuel; lia|]. simpl. eauto.
  - intros [|] _ [|fuel] rest Hfuel _; try (simpl in Hfuel; lia);
      simpl; eauto.
  - intros z _ [|fuel] rest Hfuel Hf.
    + destruct (json_dumps_head (VInt z)) as (c & t & E & _).
      rewrite E in Hfuel. simpl in Hfuel. lia.
    + cbn [json_dumps].
      rewrite (scan_once_number constants fuel _ _ _ rest
                 (match_number_str_of_Z z) Hf). eauto.
  - intros [| | |x] Hfin [|fuel] rest Hfuel Hf; try discriminate.
    + destruct (json_dumps_head (VFloat (FFinite x))) as (c & t & E & _).
      rewrite E in Hfuel. simpl in Hfuel. lia.
    + cbn [json_dumps floatstr].
      destruct (is_json_number_spec _ (repr_is_number x)) as (t & fl & H).
      rewrite (scan_once_number constants fuel _ _ _ rest H Hf). eauto.
  - intros s _ [|fuel] rest Hfuel _; [simpl in Hfuel; lia|].
    cbn [json_dumps]. rewrite encode_string_app, scan_once_string.
    apply scan_map_scanned. apply scanstring_encode_string.
  - intros [|x l] Hl Hfin [|fuel] rest Hfuel Hf;
      try (simpl in Hfuel; lia).
    + simpl. eauto.
    + rewrite json_dumps_list in *. cbn [app]. rewrite scan_once_array.
      rewrite <- app_assoc. apply scan_map_scanned.
      cbn [List.length] in Hfuel. rewrite length_app in Hfuel.
      destruct (dumps_items_length l) as [Hlen Hels].
      rewrite parse_array_nonempty.
      * apply parse_array_loop_items; [rewrite !length_app; lia|].
        intros y Hy rest' Hf'. apply (Hl y Hy); [|..|exact Hf'].
        -- cbn [finite_floats] in Hfin.
           exact (proj1 (forallb_forall _ _) Hfin y Hy).
        -- destruct Hy as [->|Hy]; [lia|]. specialize (Hels y Hy). lia.
      * destruct (json_dumps_head x) as (c & t & E & Hw & H93 & _).
        exists c, (t ++ dumps_items l ++ rest). rewrite E. auto.
  - intros [|[k x] d] Hd Hfin [|fuel] rest Hfuel Hf;
      try (simpl in Hfuel; lia).
    + simpl. eauto.
    + rewrite json_dumps_dict in *. cbn [app]. rewrite scan_once_object.
      repeat (progress cbn [app] || rewrite <- app_assoc).
      apply scan_map_scanned.
      cbn [List.length] in Hfuel. rewrite !length_app in Hfuel.
      cbn [List.length] in Hfuel. rewrite length_app in Hfuel.
      destruct (dumps_pairs_length d) as [Hlen Hels].
      rewrite parse_object_nonempty.
      * apply parse_object_loop_pairs;
          [rewrite !length_app; cbn [List.length]; rewrite !length_app; lia|].
        intros k' y Hy rest' Hf'. apply (Hd k' y Hy); [|..|exact Hf'].
        -- exact (finite_floats_dict k' y _ Hfin Hy).
        -- destruct Hy as [E|Hy]; [inversion E; subst; lia|].
           specialize (Hels k' y Hy). lia.
      * rewrite encode_string_app. eexists; eexists.
        split; [reflexivity|split; [reflexivity|discriminate]].
  - intros y [].
  - intros x l Hx Hl y [->|Hy]; [exact Hx|now apply Hl].
  - intros k y [].
  - intros k x d Hx Hd k' y [E|Hy]; [inversion E; subst; exact Hx|].
    now apply (Hd k' y).
Qed.

(** Serialised values without non-finite floats are valid JSON. *)
Lemma valid_json_json_dumps (v : value F) :
  finite_floats v = true -> valid_json (json_dumps v) = true.
Proof.
  intros Hfin. unfold valid_json, decode.
  pose proof (skip_ws_json_dumps v []) as Hs. rewrite app_nil_r in Hs.
  rewrite Hs.
  destruct (scan_once_json_dumps false v Hfin
              (S (List.length (json_dumps v))) [] ltac:(lia) eq_refl)
    as [v' Hv].
  rewrite app_nil_r in Hv. rewrite Hv. reflexivity.
Qed.

End Serialisation.

(* ------------------------------------------------------------------ *)
(** ** [json.loads] after [json.dumps] gives the value back *)
(* ------------------------------------------------------------------ *)

Section RoundTrip.

Context {F : Type} {fops : FloatOps F}.

#[local] Arguments is_digit : simpl never.
#[local] Arguments is_ws : simpl never.

(** *** Integers *)

Lemma N_of_digits_app ds1 ds2 :
  N_of_digits (ds1 ++ ds2) = fold_left add_digit ds2 (N_of_digits ds1).
Proof. unfold N_of_digits. now rewrite fold_left_app. Qed.

Lemma digits_of_value fuel n acc :
  (N.to_nat (N.log2 n) < fuel)%nat ->
  exists ds, digits_of fuel n acc = ds ++ acc /\ N_of_digits ds = n.
Proof.
  revert n acc. induction fuel as [|fuel IH]; intros n acc Hf; [lia|].
  cbn [digits_of]. pose proof (N.mod_lt n 10 ltac:(discriminate)) as Hm.
  destruct (n / 10 =? 0) eqn:Eq; cmp.
  - exists [digit_char (n mod 10)]. split; [reflexivity|].
    assert (Hn : n < 10) by (apply N.div_small_iff in Eq; [exact Eq|discriminate]).
    rewrite N.mod_small by exact Hn. unfold N_of_digits, digit_char.
    cbn [fold_left]. lia.
  - pose proof (log2_div10 n Eq) as Hl.
    assert (Hf' : (N.to_nat (N.log2 (n / 10)) < fuel)%nat).
    { revert Hl Hf. generalize (N.log2 (n / 10)) (N.log2 n). lia. }
    destruct (IH (n / 10) (digit_char (n mod 10) :: acc) Hf')
      as (ds & -> & Hds).
    exists (ds ++ [digit_char (n mod 10)]). split.
    + now rewrite <- app_assoc.
    + rewrite N_of_digits_app, Hds. cbn [fold_left]. unfold add_digit, digit_char.
      pose proof (N.div_mod n 10 ltac:(discriminate)) as Hdm.
      revert Hm Hdm. generalize (n mod 10) (n / 10). intros m q Hm Hdm. lia.
Qed.

Lemma N_of_digits_str_of_N n : N_of_digits (str_of_N n) = n.
Proof.
  unfold str_of_N.
  destruct (digits_of_value (S (N.to_nat (N.log2 n))) n [] ltac:(lia))
    as (ds & -> & Hds).
  now rewrite app_nil_r.
Qed.

Lemma number_value_str_of_Z z : number_value (str_of_Z z) false = VInt z.
Proof.
  unfold number_value. destruct z as [|p|p]; cbn [str_of_Z].
  - reflexivity.
  - destruct (str_of_N_shape (N.pos p) ltac:(discriminate))
      as (d & ds & E & Hd & _).
    pose proof (N_of_digits_str_of_N (N.pos p)) as Hv.
    change (Z.to_N (Z.pos p)) with (N.pos p). rewrite E in *.
    replace (d =? 45) with false by (symmetry; apply N.eqb_neq; lia).
    now rewrite Hv.
  - change (45 =? 45) with true. cbv iota.
    now rewrite N_of_digits_str_of_N.
Qed.

(** *** Strings *)

Lemma holds_from_spec P fuel c :
  holds_from P fuel c = true ->
  forall k, c <= k < c + N.of_nat fuel -> P k = true.
Proof.
  revert c. induction fuel as [|fuel IH]; intros c H k Hk; [lia|].
  cbn [holds_from] in H. apply andb_true_iff in H. destruct H as [Hc Hrest].
  destruct (N.eq_dec k c) as [->|Hne]; [exact Hc|].
  apply (IH (N.succ c) Hrest). lia.
Qed.

Lemma hex4_read_back_all : holds_from hex4_read_back 65536 0 = true.
Proof. vm_compute. reflexivity. Qed.

(** The four hex digits written for a BMP code point are read back as
    that code point. *)
Lemma decode_hex4_hex4 n :
  n < 65536 ->
  exists h1 h2 h3 h4,
    hex4 n = [h1; h2; h3; h4] /\ decode_hex4 h1 h2 h3 h4 = Some n.
Proof.
  intros Hn.
  assert (Hk : 0 <= n < 0 + N.of_nat 65536).
  { replace (N.of_nat 65536) with 65536 by (vm_compute; reflexivity). lia. }
  pose proof (holds_from_spec _ _ _ hex4_read_back_all n Hk) as H.
  clear Hk.
  unfold hex4_read_back in H. unfold hex4 in *.
  do 4 eexists. split; [reflexivity|].
  destruct (decode_hex4 _ _ _ _) as [u|]; [|discriminate].
  apply N.eqb_eq in H. now subst.
Qed.

(** [a << k | b] is [a * 2^k + b] when [b] fits in [k] bits. *)
Lemma lor_shiftl_small a b k :
  b < 2 ^ k -> N.lor (N.shiftl a k) b = a * 2 ^ k + b.
Proof.
  intros Hb.
  assert (Hland : N.land (N.shiftl a k) b = 0).
  { apply N.bits_inj_0. intros i. rewrite N.land_spec.
    destruct (N.lt_ge_cases i k) as [Hi|Hi].
    - now rewrite N.shiftl_spec_low.
    - rewrite <- (N.mod_small b (2 ^ k) Hb).
      rewrite N.mod_pow2_bits_high by exact Hi. apply andb_false_r. }
  rewrite <- N.lxor_lor by exact Hland.
  rewrite <- N.add_nocarry_lxor by exact Hland.
  now rewrite N.shiftl_mul_pow2.
Qed.

Lemma high_half_all : holds_from high_half_ok 1024 0 = true.
Proof. vm_compute. reflexivity. Qed.

Lemma low_half_all : holds_from low_half_ok 1024 0 = true.
Proof. vm_compute. reflexivity. Qed.

Lemma ten_bits n : N.land n 1023 = n mod 1024 /\ N.land n 1023 < 1024.
Proof.
  change 1023 with (N.ones 10). rewrite N.land_ones.
  change (2 ^ 10) with 1024. split; [reflexivity|].
  apply N.mod_lt. discriminate.
Qed.

(** The surrogate pair written for a code point above U+FFFF is read
    back as that code point. *)
Lemma escape_char_pair c :
  65536 <= c < 1114112 ->
  exists h1 h2 h3 h4 l1 l2 l3 l4 hi lo,
    escape_char c = [92; 117; h1; h2; h3; h4; 92; 117; l1; l2; l3; l4]
    /\ decode_hex4 h1 h2 h3 h4 = Some hi
    /\ decode_hex4 l1 l2 l3 l4 = Some lo
    /\ is_high_surrogate hi && is_low_surrogate lo = true
    /\ join_surrogates hi lo = c.
Proof.
  intros Hc. unfold escape_char.
  replace (c =? 92) with false by (symmetry; apply N.eqb_neq; lia).
  replace (c =? 34) with false by (symmetry; apply N.eqb_neq; lia).
  replace (c =? 8) with false by (symmetry; apply N.eqb_neq; lia).
  replace (c =? 12) with false by (symmetry; apply N.eqb_neq; lia).
  replace (c =? 10) with false by (symmetry; apply N.eqb_neq; lia).
  replace (c =? 13) with false by (symmetry; apply N.eqb_neq; lia).
  replace (c =? 9) with false by (symmetry; apply N.eqb_neq; lia).
  replace ((32 <=? c) && (c <=? 126)) with false
    by (symmetry; apply andb_false_iff; right; apply N.leb_gt; lia).
  replace (c <? 65536) with false by (symmetry; apply N.ltb_ge; lia).
  cbv zeta.
  set (n := c - 65536).
  assert (Hn : n < 1048576) by (subst n; lia).
  destruct (ten_bits (N.shiftr n 10)) as [Ex Hx].
  destruct (ten_bits n) as [Ey Hy].
  set (x := N.land (N.shiftr n 10) 1023) in *.
  set (y := N.land n 1023) in *.
  assert (Hkx : 0 <= x < 0 + N.of_nat 1024)
    by (change (N.of_nat 1024) with 1024; lia).
  assert (Hky : 0 <= y < 0 + N.of_nat 1024)
    by (change (N.of_nat 1024) with 1024; lia).
  pose proof (holds_from_spec _ _ _ high_half_all x Hkx) as H1.
  pose proof (holds_from_spec _ _ _ low_half_all y Hky) as H2.
  clear Hkx Hky. unfold high_half_ok, low_half_ok in H1, H2.
  cbv zeta in H1, H2.
  apply andb_true_iff in H1. destruct H1 as [H1 Hlx].
  apply andb_true_iff in H1. destruct H1 as [Hhi Hbx].
  apply andb_true_iff in H2. destruct H2 as [H2 Hly].
  apply andb_true_iff in H2. destruct H2 as [Hlo Hby].
  apply N.ltb_lt in Hbx, Hby. apply N.eqb_eq in Hlx, Hly.
  destruct (decode_hex4_hex4 _ Hbx) as (h1 & h2 & h3 & h4 & -> & Hd1).
  destruct (decode_hex4_hex4 _ Hby) as (l1 & l2 & l3 & l4 & -> & Hd2).
  exists h1, h2, h3, h4, l1, l2, l3, l4, (N.lor 55296 x), (N.lor 56320 y).
  split; [reflexivity|]. split; [exact Hd1|]. split; [exact Hd2|].
  split; [now rewrite Hhi, Hlo|].
  unfold join_surrogates. rewrite Hlx, Hly.
  rewrite (lor_shiftl_small x y 10) by exact Hy.
  change (2 ^ 10) with 1024.
  assert (Hxv : x = n / 1024).
  { rewrite Ex. rewrite N.shiftr_div_pow2. change (2 ^ 10) with 1024.
    apply N.mod_small. apply N.Div0.div_lt_upper_bound. lia. }
  pose proof (N.div_mod n 1024 ltac:(discriminate)) as Hdm.
  rewrite <- Hxv, <- Ey in Hdm. subst n. lia.
Qed.

Lemma scanstring_hex_not_high begin h1 h2 h3 h4 u s3 :
  decode_hex4 h1 h2 h3 h4 = Some u ->
  is_high_surrogate u = false ->
  s3 <> [] ->
  scanstring begin (92 :: 117 :: h1 :: h2 :: h3 :: h4 :: s3) =
  scan_map (cons u) (scanstring begin s3).
Proof.
  intros Hu Hh Hne. cbn [scanstring].
  change (92 =? 34) with false. change (92 =? 92) with true.
  change (117 =? 117) with true. cbv iota.
  destruct s3 as [|b s3]; [congruence|]. rewrite Hu, Hh.
  now destruct s3 as [|u' [|l1 [|l2 [|l3 [|l4 [|c7 s4]]]]]].
Qed.

(** An encoded string of scalar values is scanned back to itself. *)
Lemma scanstring_encode_string_exact s :
  forallb scalar s = true ->
  forall begin rest,
    scanstring begin (flat_map escape_char s ++ 34 :: rest) = Scanned s rest.
Proof.
  induction s as [|c s IH]; intros Hs begin rest; [reflexivity|].
  cbn [forallb] in Hs. apply andb_true_iff in Hs. destruct Hs as [Hc Hs].
  specialize (IH Hs begin rest).
  assert (Hne : flat_map escape_char s ++ 34 :: rest <> [])
    by (destruct (flat_map escape_char s); discriminate).
  cbn [flat_map]. rewrite <- app_assoc.
  assert (Hletter : forall e, e <> 117 -> unescape e = Some c ->
            scanstring begin ([92; e] ++ flat_map escape_char s ++ 34 :: rest)
            = Scanned (c :: s) rest).
  { intros e He Hu. cbn [app]. rewrite (scanstring_letter _ _ _ _ He Hu).
    now rewrite IH. }
  destruct (N.lt_ge_cases c 65536) as [Hbmp|Hastral].
  2:{ assert (Hr : 65536 <= c < 1114112).
      { unfold scalar in Hc. apply orb_true_iff in Hc.
        destruct Hc as [Hc|Hc]; cmp; lia. }
      destruct (escape_char_pair c Hr)
        as (h1 & h2 & h3 & h4 & l1 & l2 & l3 & l4 & hi & lo
            & -> & Hhi & Hlo & Hsur & Hj).
      cbn [app]. rewrite (scanstring_hex_pair begin _ _ _ _ _ _ _ _ _ _ _
                            Hhi Hlo Hne).
      now rewrite Hsur, IH, Hj. }
  unfold escape_char at 1.
  destruct (c =? 92) eqn:E1; [cmp; subst; now apply Hletter|].
  destruct (c =? 34) eqn:E2; [cmp; subst; now apply Hletter|].
  destruct (c =? 8) eqn:E3; [cmp; subst; now apply Hletter|].
  destruct (c =? 12) eqn:E4; [cmp; subst; now apply Hletter|].
  destruct (c =? 10) eqn:E5; [cmp; subst; now apply Hletter|].
  destruct (c =? 13) eqn:E6; [cmp; subst; now apply Hletter|].
  destruct (c =? 9) eqn:E7; [cmp; subst; now apply Hletter|].
  destruct ((32 <=? c) && (c <=? 126)) eqn:E8.
  - cmp. cbn [app]. rewrite scanstring_plain by (assumption || lia).
    now rewrite IH.
  - replace (c <? 65536) with true by (symmetry; now apply N.ltb_lt).
    destruct (decode_hex4_hex4 c Hbmp) as (h1 & h2 & h3 & h4 & -> & Hd).
    cbn [app]. rewrite (scanstring_hex_not_high _ _ _ _ _ _ _ Hd); auto.
    + now rewrite IH.
    + unfold scalar, is_high_surrogate in *.
      apply orb_true_iff in Hc. destruct Hc as [Hc|Hc]; cmp.
      * apply andb_false_iff. left. apply N.leb_gt. lia.
      * apply andb_false_iff. right. apply N.leb_gt. lia.
Qed.

(** *** Dicts *)

Lemma dict_set_fresh (acc : list (pystr * value F)) k v :
  key_in k acc = false -> dict_set acc k v = acc ++ [(k, v)].
Proof.
  induction acc as [|[k' v'] acc IH]; cbn [dict_set key_in existsb fst app];
    [reflexivity|].
  intros H. apply orb_false_iff in H. destruct H as [Hk Hacc].
  rewrite Hk. now rewrite (IH Hacc).
Qed.

Lemma key_in_app k (d1 d2 : list (pystr * value F)) :
  key_in k (d1 ++ d2) = key_in k d1 || key_in k d2.
Proof. unfold key_in. apply existsb_app. Qed.

Lemma pystr_eqb_sym a b : pystr_eqb a b = pystr_eqb b a.
Proof.
  destruct (pystr_eqb_spec a b) as [->|Hne].
  - now rewrite pystr_eqb_refl.
  - destruct (pystr_eqb_spec b a) as [->|_]; [congruence|reflexivity].
Qed.

Lemma distinct_keys_fresh (acc : list (pystr * value F)) k x d :
  distinct_keys (acc ++ (k, x) :: d) = true -> key_in k acc = false.
Proof.
  induction acc as [|[k' v'] acc IH]; [reflexivity|].
  cbn [app distinct_keys]. intros H. apply andb_true_iff in H.
  destruct H as [Hk Hrest]. apply negb_true_iff in Hk.
  rewrite key_in_app in Hk. apply orb_false_iff in Hk. destruct Hk as [_ Hk].
  cbn [key_in existsb fst] in Hk. apply orb_false_iff in Hk.
  destruct Hk as [Hk _].
  cbn [key_in existsb fst]. fold (key_in k acc).
  rewrite (IH Hrest), orb_false_r. now rewrite pystr_eqb_sym.
Qed.

Lemma plain_dict (d : list (pystr * value F)) :
  plain (VDict d) = true ->
  distinct_keys d = true
  /\ forall k y, In (k, y) d -> forallb scalar k = true /\ plain y = true.
Proof.
  cbn [plain]. intros H. apply andb_true_iff in H. destruct H as [Hd Hp].
  split; [exact Hd|]. clear Hd.
  induction d as [|[k' x] d IH]; [intros k y []|].
  apply andb_true_iff in Hp. destruct Hp as [Hp Hrest].
  apply andb_true_iff in Hp. destruct Hp as [Hk Hx].
  intros k y [E|Hin]; [inversion E; subst; now split|]. now apply IH.
Qed.

(** *** Values *)

Lemma json_dumps_head_plain (v : value F) :
  plain v = true ->
  exists c t, json_dumps v = c :: t
              /\ is_ws c = false /\ c <> 93 /\ c <> 125 /\ c <> 65279.
Proof.
  destruct v as [|[|]|z|f|s|[|x l]|[|[k x] d]]; intros Hp;
    try discriminate;
    try (eexists; eexists; split;
         [reflexivity|repeat split; discriminate]).
  destruct (match_number_head _ _ (match_number_str_of_Z z))
    as (c & r' & E & [Hd | [-> _]]).
  - exists c, r'. cbn [json_dumps]. rewrite E. unfold is_digit in Hd. cmp.
    repeat split; try lia. unfold is_ws.
    repeat (apply orb_false_iff; split); apply N.eqb_neq; lia.
  - exists 45, r'. cbn [json_dumps]. rewrite E.
    repeat split; discriminate.
Qed.

Lemma skip_ws_json_dumps_plain (v : value F) t :
  plain v = true -> skip_ws (json_dumps v ++ t) = json_dumps v ++ t.
Proof.
  intros Hp. destruct (json_dumps_head_plain v Hp) as (c & t0 & -> & Hw & _).
  cbn [app]. now apply skip_ws_keep.
Qed.

Lemma parse_array_loop_exact scan_elem (l : list (value F)) :
  forall x fuel rest,
    (List.length l < fuel)%nat ->
    (forall y, In y (x :: l) -> reads_back scan_elem y /\ plain y = true) ->
    parse_array_loop scan_elem fuel (json_dumps x ++ dumps_items l ++ rest) =
    Scanned (x :: l) rest.
Proof.
  induction l as [|y l IH]; intros x fuel rest Hfuel Hall;
    (destruct fuel as [|fuel]; [simpl in Hfuel; lia|]);
    cbn [parse_array_loop dumps_items app].
  - rewrite (proj1 (Hall x (or_introl eq_refl)) (93 :: rest) eq_refl).
    rewrite skip_ws_keep by reflexivity.
    change (93 =? 93) with true. reflexivity.
  - rewrite <- app_assoc.
    rewrite (proj1 (Hall x (or_introl eq_refl))
               (44 :: 32 :: json_dumps y ++ dumps_items l ++ rest) eq_refl).
    rewrite skip_ws_keep by reflexivity.
    change (44 =? 93) with false. change (44 =? 44) with true. cbv iota.
    rewrite skip_ws_space.
    rewrite skip_ws_json_dumps_plain
      by (apply (Hall y); right; now left).
    rewrite IH; [reflexivity|simpl in Hfuel; lia|].
    intros z Hz. apply Hall. now right.
Qed.

Lemma parse_object_loop_exact scan_elem (d : list (pystr * value F)) :
  forall k x acc fuel rest,
    (List.length d < fuel)%nat ->
    (forall k' y, In (k', y) ((k, x) :: d) ->
       reads_back scan_elem y /\ plain y = true
       /\ forallb scalar k' = true) ->
    distinct_keys (acc ++ (k, x) :: d) = true ->
    parse_object_loop scan_elem fuel
      (encode_string k ++ 58 :: 32 :: json_dumps x ++ dumps_pairs d ++ rest)
      acc =
    Scanned (acc ++ (k, x) :: d) rest.
Proof.
  induction d as [|[k' y] d IH]; intros k x acc fuel rest Hfuel Hall Hdist;
    (destruct fuel as [|fuel]; [simpl in Hfuel; lia|]);
    destruct (Hall k x (or_introl eq_refl)) as (Hx & Hpx & Hk);
    rewrite encode_string_app; cbn [parse_object_loop dumps_pairs];
    repeat (progress cbn [app] || rewrite <- app_assoc);
    change (34 =? 34) with true; cbv iota;
    rewrite (scanstring_encode_string_exact k Hk);
    rewrite skip_ws_keep by reflexivity;
    change (58 =? 58) with true; cbv iota;
    rewrite skip_ws_space, (skip_ws_json_dumps_plain x _ Hpx);
    rewrite Hx by reflexivity;
    rewrite skip_ws_keep by reflexivity;
    rewrite (dict_set_fresh acc k x (distinct_keys_fresh acc k x _ Hdist)).
  - change (125 =? 125) with true. reflexivity.
  - change (44 =? 125) with false. change (44 =? 44) with true. cbv iota.
    rewrite skip_ws_space, (encode_string_app k').
    rewrite skip_ws_keep by reflexivity.
    rewrite <- (encode_string_app k').
    rewrite IH.
    + now rewrite <- app_assoc.
    + simpl in Hfuel; lia.
    + intros k2 z Hz. apply (Hall k2 z). now right.
    + now rewrite <- app_assoc.
Qed.

(** The scanner reads a serialised plain value back as that value. *)
Lemma scan_once_json_dumps_exact constants (v : value F) :
  plain v = true ->
  forall fuel rest,
    (List.length (json_dumps v) <= fuel)%nat ->
    follows rest = true ->
    scan_once constants fuel (json_dumps v ++ rest) = Scanned v rest.
Proof.
  pattern v.
  apply value_rect' with
    (Pl := fun l => forall y, In y l ->
             plain y = true ->
             forall fuel rest,
               (List.length (json_dumps y) <= fuel)%nat ->
               follows rest = true ->
               scan_once constants fuel (json_dumps y ++ rest) =
               Scanned y rest)
    (Pd := fun d => forall k y, In (k, y) d ->
             plain y = true ->
             forall fuel rest,
               (List.length (json_dumps y) <= fuel)%nat ->
               follows rest = true ->
               scan_once constants fuel (json_dumps y ++ rest) =
               Scanned y rest);
    clear v.
  - intros _ [|fuel] rest Hfuel _; [simpl in Hfuel; lia|]. reflexivity.
  - intros [|] _ [|fuel] rest Hfuel _; try (simpl in Hfuel; lia);
      reflexivity.
  - intros z Hp [|fuel] rest Hfuel Hf.
    + destruct (json_dumps_head_plain (VInt z) Hp) as (c & t & E & _).
      rewrite E in Hfuel. simpl in Hfuel. lia.
    + cbn [json_dumps].
      rewrite (scan_once_number constants fuel _ _ _ rest
                 (match_number_str_of_Z z) Hf).
      now rewrite number_value_str_of_Z.
  - intros f Hp. discriminate.
  - intros s Hp [|fuel] rest Hfuel _; [simpl in Hfuel; lia|].
    cbn [json_dumps]. rewrite encode_string_app, scan_once_string.
    now rewrite (scanstring_encode_string_exact s Hp).
  - intros [|x l] Hl Hp [|fuel] rest Hfuel Hf;
      try (simpl in Hfuel; lia).
    + reflexivity.
    + rewrite json_dumps_list in *. cbn [app]. rewrite scan_once_array.
      rewrite <- app_assoc.
      cbn [List.length] in Hfuel. rewrite length_app in Hfuel.
      destruct (dumps_items_length l) as [Hlen Hels].
      cbn [plain] in Hp.
      assert (Hall : forall y, In y (x :: l) ->
                reads_back (scan_once constants fuel) y /\ plain y = true).
      { intros y Hy.
        pose proof (proj1 (forallb_forall _ _) Hp y Hy) as Hpy.
        split; [|exact Hpy]. intros rest' Hf'.
        apply (Hl y Hy Hpy); [|exact Hf'].
        destruct Hy as [->|Hy]; [lia|]. specialize (Hels y Hy). lia. }
      rewrite parse_array_nonempty.
      * rewrite parse_array_loop_exact;
          [reflexivity|rewrite !length_app; lia|exact Hall].
      * destruct (json_dumps_head_plain x (proj2 (Hall x (or_introl eq_refl))))
          as (c & t & E & Hw & H93 & _).
        exists c, (t ++ dumps_items l ++ rest). rewrite E. auto.
  - intros [|[k x] d] Hd Hp [|fuel] rest Hfuel Hf;
      try (simpl in Hfuel; lia).
    + reflexivity.
    + destruct (plain_dict _ Hp) as [Hdist Hkeys].
      rewrite json_dumps_dict in *. cbn [app]. rewrite scan_once_object.
      repeat (progress cbn [app] || rewrite <- app_assoc).
      cbn [List.length] in Hfuel. rewrite !length_app in Hfuel.
      cbn [List.length] in Hfuel. rewrite length_app in Hfuel.
      destruct (dumps_pairs_length d) as [Hlen Hels].
      assert (Hall : forall k' y, In (k', y) ((k, x) :: d) ->
                reads_back (scan_once constants fuel) y /\ plain y = true
                /\ forallb scalar k' = true).
      { intros k' y Hy. destruct (Hkeys k' y Hy) as [Hk' Hpy].
        split; [|now split]. intros rest' Hf'.
        apply (Hd k' y Hy Hpy); [|exact Hf'].
        destruct Hy as [E|Hy]; [inversion E; subst; lia|].
        specialize (Hels k' y Hy). lia. }
      rewrite parse_object_nonempty.
      * rewrite (parse_object_loop_exact _ d k x []);
          [reflexivity
          |rewrite !length_app; cbn [List.length]; rewrite !length_app; lia
          |exact Hall|exact Hdist].
      * rewrite encode_string_app. eexists; eexists.
        split; [reflexivity|split; [reflexivity|discriminate]].
  - intros y [].
  - intros x l Hx Hl y [->|Hy]; [exact Hx|now apply Hl].
  - intros k y [].
  - intros k x d Hx Hd k' y [E|Hy]; [inversion E; subst; exact Hx|].
    now apply (Hd k' y).
Qed.

(** [json.loads(json.dumps(v))] is [v] for every plain value. *)
Lemma json_loads_json_dumps (v : value F) :
  plain v = true -> json_loads (json_dumps v) = Ret v.
Proof.
  intros Hp. unfold json_loads, decode.
  destruct (json_dumps_head_plain v Hp) as (c & t & E & Hw & _ & _ & Hbom).
  pose proof (skip_ws_json_dumps_plain v [] Hp) as Hs.
  pose proof (scan_once_json_dumps_exact true v Hp
                (S (List.length (json_dumps v))) [] ltac:(lia) eq_refl) as Hv.
  rewrite app_nil_r in Hs, Hv. rewrite Hs, Hv.
  rewrite E.
  now replace (c =? 65279) with false by (symmetry; now apply N.eqb_neq).
Qed.
End RoundTrip.

Section Properties.

Context {F : Type} {fops : FloatOps F} {digits : Digits}.
Variable co_chat : pystr -> res F pystr.

Local Open Scope py_scope.

Lemma logged_logged (w : world F) l1 l2 :
  logged (logged w l1) l2 = logged w (l1 ++ l2).
Proof. unfold logged; simpl. now rewrite <- app_assoc. Qed.

(** ** The response handler *)

(** [json.loads] raises nothing but [JSONDecodeError] and, past the
    recursion guard, [RecursionError]. *)
Lemma decode_raises constants doc (e : pyexc F) :
  decode constants doc = Raise e ->
  is_JSONDecodeError e = true \/ e = RecursionError.
Proof.
  unfold decode. destruct (scan_once _ _ _) as [v r|m r|].
  - destruct (skip_ws r); intros H; inversion H; subst; auto.
  - intros H; inversion H; subst; auto.
  - intros H; inversion H; subst; auto.
Qed.

Lemma json_loads_raises doc (e : pyexc F) :
  json_loads doc = Raise e ->
  is_JSONDecodeError e = true \/ e = RecursionError.
Proof.
  unfold json_loads.
  destruct (match doc with c :: _ => c =? 65279 | [] => false end).
  - intros H; inversion H; subst; auto.
  - apply decode_raises.
Qed.

(** The second handler: an ordinary error of the upstream call. *)
Lemma generate_questions_upstream_failure
    (topic difficulty : pystr) (n : Z) (w : world F) (e : pyexc F) :
  co_chat (prompt_of topic difficulty n) = Raise e ->
  is_Exception e = true -> is_JSONDecodeError e = false ->
  generate_questions co_chat topic difficulty n w =
  (Ret (VList []),
   logged w [[FStr (lit "Error calling Cohere API: "); FExc e]]).
Proof.
  intros Hc He Hj. unfold generate_questions. rewrite Hc, Hj, He.
  reflexivity.
Qed.

(** The handlers on a text that [json.loads] rejects. *)
Lemma generate_questions_parse_failure
    (topic difficulty : pystr) (n : Z) (w : world F)
    (text : pystr) (e : pyexc F) :
  co_chat (prompt_of topic difficulty n) = Ret text ->
  json_loads text = Raise e ->
  generate_questions co_chat topic difficulty n w =
  (Ret (VList []),
   logged w
     (if is_JSONDecodeError e then
        [[FStr (lit "Error parsing JSON from Cohere output: "); FExc e];
         [FStr (lit "Raw response: "); FStr text]]
      else [[FStr (lit "Error calling Cohere API: "); FExc e]])).
Proof.
  intros Hc Hl. unfold generate_questions. rewrite Hc, Hl.
  destruct (json_loads_raises _ _ Hl) as [He | ->].
  - rewrite He. unfold bind, print_err, ret, logged; simpl.
    now rewrite <- app_assoc.
  - reflexivity.
Qed.

(** C1.  When the upstream call fails with an ordinary error,
    [generate_questions] returns the empty list and writes one line, the
    generic message, to standard error; when the returned text does not
    parse, it returns the empty list and writes two lines, the parse error
    and the raw text, if the parser raised [JSONDecodeError], and the
    generic message for any other [Exception] of the parser.  Nothing is
    raised to the caller and nothing else in the world changes. *)
Theorem generate_questions_failure_returns_empty
    (topic difficulty : pystr) (n : Z) (w : world F) :
  (forall e,
      co_chat (prompt_of topic difficulty n) = Raise e ->
      is_Exception e = true -> is_JSONDecodeError e = false ->
      generate_questions co_chat topic difficulty n w =
      (Ret (VList []),
       logged w [[FStr (lit "Error calling Cohere API: "); FExc e]]))
  /\
  (forall text e,
      co_chat (prompt_of topic difficulty n) = Ret text ->
      json_loads text = Raise e ->
      generate_questions co_chat topic difficulty n w =
      (Ret (VList []),
       logged w
         (if is_JSONDecodeError e then
            [[FStr (lit "Error parsing JSON from Cohere output: "); FExc e];
             [FStr (lit "Raw response: "); FStr text]]
          else [[FStr (lit "Error calling Cohere API: "); FExc e]]))).
Proof.
  split.
  - intros e. apply generate_questions_upstream_failure.
  - intros text e. apply generate_questions_parse_failure.
Qed.

(** What the script does not guard against: were the client itself to
    raise [JSONDecodeError], the first handler would read the local
    [response] before it is bound. *)
Lemma generate_questions_decode_error_from_client
    (topic difficulty : pystr) (n : Z) (w : world F) (e : pyexc F) :
  co_chat (prompt_of topic difficulty n) = Raise e ->
  is_JSONDecodeError e = true ->
  generate_questions co_chat topic difficulty n w =
  (Raise (UnboundLocalError (lit "response")),
   logged w [[FStr (lit "Error parsing JSON from Cohere output: "); FExc e]]).
Proof.
  intros Hc He. unfold generate_questions. rewrite Hc, He. reflexivity.
Qed.


(** ** The usage counter *)

(** *** The decimal text of an integer is read back by [int()] *)

Lemma lstrip_keep c s : is_space c = false -> lstrip (c :: s) = c :: s.
Proof. intros H. cbn [lstrip]. now rewrite H. Qed.

Lemma strip_no_space s :
  forallb (fun c => negb (is_space c)) s = true -> strip s = s.
Proof.
  intros H. unfold strip, rstrip.
  assert (Hl : forall t, forallb (fun c => negb (is_space c)) t = true ->
                         lstrip t = t).
  { intros [|c t] Ht; [reflexivity|]. cbn [forallb] in Ht.
    apply andb_true_iff in Ht. destruct Ht as [Hc _].
    apply negb_true_iff in Hc. now apply lstrip_keep. }
  rewrite (Hl s H), Hl, rev_involutive; [reflexivity|].
  apply forallb_forall. intros c Hc. apply in_rev in Hc.
  exact (proj1 (forallb_forall _ _) H c Hc).
Qed.

Lemma digit_not_space c : is_digit c = true -> negb (is_space c) = true.
Proof.
  unfold is_digit. intros H. apply andb_true_iff in H. destruct H as [H1 H2].
  apply N.leb_le in H1, H2. apply negb_true_iff. unfold is_space.
  repeat (apply orb_false_iff; split);
    try (apply N.eqb_neq; lia);
    apply andb_false_iff;
    first [ left; apply N.leb_gt; lia | right; apply N.leb_gt; lia ].
Qed.

Lemma int_digits_all ds :
  all_digits ds = true ->
  forall after acc,
    ds <> [] \/ after = true ->
    int_digits ds after acc = Some (fold_left add_digit ds acc).
Proof.
  induction ds as [|c ds IH]; intros Hds after acc Hne.
  - destruct Hne as [Hne | ->]; [congruence|reflexivity].
  - cbn [all_digits forallb] in Hds. apply andb_true_iff in Hds.
    destruct Hds as [Hc Hds]. cbn [int_digits fold_left].
    assert (Hb : 48 <= c <= 57).
    { unfold is_digit in Hc. apply andb_true_iff in Hc.
      destruct Hc as [H1 H2]. apply N.leb_le in H1, H2. lia. }
    replace (c =? 95) with false by (symmetry; apply N.eqb_neq; lia).
    rewrite decimal_ascii by lia. rewrite Hc.
    apply (IH Hds). now right.
Qed.

Lemma all_digits_str_of_N n : all_digits (str_of_N n) = true.
Proof.
  destruct (N.eq_dec n 0) as [->|Hn]; [reflexivity|].
  destruct (str_of_N_shape n Hn) as (d & ds & -> & Hd & Hds).
  cbn [all_digits forallb]. fold (all_digits ds). rewrite Hds.
  unfold is_digit. rewrite andb_true_r.
  apply andb_true_iff; split; apply N.leb_le; lia.
Qed.

Lemma str_of_N_nonempty n : str_of_N n <> [].
Proof.
  destruct (N.eq_dec n 0) as [->|Hn]; [discriminate|].
  destruct (str_of_N_shape n Hn) as (d & ds & -> & _). discriminate.
Qed.

Lemma strip_str_of_Z z :
  strip (str_of_Z z) = str_of_Z z /\ str_of_Z z <> [].
Proof.
  assert (Hn : forall n,
            forallb (fun c => negb (is_space c)) (str_of_N n) = true).
  { intros n. apply forallb_forall. intros c Hc. apply digit_not_space.
    exact (proj1 (forallb_forall _ _) (all_digits_str_of_N n) c Hc). }
  destruct z as [|p|p]; cbn [str_of_Z].
  - split; [now apply strip_no_space|apply str_of_N_nonempty].
  - split; [now apply strip_no_space|apply str_of_N_nonempty].
  - split; [|discriminate]. apply strip_no_space.
    cbn [forallb]. now rewrite Hn.
Qed.

Lemma py_int_str_of_Z z : py_int (str_of_Z z) = Some z.
Proof.
  unfold py_int. rewrite (proj1 (strip_str_of_Z z)).
  assert (Hn : forall n, int_digits (str_of_N n) false 0 = Some n).
  { intros n.
    rewrite (int_digits_all _ (all_digits_str_of_N n) false 0)
      by (left; apply str_of_N_nonempty).
    f_equal. exact (N_of_digits_str_of_N n). }
  assert (Hhead : forall n, exists d ds,
            str_of_N n = d :: ds /\ d <> 45 /\ d <> 43).
  { intros n. pose proof (all_digits_str_of_N n) as Hall.
    destruct (str_of_N n) as [|d ds] eqn:E;
      [now destruct (str_of_N_nonempty n)|].
    exists d, ds. split; [reflexivity|].
    cbn [all_digits forallb] in Hall. apply andb_true_iff in Hall.
    destruct Hall as [Hd _]. unfold is_digit in Hd.
    apply andb_true_iff in Hd. destruct Hd as [H1 H2].
    apply N.leb_le in H1, H2. split; lia. }
  assert (Hpos : forall n,
            match str_of_N n with
            | [] => None
            | c :: ds =>
                if c =? 45
                then option_map (fun n => (- Z.of_N n)%Z) (int_digits ds false 0)
                else if c =? 43 then option_map Z.of_N (int_digits ds false 0)
                     else option_map Z.of_N (int_digits (c :: ds) false 0)
            end = Some (Z.of_N n)).
  { intros n. pose proof (Hn n) as Hv.
    destruct (Hhead n) as (d & ds & E & H45 & H43). rewrite E in *.
    replace (d =? 45) with false by (symmetry; now apply N.eqb_neq).
    replace (d =? 43) with false by (symmetry; now apply N.eqb_neq).
    now rewrite Hv. }
  destruct z as [|p|p]; cbn [str_of_Z].
  - exact (Hpos 0).
  - exact (Hpos (N.pos p)).
  - change (45 =? 45) with true. cbv iota. now rewrite Hn.
Qed.

Lemma log_api_usage_times_spec (n : nat) (w : world F) (c : Z) :
  usage_count w = Some c ->
  log_api_usage_times n w =
  (Ret tt,
   {| stdin := stdin w; stdout := stdout w; stderr := stderr w;
      usage_file := match n with
                    | O => usage_file w
                    | S _ => Some (str_of_Z (c + Z.of_nat n))
                    end;
      usage_count := Some (c + Z.of_nat n)%Z |}).
Proof.
  revert w c. induction n as [|n IH]; intros w c Hc.
  - simpl. unfold ret. rewrite Z.add_0_r, <- Hc. now destruct w.
  - cbn [log_api_usage_times]. unfold bind at 1, log_api_usage at 1.
    rewrite Hc. rewrite (IH _ (c + 1)%Z) by reflexivity.
    cbn [stdin stdout stderr usage_file usage_count].
    replace (c + 1 + Z.of_nat n)%Z with (c + Z.of_nat (S n))%Z by lia.
    destruct n; [|reflexivity].
    now replace (c + Z.of_nat 1)%Z with (c + 1)%Z by lia.
Qed.

(** C7.  With the file absent, or present with nothing but whitespace in
    it, loading the module sets the counter to 0; every call of
    [log_api_usage] adds one to the counter and rewrites the file with
    the new value; so after [N >= 1] calls from an absent file the file
    holds the decimal text of [N]; and a file holding the decimal text of
    [N] sets the counter to [N] when the module is loaded again. *)
Theorem usage_counter_counts_calls (keys : list input_event) :
  read_usage_count (boot (F:=F) keys None) =
    (Ret tt, {| stdin := keys; stdout := []; stderr := [];
                usage_file := None; usage_count := Some 0%Z |})
  /\ (forall content, strip content = [] ->
        read_usage_count (boot (F:=F) keys (Some content)) =
          (Ret tt, {| stdin := keys; stdout := []; stderr := [];
                      usage_file := Some content; usage_count := Some 0%Z |}))
  /\ (forall (w : world F) c, usage_count w = Some c ->
        log_api_usage w =
          (Ret tt, {| stdin := stdin w; stdout := stdout w; stderr := stderr w;
                      usage_file := Some (str_of_Z (c + 1));
                      usage_count := Some (c + 1)%Z |}))
  /\ (forall N : nat,
        (read_usage_count ;; log_api_usage_times (S N)) (boot (F:=F) keys None) =
          (Ret tt, {| stdin := keys; stdout := []; stderr := [];
                      usage_file := Some (str_of_Z (Z.of_nat (S N)));
                      usage_count := Some (Z.of_nat (S N)) |}))
  /\ (forall N : nat,
        read_usage_count (boot (F:=F) keys (Some (str_of_Z (Z.of_nat N)))) =
          (Ret tt, {| stdin := keys; stdout := []; stderr := [];
                      usage_file := Some (str_of_Z (Z.of_nat N));
                      usage_count := Some (Z.of_nat N) |})).
Proof.
  repeat split.
  - intros content Hs. unfold read_usage_count, boot; simpl. now rewrite Hs.
  - intros w c Hc. unfold log_api_usage. now rewrite Hc.
  - intros N. unfold bind at 1. unfold read_usage_count at 1, boot; simpl usage_file; cbv iota.
    rewrite (log_api_usage_times_spec (S N) _ 0%Z) by reflexivity.
    reflexivity.
  - intros N. unfold read_usage_count, boot. cbn [usage_file stdin stdout stderr].
    destruct (strip_str_of_Z (Z.of_nat N)) as [Hs Hne]. rewrite Hs.
    destruct (str_of_Z (Z.of_nat N)) as [|c t] eqn:E; [congruence|].
    rewrite <- E, py_int_str_of_Z. reflexivity.
Qed.

(** C8.  A counter file whose stripped content is not empty and is not an
    integer stops the script while the module is loading: [ValueError]
    reaches the top level, the process exits with status 1, and nothing
    was read, printed or called before. *)
Theorem corrupt_usage_file_stops_the_script
    (a : args) (keys : list input_event) (content : pystr) :
  strip content <> [] ->
  py_int (strip content) = None ->
  script co_chat a (boot keys (Some content)) =
    (Raise (ValueError (strip content)), boot keys (Some content))
  /\ run co_chat a keys (Some content) =
       (Exited 1, boot keys (Some content)).
Proof.
  intros Hne Hint.
  assert (H : script co_chat a (boot keys (Some content)) =
              (Raise (ValueError (strip content)), boot keys (Some content))).
  { unfold script, bind, read_usage_count; simpl usage_file; cbv iota.
    destruct (strip content) as [|c t] eqn:Hs; [congruence|].
    rewrite Hint. reflexivity. }
  split; [exact H|]. unfold run. rewrite H. reflexivity.
Qed.
(** ** The counter file is never written *)

Lemma keeps_ret A (a : A) : keeps_file (F := F) (ret a).
Proof. now intros w. Qed.

Lemma keeps_raise A e : keeps_file (F := F) (raise (A:=A) e).
Proof. now intros w. Qed.

Lemma keeps_lift A (r : res F A) : keeps_file (lift r).
Proof. now intros w. Qed.

Lemma keeps_print line : keeps_file (F := F) (print line).
Proof. now intros w. Qed.

Lemma keeps_print_err line : keeps_file (F := F) (print_err line).
Proof. now intros w. Qed.

Lemma keeps_input p : keeps_file (F := F) (input p).
Proof. intros w. unfold input. now destruct (stdin w) as [|[s|] rest]. Qed.

Lemma keeps_int s : keeps_file (F := F) (int s).
Proof. intros w. unfold int. now destruct (py_int s). Qed.

Lemma keeps_bind A B (m : M F A) (k : A -> M F B) :
  keeps_file m -> (forall a, keeps_file (k a)) -> keeps_file (bind m k).
Proof.
  intros Hm Hk w. unfold bind. specialize (Hm w).
  destruct (m w) as [[a|e] w']; simpl in *; [|exact Hm].
  now rewrite Hk.
Qed.

Lemma keeps_try A (body : M F A) classes handler :
  keeps_file body -> (forall e, keeps_file (handler e)) ->
  keeps_file (try_except body classes handler).
Proof.
  intros Hb Hh w. unfold try_except. specialize (Hb w).
  destruct (body w) as [[a|e] w']; simpl in *; [exact Hb|].
  destruct (classes e); simpl; [|exact Hb]. now rewrite Hh.
Qed.

Lemma keeps_if A (b : bool) (m1 m2 : M F A) :
  keeps_file m1 -> keeps_file m2 -> keeps_file (if b then m1 else m2).
Proof. now destruct b. Qed.

Create HintDb frame.
#[local] Hint Resolve keeps_ret keeps_raise keeps_lift keeps_print
  keeps_print_err keeps_input keeps_int keeps_if : frame.
#[local] Hint Extern 2 (keeps_file (bind _ _)) =>
  apply keeps_bind; [|intros ?] : frame.
#[local] Hint Extern 2 (keeps_file (try_except _ _ _)) =>
  apply keeps_try; [|intros ?] : frame.

Lemma keeps_generate_questions topic difficulty n :
  keeps_file (generate_questions co_chat topic difficulty n).
Proof.
  unfold generate_questions.
  destruct (co_chat _) as [text|e]; [destruct (json_loads text) as [v|e]|];
    auto 7 with frame.
Qed.

Lemma keeps_print_choices items idx : keeps_file (F := F) (print_choices idx items).
Proof.
  revert idx; induction items as [|c items IH]; intros idx; simpl;
    auto with frame.
Qed.

#[local] Hint Resolve keeps_generate_questions keeps_print_choices : frame.

Lemma keeps_first_try q : keeps_file (F := F) (first_try q).
Proof.
  unfold first_try. apply keeps_try; [|auto with frame].
  apply keeps_bind; [auto with frame|intros s].
  apply keeps_bind; [auto with frame|intros user_input].
  apply keeps_bind; [|auto with frame].
  apply keeps_if; [|auto with frame].
  repeat (apply keeps_bind; [auto with frame|intros ?]).
  destruct a3; auto with frame.
Qed.

Lemma keeps_after_first_try q : keeps_file (F := F) (after_first_try q).
Proof.
  unfold after_first_try.
  repeat (apply keeps_bind; [auto 7 with frame|intros ?]).
  destruct a2 as [user_input|]; [|auto with frame].
  apply keeps_bind; [auto with frame|intros ai].
  apply keeps_bind; [|auto 6 with frame].
  apply keeps_if; auto 7 with frame.
Qed.

#[local] Hint Resolve keeps_first_try keeps_after_first_try : frame.

Lemma keeps_loop_body i q : keeps_file (F := F) (loop_body i q).
Proof.
  unfold loop_body.
  repeat (apply keeps_bind; [auto with frame|intros ?]).
  destruct a4; auto with frame.
Qed.

Lemma keeps_quiz_loop qs i : keeps_file (F := F) (quiz_loop i qs).
Proof.
  revert i; induction qs as [|q qs IH]; intros i; simpl; [auto with frame|].
  apply keeps_bind; [apply keeps_loop_body|intros [|]]; auto with frame.
Qed.

Lemma keeps_main a : keeps_file (F := F) (main co_chat a).
Proof.
  unfold main. destruct (arg_mode a).
  - auto with frame.
  - apply keeps_bind; [auto with frame|intros questions].
    apply keeps_if; [auto with frame|].
    apply keeps_bind; [auto with frame|intros items]. apply keeps_quiz_loop.
Qed.

Lemma keeps_read_usage_count : keeps_file (F := F) read_usage_count.
Proof.
  intros w. unfold read_usage_count.
  destruct (usage_file w) as [content|] eqn:E; [|reflexivity].
  destruct (strip content) as [|c t]; [reflexivity|].
  destruct (py_int (c :: t)); [reflexivity|exact E].
Qed.

(** C10.  Whatever the arguments, the keystrokes, the upstream answer and
    the file's initial state, the counter file after the run is the file
    before it: the script reads it and never calls [log_api_usage]. *)
Theorem script_never_writes_usage_file
    (a : args) (keys : list input_event) (file : option pystr) :
  usage_file (snd (run co_chat a keys file)) = file
  /\ forall w, usage_file (snd (script co_chat a w)) = usage_file w.
Proof.
  assert (H : keeps_file (script co_chat a)).
  { unfold script. apply keeps_bind; [apply keeps_read_usage_count|].
    intros _. apply keeps_main. }
  split; [|exact H].
  unfold run. specialize (H (boot keys file)).
  destruct (script co_chat a (boot keys file)) as [r w]. exact H.
Qed.

(** ** Presentation of a question without its keys *)

(** C9.  A question object without the key ["question"] makes the loop
    body raise [KeyError] before anything is printed or read; one with it
    but without ["choices"] raises [KeyError] right after the question
    line.  Neither is inside a [try], so the loop and [main] pass the
    error on, and the process exits with status 1 when the faulty object
    is the first of the parsed list. *)
Theorem missing_key_raises_unhandled_KeyError
    (i : Z) (d : list (pystr * value F)) (rest : list (value F))
    (w : world F) :
  let q := VDict d in
  (dict_get d (lit "question") = None ->
     let e := KeyError (VStr (lit "question")) in
     loop_body i q w = (Raise e, w)
     /\ quiz_loop i (q :: rest) w = (Raise e, w)
     /\ forall a text,
          arg_mode a = Interactive ->
          co_chat (prompt_of (topic a) (difficulty a) (count a)) = Ret text ->
          json_loads text = Ret (VList (q :: rest)) ->
          main co_chat a w = (Raise e, w) /\ exit_of (Raise e) = Exited 1)
  /\
  (forall text,
     dict_get d (lit "question") = Some text ->
     dict_get d (lit "choices") = None ->
     let e := KeyError (VStr (lit "choices")) in
     let w' := printed w [Print [FStr (10 :: lit "Q"); FStr (str_of_Z i);
                                 FStr (lit ": "); FVal text]] in
     loop_body i q w = (Raise e, w')
     /\ quiz_loop i (q :: rest) w = (Raise e, w')).
Proof.
  split.
  - intros Hq. cbv zeta.
    assert (Hb : forall j, loop_body j (VDict d) w =
                 (Raise (KeyError (VStr (lit "question"))), w)).
    { intros j. unfold loop_body, bind, lift. cbn [py_getitem].
      now rewrite Hq. }
    assert (Hl : forall j, quiz_loop j (VDict d :: rest) w =
                 (Raise (KeyError (VStr (lit "question"))), w)).
    { intros j. cbn [quiz_loop]. unfold bind at 1. now rewrite Hb. }
    repeat split; auto.
    unfold main. rewrite H. unfold bind at 1, generate_questions.
    rewrite H0, H1. unfold ret at 1. cbn [py_truthy negb].
    unfold bind at 1, lift at 1. cbn [py_iter]. apply Hl.
  - intros text Hq Hc. cbv zeta.
    assert (Hb : loop_body i (VDict d) w =
                 (Raise (KeyError (VStr (lit "choices"))),
                  printed w [Print [FStr (10 :: lit "Q"); FStr (str_of_Z i);
                                    FStr (lit ": "); FVal text]])).
    { unfold loop_body, bind, lift, print. cbn [py_getitem].
      now rewrite Hq, Hc. }
    split; [exact Hb|].
    cbn [quiz_loop]. unfold bind at 1. now rewrite Hb.
Qed.

(** The same for ["answer_index"], which the first [try] statement looks
    up once the answer is in range: its handlers do not cover
    [KeyError]. *)
Lemma missing_answer_index_escapes_try
    (d : list (pystr * value F)) (s : pystr) (z : Z)
    (keys : list input_event) (w : world F) :
  dict_get d (lit "answer_index") = None ->
  stdin w = Line s :: keys ->
  py_int s = Some z -> (0 <= z <= 3)%Z ->
  fst (first_try (VDict d) w) = Raise (KeyError (VStr (lit "answer_index"))).
Proof.
  intros Hd Hin Hs Hz. unfold first_try, try_except, bind at 1, input.
  rewrite Hin. unfold bind at 1, int. rewrite Hs. unfold ret at 1.
  replace ((0 <=? z)%Z && (z <=? 3)%Z) with true
    by (symmetry; apply andb_true_iff; split; apply Z.leb_le; lia).
  unfold bind at 1. unfold bind at 1, lift at 1. cbn [py_getitem].
  rewrite Hd. reflexivity.
Qed.

(** ** Every integer answer leads into lines 101-114 *)

Lemma bind_lift {A B} (r : res F A) (k : A -> M F B) w :
  bind (lift r) k w =
  match r with Ret a => k a w | Raise e => (Raise e, w) end.
Proof. unfold bind, lift. now destruct r. Qed.

Lemma bind_print {B} line (k : unit -> M F B) w :
  bind (print line) k w = k tt (printed w [Print line]).
Proof. reflexivity. Qed.

Lemma py_getitem_raises (c k : value F) e :
  py_getitem c k = Raise e -> lookup_error e.
Proof.
  assert (Hseq : forall A (x : option A) (f : A -> value F),
            match x with Some v => Ret (f v) | None => Raise IndexError end =
            Raise e -> lookup_error e).
  { intros A [v|] f H; inversion H; subst; now split. }
  unfold py_getitem, lookup_error.
  destruct c as [|b|z|f|s|l|d]; try (intros H; inversion H; subst; now split).
  - destruct k as [|b|z|f|s'|l'|d']; cbv beta iota zeta;
      try (intros H; inversion H; subst; now split);
      apply (Hseq _ _ (fun ch => VStr [ch])).
  - destruct k as [|b|z|f|s'|l'|d']; cbv beta iota zeta;
      try (intros H; inversion H; subst; now split);
      apply (Hseq _ _ (fun v => v)).
  - destruct k as [|b|z|f|s'|l'|d'];
      try (intros H; inversion H; subst; now split).
    destruct (dict_get d s'); intros H; inversion H; subst; now split.
Qed.

Lemma py_contains_raises k (c : value F) e :
  py_contains k c = Raise e -> lookup_error e.
Proof.
  unfold py_contains, lookup_error.
  destruct c; intros H; inversion H; subst; now split.
Qed.

Lemma print_choices_returns items :
  forall idx (w : world F),
    exists out, print_choices idx items w = (Ret tt, printed w out).
Proof.
  induction items as [|c items IH]; intros idx w; cbn [print_choices].
  - exists []. unfold ret, printed. rewrite app_nil_r. now destruct w.
  - rewrite bind_print. destruct (IH (idx + 1)%Z (printed w
      [Print [FStr (lit "  "); FStr (str_of_Z idx); FStr (lit ". ");
              FVal c]])) as [out ->].
    eexists. unfold printed; cbn [stdin stdout stderr usage_file usage_count].
    rewrite <- app_assoc. reflexivity.
Qed.

Lemma try_except_ret {A} (body : M F A) classes handler w a w' :
  body w = (Ret a, w') -> try_except body classes handler w = (Ret a, w').
Proof. intros H. unfold try_except. now rewrite H. Qed.

Lemma try_except_pass {A} (body : M F A) classes handler w e w' :
  body w = (Raise e, w') -> classes e = false ->
  try_except body classes handler w = (Raise e, w').
Proof. intros H Hc. unfold try_except. now rewrite H, Hc. Qed.

(** The first [try] statement on an answer that [int()] rejects, or on a
    keyboard interrupt: the message, then [break]. *)
Lemma first_try_breaks (q : value F) (w : world F) :
  match stdin w with
  | Line s :: _ => py_int s = None
  | CtrlC :: _ => True
  | [] => False
  end ->
  first_try q w =
  (Ret Break,
   {| stdin := tl (stdin w);
      stdout := stdout w ++ [Prompt answer_prompt;
                             Print [FStr (10 :: lit "Quiz interrupted.")]];
      stderr := stderr w; usage_file := usage_file w;
      usage_count := usage_count w |}).
Proof.
  intros H. unfold first_try, try_except, bind at 1, input.
  destruct (stdin w) as [|[s|] keys]; [contradiction| |].
  - unfold bind at 1, int. rewrite H. unfold raise at 1.
    cbn [is_ValueError is_KeyboardInterrupt orb].
    unfold bind, print, ret. cbn [stdin stdout stderr usage_file usage_count tl].
    now rewrite <- app_assoc.
  - cbn [is_ValueError is_KeyboardInterrupt orb].
    unfold bind, print, ret. cbn [stdin stdout stderr usage_file usage_count tl].
    now rewrite <- app_assoc.
Qed.

(** The first [try] statement on an answer that [int()] accepts: it ends
    normally, with the answer consumed, or passes on a lookup error; it
    never breaks out of the loop. *)
Lemma first_try_integer (q : value F) (w : world F) s z keys :
  stdin w = Line s :: keys ->
  py_int s = Some z ->
  (exists w', first_try q w = (Ret Continue, w') /\ stdin w' = keys)
  \/ (exists e w', first_try q w = (Raise e, w')).
Proof.
  intros Hin Hs. unfold first_try.
  match goal with
  | |- context [try_except ?b ?c ?h] =>
      set (body := b); set (classes := c); set (handler := h)
  end.
  assert (Hbody : (exists w', body w = (Ret Continue, w') /\ stdin w' = keys)
                  \/ (exists e w', body w = (Raise e, w') /\ lookup_error e)).
  { destruct (body w) as [r w'] eqn:Hb. subst body.
    unfold bind at 1, input in Hb. rewrite Hin in Hb.
    unfold bind at 1, int in Hb. rewrite Hs in Hb. unfold ret at 1 in Hb.
    unfold bind at 1 in Hb.
    destruct ((0 <=? z)%Z && (z <=? 3)%Z).
    - rewrite bind_lift in Hb.
      destruct (py_getitem q (VStr (lit "answer_index"))) as [ai|e] eqn:E1.
      2:{ inversion Hb; subst. right. eauto using py_getitem_raises. }
      rewrite bind_lift in Hb.
      destruct (py_getitem q (VStr (lit "choices"))) as [ch|e] eqn:E2.
      2:{ inversion Hb; subst. right. eauto using py_getitem_raises. }
      rewrite bind_lift in Hb.
      rewrite bind_lift in Hb.
      destruct (py_getitem ch ai) as [ans|e] eqn:E3.
      2:{ inversion Hb; subst. right. eauto using py_getitem_raises. }
      rewrite bind_print in Hb. rewrite bind_lift in Hb.
      destruct (py_contains (lit "explanation") q) as [[|]|e] eqn:E4.
      3:{ inversion Hb; subst. right. eauto using py_contains_raises. }
      + rewrite bind_lift in Hb.
        destruct (py_getitem q (VStr (lit "explanation"))) as [ex|e] eqn:E5.
        2:{ inversion Hb; subst. right. eauto using py_getitem_raises. }
        inversion Hb; subst. left. eauto.
      + inversion Hb; subst. left. eauto.
    - inversion Hb; subst. left. eauto. }
  destruct Hbody as [(w' & Hb & Hw') | (e & w' & Hb & He1 & He2)].
  - left. exists w'. split; [|exact Hw'].
    now apply try_except_ret.
  - right. exists e, w'. apply try_except_pass; [exact Hb|].
    subst classes. cbv beta. now rewrite He1, He2.
Qed.

(** Lines 101-114 on an answer that [int()] accepts always end in an
    exception: a lookup error, or [NameError] at the last line. *)
Lemma after_first_try_integer_raises (q : value F) (w : world F) s z keys :
  stdin w = Line s :: keys ->
  py_int s = Some z ->
  exists e w', after_first_try q w = (Raise e, w').
Proof.
  intros Hin Hs. destruct (after_first_try q w) as [r w'] eqn:Hb.
  enough (exists e, r = Raise e) as [e ->] by eauto.
  unfold after_first_try in Hb.
  rewrite bind_lift in Hb.
  destruct (py_getitem q (VStr (lit "choices"))) as [ch|e];
    [|inversion Hb; eauto].
  rewrite bind_lift in Hb.
  destruct (py_iter ch) as [items|e]; [|inversion Hb; eauto].
  unfold bind at 1 in Hb.
  destruct (print_choices_returns items 0%Z w) as [out Hpc].
  rewrite Hpc in Hb.
  unfold bind at 1, try_except, bind at 1, input in Hb.
  cbn [printed stdin] in Hb. rewrite Hin in Hb.
  unfold bind at 1, int in Hb. rewrite Hs in Hb.
  unfold ret at 1 in Hb. cbv beta iota in Hb.
  unfold ret at 1 in Hb. cbv beta iota in Hb.
  rewrite bind_lift in Hb.
  destruct (py_getitem q (VStr (lit "answer_index"))) as [ai|e];
    [|inversion Hb; eauto].
  unfold bind at 1 in Hb.
  destruct (py_eq_int z ai).
  - unfold print at 1 in Hb. rewrite bind_lift in Hb.
    destruct (py_getitem q (VStr (lit "explanation"))) as [ex|e];
      inversion Hb; eauto.
  - rewrite bind_lift in Hb. rewrite bind_lift in Hb.
    destruct (py_getitem ch ai) as [ans|e]; [|inversion Hb; eauto].
    unfold print at 1 in Hb. rewrite bind_lift in Hb.
    destruct (py_getitem q (VStr (lit "explanation"))) as [ex|e];
      inversion Hb; eauto.
Qed.

(** With two integers next on standard input, the body of the loop ends
    in an exception for every question: the loop does not go on. *)
Lemma loop_body_two_integers_raises
    (i : Z) (q : value F) (w : world F) s1 z1 s2 z2 keys :
  stdin w = Line s1 :: Line s2 :: keys ->
  py_int s1 = Some z1 -> py_int s2 = Some z2 ->
  exists e w', loop_body i q w = (Raise e, w').
Proof.
  intros Hin H1 H2. destruct (loop_body i q w) as [r w'] eqn:Hb.
  enough (exists e, r = Raise e) as [e ->] by eauto.
  unfold loop_body in Hb.
  rewrite bind_lift in Hb.
  destruct (py_getitem q (VStr (lit "question"))) as [text|e];
    [|inversion Hb; eauto].
  rewrite bind_print in Hb. rewrite bind_lift in Hb.
  destruct (py_getitem q (VStr (lit "choices"))) as [ch|e];
    [|inversion Hb; eauto].
  rewrite bind_lift in Hb.
  destruct (py_iter ch) as [items|e]; [|inversion Hb; eauto].
  unfold bind at 1 in Hb.
  match type of Hb with
  | context [print_choices ?i ?l ?u] =>
      destruct (print_choices_returns l i u) as [out Hpc]; rewrite Hpc in Hb
  end.
  unfold bind at 1 in Hb.
  match type of Hb with
  | context [first_try q ?u] =>
      destruct (first_try_integer q u s1 z1 (Line s2 :: keys) Hin H1) as
        [(u' & Hf & Hu') | (e & u' & Hf)]; rewrite Hf in Hb
  end.
  - destruct (after_first_try_integer_raises q u' s2 z2 keys Hu' H2)
      as (e & u'' & Ha).
    rewrite Ha in Hb. inversion Hb; eauto.
  - inversion Hb; eauto.
Qed.

(** ** Exit status *)

Lemma read_usage_count_ok keys file :
  readable_counter file = true ->
  exists c, read_usage_count (boot (F:=F) keys file) =
            (Ret tt, {| stdin := keys; stdout := []; stderr := [];
                        usage_file := file; usage_count := Some c |}).
Proof.
  unfold readable_counter, read_usage_count, boot; simpl.
  destruct file as [content|]; [|now exists 0%Z].
  destruct (strip content) as [|c t]; [now exists 0%Z|].
  destruct (py_int (c :: t)) as [z|]; [now exists z|discriminate].
Qed.

(** Under a service outcome [generate_questions] returns a value: the
    parsed one, or the empty list after logging. *)
Lemma generate_questions_returns topic difficulty n (w : world F) :
  service_outcome (co_chat (prompt_of topic difficulty n)) ->
  exists v lines,
    generate_questions co_chat topic difficulty n w = (Ret v, logged w lines)
    /\ ((exists text, co_chat (prompt_of topic difficulty n) = Ret text
                      /\ json_loads text = Ret v)
        \/ v = VList []).
Proof.
  intros Hs.
  pose proof (fun e => generate_questions_upstream_failure
                         topic difficulty n w e) as Hfail.
  pose proof (fun text e => generate_questions_parse_failure
                              topic difficulty n w text e) as Hparse.
  destruct (co_chat (prompt_of topic difficulty n)) as [text|e] eqn:Hc.
  - destruct (json_loads text) as [v|e] eqn:Hl.
    + exists v, []. split; [|left; eauto].
      unfold generate_questions. rewrite Hc, Hl. unfold ret, logged.
      rewrite app_nil_r. now destruct w.
    + eexists; eexists; split; [apply (Hparse text e eq_refl Hl)|now right].
  - destruct Hs as [He Hj].
    eexists; eexists; split; [apply (Hfail e eq_refl He Hj)|now right].
Qed.

(** In mode [json] the script prints one line, [json.dumps] of what
    [generate_questions] returned, and ends normally. *)
Lemma main_json a (w : world F) :
  arg_mode a = Json ->
  service_outcome (co_chat (prompt_of (topic a) (difficulty a) (count a))) ->
  exists v lines,
    generate_questions co_chat (topic a) (difficulty a) (count a) w =
      (Ret v, logged w lines)
    /\ main co_chat a w =
         (Ret tt, printed (logged w lines) [Print [FStr (json_dumps v)]]).
Proof.
  intros Hm Hs.
  destruct (generate_questions_returns (topic a) (difficulty a) (count a) w Hs)
    as (v & lines & Hg & _).
  exists v, lines. split; [exact Hg|].
  unfold main. rewrite Hm. unfold bind. now rewrite Hg.
Qed.

Lemma run_script a keys file c r w :
  read_usage_count (boot (F:=F) keys file) = (Ret tt, c) ->
  main co_chat a c = (r, w) ->
  run co_chat a keys file = (exit_of r, w).
Proof.
  intros Hr Hm. unfold run, script, bind. now rewrite Hr, Hm.
Qed.

(** C3, as the script has it.  In mode [json], with a service outcome
    upstream, the script prints exactly one line, [json.dumps] of the
    value [generate_questions] returned, after whatever that call logged
    to standard error.  The line is valid JSON whenever the value holds
    no [NaN], [Infinity] or [-Infinity]; and it is [[]] when the value is
    the empty list. *)
Theorem json_mode_prints_json_dumps (a : args) (w : world F) :
  arg_mode a = Json ->
  service_outcome (co_chat (prompt_of (topic a) (difficulty a) (count a))) ->
  (forall x : F, is_json_number (float_repr x) = true) ->
  exists v lines,
    generate_questions co_chat (topic a) (difficulty a) (count a) w =
      (Ret v, logged w lines)
    /\ main co_chat a w =
         (Ret tt, printed (logged w lines) [Print [FStr (json_dumps v)]])
    /\ (finite_floats v = true -> valid_json (json_dumps v) = true)
    /\ (v = VList [] -> json_dumps v = lit "[]").
Proof.
  intros Hm Hs Hrepr.
  destruct (main_json a w Hm Hs) as (v & lines & Hg & Hmain).
  exists v, lines. repeat split; try assumption.
  - apply valid_json_json_dumps. exact Hrepr.
  - intros ->. reflexivity.
Qed.


End Properties.

(* ================================================================== *)
(** * Runs on concrete inputs *)
(* ================================================================== *)

Example loads_two_questions :
  json_loads two_questions = Ret (VList [question_Q; question_R]).
Proof. vm_compute. reflexivity. Qed.

Lemma generate_questions_failure_witness :
  generate_questions (fun _ => unreachable (lit "503"))
    (lit "HTML Basics") (lit "beginner") 1 (boot [] None) =
  (Ret (VList []),
   logged (boot [] None)
     [[FStr (lit "Error calling Cohere API: ");
       FExc (ServiceError (lit "503"))]])
  /\
  generate_questions (fun _ => answers (lit "Sorry, no."))
    (lit "HTML Basics") (lit "beginner") 1 (boot [] None) =
  (Ret (VList []),
   logged (boot [] None)
     [[FStr (lit "Error parsing JSON from Cohere output: ");
       FExc (JSONDecodeError (lit "Expecting value") (lit "Sorry, no.") 0)];
      [FStr (lit "Raw response: "); FStr (lit "Sorry, no.")]]).
Proof.
  split.
  - apply (proj1 (generate_questions_failure_returns_empty
                    (fun _ => unreachable (lit "503"))
                    (lit "HTML Basics") (lit "beginner") 1 (boot [] None)));
      reflexivity.
  - apply (proj2 (generate_questions_failure_returns_empty
                    (fun _ => answers (lit "Sorry, no."))
                    (lit "HTML Basics") (lit "beginner") 1 (boot [] None))
             (lit "Sorry, no.")
             (JSONDecodeError (lit "Expecting value") (lit "Sorry, no.") 0));
      reflexivity.
Defined.


Lemma corrupt_usage_file_witness :
  script (fun _ => answers one_question) (default_args Json)
    (boot [] (Some (lit "12a"))) =
    (Raise (ValueError (lit "12a")), boot [] (Some (lit "12a")))
  /\ run (fun _ => answers one_question) (default_args Json) []
       (Some (lit "12a")) =
     (Exited 1, boot [] (Some (lit "12a"))).
Proof.
  apply (corrupt_usage_file_stops_the_script
           (fun _ => answers one_question) (default_args Json) []
           (lit "12a")).
  - discriminate.
  - reflexivity.
Defined.

Lemma missing_key_witness :
  let d := [(lit "text", VStr (lit "Q"));
            (lit "choices", VList [VStr (lit "A"); VStr (lit "B");
                                   VStr (lit "C"); VStr (lit "D")]);
            (lit "answer_index", VInt 1)] in
  let e := KeyError (VStr (lit "question")) in
  json_loads no_question_key = Ret (VList [VDict d])
  /\ main (fun _ => answers no_question_key) (default_args Interactive)
       (boot [Line (lit "1")] None) = (Raise e, boot [Line (lit "1")] None)
  /\ exit_of (Raise e) = Exited 1.
Proof.
  cbv zeta. split; [vm_compute; reflexivity|].
  destruct (proj1 (missing_key_raises_unhandled_KeyError
                     (fun _ => answers no_question_key) 1
                     [(lit "text", VStr (lit "Q"));
                      (lit "choices", VList [VStr (lit "A"); VStr (lit "B");
                                             VStr (lit "C"); VStr (lit "D")]);
                      (lit "answer_index", VInt 1)] []
                     (boot [Line (lit "1")] None)) eq_refl) as (_ & _ & H).
  apply (H (default_args Interactive) no_question_key).
  - reflexivity.
  - reflexivity.
  - vm_compute. reflexivity.
Defined.



(** ** Mode [json] *)

(** C3 as written does not hold: [json.loads] reads the name [NaN], and
    [json.dumps] writes it back; the line printed is not JSON. *)
Lemma json_mode_prints_NaN :
  run (fun _ => answers (lit "[NaN]")) (default_args Json) [] None =
    (Exited 0,
     {| stdin := []; stdout := [Print [FStr (lit "[NaN]")]]; stderr := [];
        usage_file := None; usage_count := Some 0%Z |})
  /\ valid_json (fops := no_fractions) (lit "[NaN]") = false.
Proof. vm_compute. split; reflexivity. Qed.

Lemma json_mode_prints_json_dumps_witness :
  exists v lines,
    generate_questions (fun _ => answers one_question)
      (lit "HTML Basics") (lit "beginner") 1 (boot [] None) =
      (Ret v, logged (boot [] None) lines)
    /\ main (fun _ => answers one_question) (default_args Json)
         (boot [] None) =
         (Ret tt, printed (logged (boot [] None) lines)
                    [Print [FStr (json_dumps v)]])
    /\ (finite_floats v = true -> valid_json (json_dumps v) = true)
    /\ (v = VList [] -> json_dumps v = lit "[]").
Proof.
  apply (json_mode_prints_json_dumps (fun _ => answers one_question)
           (default_args Json) (boot [] None) eq_refl I).
  intros [].
Defined.

(** The line printed for the one-question reply, and the empty array
    after a reply that is not JSON. *)
Example json_mode_one_question :
  stdout (snd (run (fun _ => answers one_question) (default_args Json)
                 [] None)) =
  [Print [FStr (qlit "[{'question': 'Q', 'choices': ['A', 'B', 'C', 'D'], 'answer_index': 1, 'explanation': 'E'}]")]].
Proof. vm_compute. reflexivity. Qed.

Example json_mode_not_json :
  stdout (snd (run (fun _ => answers (lit "Sorry, no.")) (default_args Json)
                 [] None)) = [Print [FStr (lit "[]")]].
Proof. vm_compute. reflexivity. Qed.

(** ** The code after the first [try] statement *)

(** C4 at a concrete run: two questions, the answers [7] and then [0].
    After the warning for [7] the script does not go to the second
    question: it lists the choices of the first question again, asks
    again, judges the second answer, and stops on [NameError] with exit
    status 1; question [R] is never shown. *)
Theorem out_of_range_answer_is_asked_again :
  let r := script (fun _ => answers two_questions) (default_args Interactive)
             (boot [Line (lit "7"); Line (lit "0")] None) in
  fst r = Raise (NameError (lit "update_ability"))
  /\ exit_of (fst r) = Exited 1
  /\ stdin (snd r) = []
  /\ stdout (snd r) =
       question_line (lit "1") (lit "Q") :: choice_lines ++
       [Prompt answer_prompt;
        Print [FStr (lit "Invalid input. Please enter 0-3.")]] ++
       choice_lines ++
       [Prompt answer_prompt;
        Print [FStr msg_wrong; FVal (VStr (lit "B"))];
        Print [FStr (lit "Explanation: "); FVal (VStr (lit "E"))]].
Proof. vm_compute. repeat split. Qed.

(** C5 at a concrete run: one question, the answer [1] given twice.  The
    second listing of the choices, the second prompt, the second verdict
    and the call of [update_ability] are all executed; the last one
    raises [NameError]. *)
Theorem duplicate_block_is_executed :
  let r := script (fun _ => answers one_question) (default_args Interactive)
             (boot [Line (lit "1"); Line (lit "1")] None) in
  fst r = Raise (NameError (lit "update_ability"))
  /\ stdin (snd r) = []
  /\ stdout (snd r) =
       question_line (lit "1") (lit "Q") :: choice_lines ++
       [Prompt answer_prompt;
        Print [FStr msg_correct];
        Print [FStr (lit "Explanation: "); FVal (VStr (lit "E"))]] ++
       choice_lines ++
       [Prompt answer_prompt;
        Print [FStr msg_correct];
        Print [FStr (lit "Explanation: "); FVal (VStr (lit "E"))]].
Proof. vm_compute. repeat split. Qed.

(** Mode [interactive] with a non-empty list and two readable answers
    ends with exit status 1, by the same [NameError]. *)
Example interactive_two_answers_exit_1 :
  fst (run (fun _ => answers one_question) (default_args Interactive)
         [Line (lit "1"); Line (lit "2")] None) = Exited 1.
Proof. vm_compute. reflexivity. Qed.

(* ================================================================== *)
(** * Further properties *)
(* ================================================================== *)

Section Whitespace.

Context {F : Type} {fops : FloatOps F}.

#[local] Arguments is_digit : simpl never.
#[local] Arguments is_ws : simpl never.

(** ** What follows a value does not change how it is read *)

(** *** Numbers *)

Lemma terminator_cases c :
  terminator c = true ->
  c = 32 \/ c = 9 \/ c = 10 \/ c = 13 \/ c = 44 \/ c = 93 \/ c = 125.
Proof.
  unfold terminator, is_ws. intros H.
  repeat (apply orb_true_iff in H; destruct H as [H|H]);
    apply N.eqb_eq in H; subst; auto 10.
Qed.

Lemma ended_app r post : r <> [] -> ended (r ++ post) = ended r.
Proof. now destruct r. Qed.

Lemma ended_no_digit x : ended x = true -> no_digit_head x.
Proof.
  destruct x as [|c x]; [easy|]. cbn [ended no_digit_head]. intros H.
  destruct (terminator_cases c H) as [->|[->|[->|[->|[->|[->| ->]]]]]];
    reflexivity.
Qed.

Lemma ended_match_frac x : ended x = true -> match_frac x = None.
Proof.
  destruct x as [|c [|c2 x]]; try reflexivity. cbn [ended match_frac].
  intros H.
  destruct (terminator_cases c H) as [->|[->|[->|[->|[->|[->| ->]]]]]];
    reflexivity.
Qed.

Lemma ended_match_exp x : ended x = true -> match_exp x = None.
Proof.
  destruct x as [|c x]; try reflexivity. cbn [ended match_exp].
  intros H.
  destruct (terminator_cases c H) as [->|[->|[->|[->|[->|[->| ->]]]]]];
    reflexivity.
Qed.

Lemma ended_rest r post :
  ended (r ++ post) = true -> r <> [] \/ no_digit_head post.
Proof.
  destruct r as [|c r]; [|left; discriminate].
  intros H. right. now apply ended_no_digit.
Qed.

Lemma match_exp_head s ep r :
  match_exp s = Some (ep, r) ->
  exists e s1, s = e :: s1 /\ (e =? 46) = false.
Proof.
  destruct s as [|e s1]; [discriminate|]. cbn [match_exp].
  destruct ((e =? 101) || (e =? 69)) eqn:E; [|discriminate].
  intros _. exists e, s1. split; [reflexivity|].
  apply orb_true_iff in E. destruct E as [E|E]; apply N.eqb_eq in E;
    now subst.
Qed.

Lemma match_frac_other e s1 :
  (e =? 46) = false -> match_frac (e :: s1) = None.
Proof. intros H. destruct s1 as [|c s1]; cbn [match_frac]; now rewrite ?H. Qed.

Lemma match_parts_ext s ip fp ep r post :
  match_parts s = Some (ip, fp, ep, r) ->
  ended (r ++ post) = true ->
  match_parts (s ++ post) = Some (ip, fp, ep, r ++ post).
Proof.
  unfold match_parts.
  destruct (match_int_part s) as [[ip' s1]|] eqn:Ei; [|discriminate].
  destruct (match_frac s1) as [[fp' s2]|] eqn:Efr.
  - assert (Hs1 : s1 <> []) by (destruct s1; discriminate).
    rewrite (match_int_part_app _ _ _ post Ei (or_introl Hs1)).
    destruct (match_exp s2) as [[ep' s3]|] eqn:Ee;
      intros H He; inversion H; subst.
    + assert (Hs2 : s2 <> []) by (destruct s2; discriminate).
      rewrite (match_frac_app _ _ _ post Efr (or_introl Hs2)).
      now rewrite (match_exp_app _ _ _ post Ee (ended_rest _ _ He)).
    + rewrite (match_frac_app _ _ _ post Efr (ended_rest _ _ He)).
      now rewrite (ended_match_exp _ He).
  - destruct (match_exp s1) as [[ep' s3]|] eqn:Ee;
      intros H He; inversion H; subst.
    + assert (Hs1 : s1 <> []) by (destruct s1; discriminate).
      rewrite (match_int_part_app _ _ _ post Ei (or_introl Hs1)).
      destruct (match_exp_head _ _ _ Ee) as (e & s1' & -> & He46).
      cbn [app]. rewrite (match_frac_other _ _ He46).
      change (e :: s1' ++ post) with ((e :: s1') ++ post).
      now rewrite (match_exp_app _ _ _ post Ee (ended_rest _ _ He)).
    + rewrite (match_int_part_app _ _ _ post Ei (ended_rest _ _ He)).
      now rewrite (ended_match_frac _ He), (ended_match_exp _ He).
Qed.

Lemma match_number_ext s t fl r post :
  match_number s = Some (t, fl, r) ->
  ended (r ++ post) = true ->
  match_number (s ++ post) = Some (t, fl, r ++ post).
Proof.
  unfold match_number. destruct s as [|c s]; [discriminate|].
  cbn [app]. destruct (c =? 45).
  - destruct (match_parts s) as [[[[ip fp] ep] s3]|] eqn:E; [|discriminate].
    intros H He. inversion H; subst.
    now rewrite (match_parts_ext _ _ _ _ _ post E He).
  - destruct (match_parts (c :: s)) as [[[[ip fp] ep] s3]|] eqn:E;
      [|discriminate].
    intros H He. inversion H; subst.
    change (c :: s ++ post) with ((c :: s) ++ post).
    now rewrite (match_parts_ext _ _ _ _ _ post E He).
Qed.


(** *** Strings *)

Lemma scan_map_inv {A B} (f : A -> B) (r : scan A) y rest :
  scan_map f r = Scanned y rest -> exists a, r = Scanned a rest /\ y = f a.
Proof. destruct r; intros H; inversion H; subst; eauto. Qed.

(** What the string scanner accepts is escaped text up to a quote. *)
Lemma scanstring_sound n :
  forall s, (List.length s <= n)%nat ->
  forall begin x r,
    scanstring begin s = Scanned x r ->
    exists t, s = t ++ 34 :: r /\ esc_text t.
Proof.
  induction n as [|n IH]; intros s Hn begin x r H.
  - destruct s; [discriminate|cbn in Hn; lia].
  - destruct s as [|c s1]; [discriminate|]. cbn [List.length] in Hn.
    assert (Hrec : forall s' u x' r',
              (List.length s' <= n)%nat ->
              scan_map (cons u) (scanstring begin s') = Scanned x' r' ->
              exists t, s' = t ++ 34 :: r' /\ esc_text t).
    { intros s' u x' r' Hl Hs. apply scan_map_inv in Hs.
      destruct Hs as (a & Hs & _). exact (IH s' Hl begin a r' Hs). }
    cbn [scanstring] in H.
    destruct (c =? 34) eqn:E34.
    { inversion H; subst. apply N.eqb_eq in E34; subst.
      exists []. split; [reflexivity|constructor]. }
    destruct (c =? 92) eqn:E92.
    2:{ destruct (c <=? 31) eqn:E31; [discriminate|].
        assert (Hl : (List.length s1 <= n)%nat) by lia.
        destruct (Hrec _ _ _ _ Hl H) as (t & -> & Ht).
        exists (c :: t). split; [reflexivity|].
        cmp. apply esc_plain; [lia|assumption|assumption|exact Ht]. }
    apply N.eqb_eq in E92; subst c.
    destruct s1 as [|e s2]; [discriminate|]. cbn [List.length] in Hn.
    destruct (e =? 117) eqn:E117.
    2:{ destruct (unescape e) as [ch|] eqn:Hun; [|discriminate].
        assert (Hl : (List.length s2 <= n)%nat) by lia.
        destruct (Hrec _ _ _ _ Hl H) as (t & -> & Ht).
        exists (92 :: e :: t). split; [reflexivity|].
        cmp. now apply (esc_letter e ch). }
    apply N.eqb_eq in E117; subst e.
    destruct s2 as [|h1 [|h2 [|h3 [|h4 [|c5 s3]]]]]; try discriminate.
    cbn [List.length] in Hn.
    destruct (decode_hex4 h1 h2 h3 h4) as [u|] eqn:Hu; [|discriminate].
    assert (Halone :
              scan_map (cons u) (scanstring begin (c5 :: s3)) = Scanned x r ->
              exists t, 92 :: 117 :: h1 :: h2 :: h3 :: h4 :: c5 :: s3 =
                        t ++ 34 :: r /\ esc_text t).
    { intros Hs.
      assert (Hl : (List.length (c5 :: s3) <= n)%nat)
        by (cbn [List.length]; lia).
      destruct (Hrec _ _ _ _ Hl Hs) as (t & Et & Ht).
      exists (92 :: 117 :: h1 :: h2 :: h3 :: h4 :: t).
      split; [cbn [app]; now rewrite Et|].
      now apply (esc_hex h1 h2 h3 h4 u). }
    destruct s3 as [|u' [|l1 [|l2 [|l3 [|l4 [|c7 s4]]]]]];
      try (now apply Halone).
    cbn [List.length] in Hn.
    destruct (is_high_surrogate u && (c5 =? 92) && (u' =? 117)) eqn:Ec;
      [|now apply Halone].
    destruct (decode_hex4 l1 l2 l3 l4) as [u2|] eqn:Hu2; [|discriminate].
    destruct (is_low_surrogate u2); [|now apply Halone].
    apply andb_true_iff in Ec. destruct Ec as [Ec E2].
    apply andb_true_iff in Ec. destruct Ec as [_ E1].
    apply N.eqb_eq in E1, E2. subst c5 u'.
    assert (Hl : (List.length (c7 :: s4) <= n)%nat)
      by (cbn [List.length]; lia).
    destruct (Hrec _ _ _ _ Hl H) as (t & Et & Ht).
    exists (92 :: 117 :: h1 :: h2 :: h3 :: h4
              :: 92 :: 117 :: l1 :: l2 :: l3 :: l4 :: t).
    split; [cbn [app]; now rewrite Et|].
    apply (esc_hex h1 h2 h3 h4 u); [exact Hu|].
    now apply (esc_hex l1 l2 l3 l4 u2).
Qed.

(** The string read from escaped text depends on that text only. *)
Lemma scanstring_value n t :
  (List.length t <= n)%nat -> esc_text t ->
  exists x, forall begin rest,
    scanstring begin (t ++ 34 :: rest) = Scanned x rest.
Proof.
  revert t. induction n as [|n IH]; intros t Hn Ht.
  - destruct t; [|simpl in Hn; lia]. exists []. reflexivity.
  - destruct Ht as [|c t H1 H2 H3 Ht|e ch t H1 H2 Ht|h1 h2 h3 h4 u t Hu Ht].
    + exists []. reflexivity.
    + assert (Hl : (List.length t <= n)%nat) by (simpl in Hn; lia).
      destruct (IH t Hl Ht) as [x Hx].
      exists (c :: x). intros begin rest. cbn [app].
      now rewrite (scanstring_plain _ _ _ H1 H2 H3), Hx.
    + assert (Hl : (List.length t <= n)%nat) by (simpl in Hn; lia).
      destruct (IH t Hl Ht) as [x Hx].
      exists (ch :: x). intros begin rest. cbn [app].
      now rewrite (scanstring_letter _ _ _ _ H1 H2), Hx.
    + assert (Hl : (List.length t <= n)%nat) by (simpl in Hn; lia).
      destruct (IH t Hl Ht) as [x Hx].
      assert (Hstep : forall begin rest,
                match t ++ 34 :: rest with
                | b :: u' :: _ => (b =? 92) && (u' =? 117) = false
                | _ => True
                end ->
                scanstring begin
                  ((92 :: 117 :: h1 :: h2 :: h3 :: h4 :: t) ++ 34 :: rest) =
                Scanned (u :: x) rest).
      { intros begin rest Hc. cbn [app].
        rewrite (scanstring_hex_alone _ _ _ _ _ _ _ Hu);
          [now rewrite Hx|destruct t; discriminate|exact Hc]. }
      destruct Ht as [|c t H1 H2 H3 Ht|e ch t H1 H2 Ht
                     |l1 l2 l3 l4 u2 t Hu2 Ht].
      * exists (u :: x). intros begin rest. apply Hstep.
        cbn [app]. now destruct rest.
      * exists (u :: x). intros begin rest. apply Hstep. cbn [app].
        replace (c =? 92) with false by (symmetry; now apply N.eqb_neq).
        now destruct (t ++ 34 :: rest).
      * exists (u :: x). intros begin rest. apply Hstep. cbn [app].
        replace (e =? 117) with false by (symmetry; now apply N.eqb_neq).
        apply andb_false_r.
      * assert (Hl4 : (List.length t <= n)%nat) by (simpl in Hn; lia).
        destruct (IH t Hl4 Ht) as [x4 Hx4].
        exists (if is_high_surrogate u && is_low_surrogate u2
                then join_surrogates u u2 :: x4 else u :: x).
        intros begin rest. cbn [app] in *.
        rewrite (scanstring_hex_pair begin _ _ _ _ _ _ _ _ _ _ _ Hu Hu2)
          by (destruct t; discriminate).
        destruct (is_high_surrogate u && is_low_surrogate u2).
        -- now rewrite Hx4.
        -- now rewrite Hx.
Qed.

(** A string is scanned the same way whatever follows the text. *)
Lemma scanstring_ext begin s x r :
  scanstring begin s = Scanned x r ->
  forall begin' post,
    scanstring begin' (s ++ post) = Scanned x (r ++ post).
Proof.
  intros H begin' post.
  destruct (scanstring_sound _ s (le_n _) begin x r H) as (t & -> & Ht).
  destruct (scanstring_value _ t (le_n _) Ht) as [x0 Hx0].
  rewrite Hx0 in H. inversion H; subst x0.
  rewrite <- app_assoc. cbn [app]. apply Hx0.
Qed.


(** *** Whitespace between the tokens *)

Lemma skip_ws_app r c r' post :
  skip_ws r = c :: r' -> skip_ws (r ++ post) = c :: r' ++ post.
Proof.
  induction r as [|a r IH]; [discriminate|]. cbn [skip_ws app].
  destruct (is_ws a); [exact IH|]. intros H. inversion H; subst. reflexivity.
Qed.

Lemma skip_ws_app_keep r post :
  skip_ws r <> [] -> skip_ws (r ++ post) = skip_ws r ++ post.
Proof.
  intros H. destruct (skip_ws r) as [|c r'] eqn:E; [congruence|].
  exact (skip_ws_app r c r' post E).
Qed.

Lemma skip_ws_ended r c r' post :
  skip_ws r = c :: r' -> terminator c = true -> ended (r ++ post) = true.
Proof.
  destruct r as [|a r]; [discriminate|]. cbn [skip_ws app ended].
  destruct (is_ws a) eqn:E.
  - intros _ _. unfold terminator. now rewrite E.
  - intros H. now inversion H; subst.
Qed.

Lemma skip_ws_all_ws s : all_ws s = true -> skip_ws s = [].
Proof.
  induction s as [|c s IH]; [reflexivity|]. cbn [all_ws forallb skip_ws].
  fold (all_ws s). destruct (is_ws c); [exact IH|discriminate].
Qed.

Lemma skip_ws_all_ws_app pre s : all_ws pre = true -> skip_ws (pre ++ s) = skip_ws s.
Proof.
  induction pre as [|c pre IH]; [reflexivity|]. cbn [all_ws forallb skip_ws app].
  fold (all_ws pre). destruct (is_ws c); [exact IH|discriminate].
Qed.

Lemma skip_ws_nil_all_ws s : skip_ws s = [] -> all_ws s = true.
Proof.
  induction s as [|c s IH]; [reflexivity|]. cbn [all_ws forallb skip_ws].
  fold (all_ws s). destruct (is_ws c); [exact IH|discriminate].
Qed.

Lemma all_ws_ended s : all_ws s = true -> ended s = true.
Proof.
  destruct s as [|c s]; [reflexivity|]. cbn [all_ws forallb ended].
  intros H. apply andb_true_iff in H. destruct H as [H _].
  unfold terminator. now rewrite H.
Qed.

(** *** Arrays and objects *)

Section ContainersExt.

Variables scan_elem scan_elem' : pystr -> scan (value F).
Variable post : pystr.

Hypothesis elem_ext :
  forall s v r,
    scan_elem s = Scanned v r -> ended (r ++ post) = true ->
    scan_elem' (s ++ post) = Scanned v (r ++ post).

Hypothesis elem_nil : forall v r, scan_elem [] <> Scanned v r.

Lemma parse_array_loop_ext fuel :
  forall s l r,
    parse_array_loop scan_elem fuel s = Scanned l r ->
    forall fuel', (fuel <= fuel')%nat ->
      parse_array_loop scan_elem' fuel' (s ++ post) = Scanned l (r ++ post).
Proof.
  induction fuel as [|fuel IH]; intros s l r H fuel' Hf; [discriminate|].
  destruct fuel' as [|fuel']; [lia|]. cbn [parse_array_loop] in *.
  destruct (scan_elem s) as [v r1| |] eqn:Ev; try discriminate.
  destruct (skip_ws r1) as [|c r2] eqn:Ew; [discriminate|].
  assert (Hterm : (c =? 93) = true \/ (c =? 44) = true).
  { destruct (c =? 93); [now left|]. destruct (c =? 44); [now right|].
    discriminate. }
  assert (Hc : terminator c = true).
  { unfold terminator. destruct Hterm as [-> | ->];
      now rewrite ?orb_true_r. }
  rewrite (elem_ext s v r1 Ev (skip_ws_ended r1 c r2 post Ew Hc)).
  rewrite (skip_ws_app r1 c r2 post Ew).
  destruct (c =? 93); [now inversion H; subst|].
  destruct (c =? 44); [|discriminate].
  apply scan_map_inv in H. destruct H as (l' & H & ->).
  assert (Hne : skip_ws r2 <> []).
  { intros E. rewrite E in H. destruct fuel; [discriminate|].
    cbn [parse_array_loop] in H.
    destruct (scan_elem []) as [v0 r0| |]; try discriminate.
    exact (elem_nil v0 r0 eq_refl). }
  rewrite (skip_ws_app_keep r2 post Hne).
  rewrite (IH _ _ _ H fuel' ltac:(lia)). reflexivity.
Qed.

Lemma parse_array_ext s l r :
  parse_array scan_elem s = Scanned l r ->
  parse_array scan_elem' (s ++ post) = Scanned l (r ++ post).
Proof.
  unfold parse_array. destruct (skip_ws s) as [|c s2] eqn:Ew.
  - cbn [parse_array_loop].
    destruct (scan_elem []) as [v0 r0| |]; try discriminate.
    now destruct (elem_nil v0 r0 eq_refl).
  - rewrite (skip_ws_app s c s2 post Ew).
    destruct (c =? 93); [intros H; now inversion H; subst|].
    intros H. change (c :: s2 ++ post) with ((c :: s2) ++ post).
    apply (parse_array_loop_ext _ _ _ _ H).
    rewrite length_app. lia.
Qed.

Lemma parse_object_loop_ext fuel :
  forall s acc d r,
    parse_object_loop scan_elem fuel s acc = Scanned d r ->
    forall fuel', (fuel <= fuel')%nat ->
      parse_object_loop scan_elem' fuel' (s ++ post) acc =
      Scanned d (r ++ post).
Proof.
  induction fuel as [|fuel IH]; intros s acc d r H fuel' Hf; [discriminate|].
  destruct fuel' as [|fuel']; [lia|]. cbn [parse_object_loop] in *.
  destruct s as [|q s1]; [discriminate|]. cbn [app].
  destruct (q =? 34); [|discriminate].
  destruct (scanstring (q :: s1) s1) as [key r0| |] eqn:Ek; try discriminate.
  rewrite (scanstring_ext _ _ _ _ Ek (q :: s1 ++ post) post).
  destruct (skip_ws r0) as [|colon r1] eqn:Ew0; [discriminate|].
  rewrite (skip_ws_app r0 colon r1 post Ew0).
  destruct (colon =? 58); [|discriminate].
  destruct (scan_elem (skip_ws r1)) as [v r2| |] eqn:Ev; try discriminate.
  assert (Hne1 : skip_ws r1 <> []).
  { intros E. rewrite E in Ev. exact (elem_nil v r2 Ev). }
  rewrite (skip_ws_app_keep r1 post Hne1).
  destruct (skip_ws r2) as [|c r3] eqn:Ew2; [discriminate|].
  assert (Hterm : (c =? 125) = true \/ (c =? 44) = true).
  { destruct (c =? 125); [now left|]. destruct (c =? 44); [now right|].
    discriminate. }
  assert (Hc : terminator c = true).
  { unfold terminator. destruct Hterm as [-> | ->];
      now rewrite ?orb_true_r. }
  rewrite (elem_ext _ v r2 Ev (skip_ws_ended r2 c r3 post Ew2 Hc)).
  rewrite (skip_ws_app r2 c r3 post Ew2).
  destruct (c =? 125); [now inversion H; subst|].
  destruct (c =? 44); [|discriminate].
  assert (Hne3 : skip_ws r3 <> []).
  { intros E. rewrite E in H. destruct fuel; discriminate. }
  rewrite (skip_ws_app_keep r3 post Hne3).
  apply (IH _ _ _ _ H). lia.
Qed.

Lemma parse_object_ext s d r :
  parse_object scan_elem s = Scanned d r ->
  parse_object scan_elem' (s ++ post) = Scanned d (r ++ post).
Proof.
  unfold parse_object. destruct (skip_ws s) as [|c s2] eqn:Ew.
  - discriminate.
  - rewrite (skip_ws_app s c s2 post Ew).
    destruct (c =? 125); [intros H; now inversion H; subst|].
    intros H. change (c :: s2 ++ post) with ((c :: s2) ++ post).
    apply (parse_object_loop_ext _ _ _ _ _ H).
    rewrite length_app. lia.
Qed.

End ContainersExt.


(** *** Values *)

Lemma strip_prefix_ext p :
  forall s r post,
    strip_prefix p s = Some r -> strip_prefix p (s ++ post) = Some (r ++ post).
Proof.
  induction p as [|x p IH]; intros s r post; cbn [strip_prefix].
  - intros H. now inversion H.
  - destruct s as [|y s]; [discriminate|]. cbn [app].
    destruct (x =? y); [apply IH|discriminate].
Qed.

Lemma strip_prefix_head p0 p c s r :
  strip_prefix (p0 :: p) (c :: s) = Some r -> c = p0.
Proof.
  cbn [strip_prefix]. destruct (N.eqb_spec p0 c); [auto|discriminate].
Qed.

Lemma scan_once_nil constants fuel v r :
  scan_once (F:=F) constants fuel [] <> Scanned v r.
Proof. destruct fuel; discriminate. Qed.

(** The names and the numbers: the part of [scan_once] without
    recursion. *)
Lemma scan_once_atom_ext constants fuel fuel' c s1 v r post :
  (c =? 34) = false -> (c =? 123) = false -> (c =? 91) = false ->
  scan_once (F:=F) constants (S fuel) (c :: s1) = Scanned v r ->
  ended (r ++ post) = true ->
  scan_once constants (S fuel') (c :: s1 ++ post) = Scanned v (r ++ post).
Proof.
  intros E34 E123 E91 H He. cbn [scan_once] in *.
  rewrite E34, E123, E91 in *.
  change (c :: s1 ++ post) with ((c :: s1) ++ post).
  destruct (strip_prefix (lit "null") (c :: s1)) as [r0|] eqn:P1.
  { inversion H; subst. now rewrite (strip_prefix_ext _ _ _ post P1). }
  destruct (strip_prefix (lit "true") (c :: s1)) as [r0|] eqn:P2.
  { inversion H; subst. rewrite (strip_prefix_ext _ _ _ post P2).
    change (lit "true") with (116 :: lit "rue") in P2.
    apply strip_prefix_head in P2. subst c. reflexivity. }
  destruct (strip_prefix (lit "false") (c :: s1)) as [r0|] eqn:P3.
  { inversion H; subst. rewrite (strip_prefix_ext _ _ _ post P3).
    change (lit "false") with (102 :: lit "alse") in P3.
    apply strip_prefix_head in P3. subst c. reflexivity. }
  destruct (if constants then strip_prefix (lit "NaN") (c :: s1) else None)
    as [r0|] eqn:P4.
  { destruct constants; [|discriminate]. inversion H; subst.
    rewrite (strip_prefix_ext _ _ _ post P4).
    change (lit "NaN") with (78 :: lit "aN") in P4.
    apply strip_prefix_head in P4. subst c. reflexivity. }
  destruct (if constants then strip_prefix (lit "Infinity") (c :: s1) else None)
    as [r0|] eqn:P5.
  { destruct constants; [|discriminate]. inversion H; subst.
    rewrite (strip_prefix_ext _ _ _ post P5).
    change (lit "Infinity") with (73 :: lit "nfinity") in P5.
    apply strip_prefix_head in P5. subst c. reflexivity. }
  destruct (if constants then strip_prefix (lit "-Infinity") (c :: s1) else None)
    as [r0|] eqn:P6.
  { destruct constants; [|discriminate]. inversion H; subst.
    rewrite (strip_prefix_ext _ _ _ post P6).
    change (lit "-Infinity") with (45 :: lit "Infinity") in P6.
    apply strip_prefix_head in P6. subst c. reflexivity. }
  destruct (match_number (c :: s1)) as [[[numstr is_float] r0]|] eqn:Pn;
    [|discriminate].
  inversion H; subst. clear H.
  rewrite (match_number_ext _ _ _ _ post Pn He).
  destruct (match_number_head _ _ Pn) as (c0 & r' & Ec & Hc).
  inversion Ec; subst c0 r'. clear Ec.
  assert (Hc' : c = 45 \/ 48 <= c <= 57).
  { destruct Hc as [Hd | [-> _]]; [right|now left].
    unfold is_digit in Hd. cmp. lia. }
  change (lit "null") with (110 :: lit "ull").
  change (lit "true") with (116 :: lit "rue").
  change (lit "false") with (102 :: lit "alse").
  change (lit "NaN") with (78 :: lit "aN").
  change (lit "Infinity") with (73 :: lit "nfinity").
  cbn [app]. rewrite !strip_prefix_other by lia.
  assert (Hneg : strip_prefix (lit "-Infinity") (c :: s1 ++ post) = None).
  { destruct Hc as [Hd | [-> (c2 & r'' & -> & Hd)]].
    - change (lit "-Infinity") with (45 :: lit "Infinity").
      apply strip_prefix_other. unfold is_digit in Hd. cmp. lia.
    - change (lit "-Infinity") with (45 :: 73 :: lit "nfinity").
      cbn [app strip_prefix]. change (45 =? 45) with true. cbv iota.
      replace (73 =? c2) with false; [reflexivity|].
      symmetry. apply N.eqb_neq. unfold is_digit in Hd. cmp. lia. }
  rewrite Hneg. now destruct constants.
Qed.

(** A value is scanned the same way, with the same fuel or more, when
    text is added behind what follows it, as long as the value is still
    followed by a terminator or by nothing. *)
Lemma scan_once_ext constants fuel :
  forall s v r,
    scan_once (F:=F) constants fuel s = Scanned v r ->
    forall fuel' post,
      (fuel <= fuel')%nat -> ended (r ++ post) = true ->
      scan_once constants fuel' (s ++ post) = Scanned v (r ++ post).
Proof.
  induction fuel as [|fuel IH]; intros s v r H fuel' post Hf He;
    [discriminate|].
  destruct fuel' as [|fuel']; [lia|].
  destruct s as [|c s1]; [discriminate|]. cbn [app].
  destruct (c =? 34) eqn:E34.
  { cbn [scan_once] in *. rewrite E34 in *.
    apply scan_map_inv in H. destruct H as (x & H & ->).
    now rewrite (scanstring_ext _ _ _ _ H (c :: s1 ++ post) post). }
  destruct (c =? 123) eqn:E123.
  { cbn [scan_once] in *. rewrite E34, E123 in *.
    apply scan_map_inv in H. destruct H as (d & H & ->).
    rewrite (parse_object_ext (scan_once constants fuel)
               (scan_once constants fuel') post) with (d := d) (r := r);
      [reflexivity| |apply scan_once_nil|exact H].
    intros s0 v0 r0 Hs0 He0. apply (IH _ _ _ Hs0); [lia|exact He0]. }
  destruct (c =? 91) eqn:E91.
  { cbn [scan_once] in *. rewrite E34, E123, E91 in *.
    apply scan_map_inv in H. destruct H as (l & H & ->).
    rewrite (parse_array_ext (scan_once constants fuel)
               (scan_once constants fuel') post) with (l := l) (r := r);
      [reflexivity| |apply scan_once_nil|exact H].
    intros s0 v0 r0 Hs0 He0. apply (IH _ _ _ Hs0); [lia|exact He0]. }
  now apply (scan_once_atom_ext constants fuel fuel' c s1 v r post).
Qed.

(** *** The whole document *)

Lemma decode_ext constants text v pre post :
  decode (F:=F) constants text = Ret v ->
  all_ws pre = true -> all_ws post = true ->
  decode constants (pre ++ text ++ post) = Ret v.
Proof.
  unfold decode. intros H Hpre Hpost.
  destruct (scan_once constants (S (List.length text)) (skip_ws text))
    as [v0 rest| |] eqn:Es; try discriminate.
  destruct (skip_ws rest) as [|c rest'] eqn:Er; [|discriminate].
  inversion H; subst v0. clear H.
  assert (Hne : skip_ws text <> []).
  { intros E. rewrite E in Es. discriminate. }
  rewrite (skip_ws_all_ws_app pre _ Hpre), (skip_ws_app_keep text post Hne).
  assert (Hall : all_ws (rest ++ post) = true).
  { pose proof (skip_ws_nil_all_ws rest Er) as Hrest.
    unfold all_ws in *. now rewrite forallb_app, Hrest, Hpost. }
  rewrite (scan_once_ext constants _ _ _ _ Es _ post);
    [|rewrite !length_app; lia|now apply all_ws_ended].
  now rewrite (skip_ws_all_ws _ Hall).
Qed.

Lemma json_loads_ext text v pre post :
  json_loads (F:=F) text = Ret v ->
  all_ws pre = true -> all_ws post = true ->
  json_loads (pre ++ text ++ post) = Ret v.
Proof.
  unfold json_loads. intros H Hpre Hpost.
  destruct text as [|c text]; [discriminate|].
  destruct (c =? 65279) eqn:Ec; [discriminate|].
  rewrite (decode_ext true (c :: text) v pre post H Hpre Hpost).
  destruct pre as [|a pre]; cbn [app]; [now rewrite Ec|].
  cbn [all_ws forallb] in Hpre. apply andb_true_iff in Hpre.
  destruct Hpre as [Ha _]. unfold is_ws in Ha.
  replace (a =? 65279) with false; [reflexivity|].
  symmetry. apply N.eqb_neq.
  repeat (apply orb_true_iff in Ha; destruct Ha as [Ha|Ha]);
    apply N.eqb_eq in Ha; subst; discriminate.
Qed.

End Whitespace.

Section Further.

Context {F : Type} {fops : FloatOps F} {digits : Digits}.
Variable co_chat : pystr -> res F pystr.

Local Open Scope py_scope.

(** ** The counter file as the module reads it *)

Lemma lstrip_app s t :
  lstrip (s ++ t) = if blank s then lstrip t else lstrip s ++ t.
Proof.
  induction s as [|c s IH]; [reflexivity|].
  cbn [app lstrip blank forallb]. fold (blank s).
  destruct (is_space c); [exact IH|reflexivity].
Qed.

Lemma blank_rev s : blank (rev s) = blank s.
Proof.
  unfold blank. induction s as [|c s IH]; [reflexivity|].
  cbn [rev forallb]. rewrite forallb_app, IH. cbn [forallb].
  rewrite andb_true_r. apply andb_comm.
Qed.

Lemma lstrip_blank s : blank s = true -> lstrip s = [].
Proof.
  induction s as [|c s IH]; [reflexivity|].
  cbn [blank forallb lstrip]. fold (blank s).
  destruct (is_space c); [exact IH|discriminate].
Qed.

Lemma strip_blank s : blank s = true -> strip s = [].
Proof. intros H. unfold strip, rstrip. now rewrite (lstrip_blank s H). Qed.

(** Whitespace around a text does not survive [strip]. *)
Lemma strip_blank_around pre s post :
  blank pre = true -> blank post = true ->
  strip (pre ++ s ++ post) = strip s.
Proof.
  intros Hpre Hpost. unfold strip, rstrip.
  rewrite lstrip_app, Hpre. rewrite lstrip_app.
  destruct (blank s) eqn:Hs.
  - rewrite (lstrip_blank post Hpost), (lstrip_blank s Hs). reflexivity.
  - rewrite rev_app_distr, lstrip_app, blank_rev, Hpost. reflexivity.
Qed.

Lemma py_int_blank s : blank s = true -> py_int s = None.
Proof. intros H. unfold py_int. now rewrite (strip_blank s H). Qed.

Lemma py_int_blank_around pre s post :
  blank pre = true -> blank post = true ->
  py_int (pre ++ s ++ post) = py_int s.
Proof.
  intros Hpre Hpost. unfold py_int.
  now rewrite (strip_blank_around pre s post Hpre Hpost).
Qed.


(** The read at load time on a text that [int()] accepts, with
    whitespace around it. *)
Lemma read_usage_count_padded keys pre s post z :
  blank pre = true -> blank post = true ->
  strip s = s -> s <> [] -> py_int s = Some z ->
  read_usage_count (boot (F:=F) keys (Some (pre ++ s ++ post))) =
  (Ret tt, {| stdin := keys; stdout := []; stderr := [];
              usage_file := Some (pre ++ s ++ post);
              usage_count := Some z |}).
Proof.
  intros Hpre Hpost Hs Hne Hz. unfold read_usage_count, boot.
  cbn [usage_file stdin stdout stderr].
  rewrite (strip_blank_around pre s post Hpre Hpost), Hs.
  destruct s as [|c t]; [congruence|]. now rewrite Hz.
Qed.


(** ** Processes that share the counter file *)

Lemma calls_cons who b sched :
  calls who (b :: sched) =
  if Bool.eqb who b then S (calls who sched) else calls who sched.
Proof. unfold calls. cbn [filter]. now destruct (Bool.eqb who b). Qed.

Lemma calls_length sched :
  (calls true sched + calls false sched = List.length sched)%nat.
Proof.
  induction sched as [|b sched IH]; [reflexivity|].
  rewrite !calls_cons. destruct b; cbn [Bool.eqb List.length]; lia.
Qed.

Lemma calls_in who sched : In who sched -> (1 <= calls who sched)%nat.
Proof.
  induction sched as [|b sched IH]; [contradiction|].
  intros [->|Hin]; rewrite calls_cons.
  - rewrite Bool.eqb_reflx. lia.
  - specialize (IH Hin). destruct (Bool.eqb who b); lia.
Qed.

(** After any schedule each process has counted its own calls, and the
    file holds the count of the process that wrote last. *)
Lemma interleave_spec sched :
  forall (wa wb : world F) ca cb,
    usage_count wa = Some ca -> usage_count wb = Some cb ->
    usage_file wa = usage_file wb ->
    let na := (ca + Z.of_nat (calls true sched))%Z in
    let nb := (cb + Z.of_nat (calls false sched))%Z in
    usage_count (fst (interleave sched wa wb)) = Some na
    /\ usage_count (snd (interleave sched wa wb)) = Some nb
    /\ usage_file (fst (interleave sched wa wb)) =
       usage_file (snd (interleave sched wa wb))
    /\ usage_file (fst (interleave sched wa wb)) =
       match sched with
       | [] => usage_file wa
       | _ :: _ => Some (str_of_Z (if last sched true then na else nb))
       end.
Proof.
  induction sched as [|b sched IH]; intros wa wb ca cb Ha Hb Hf; cbv zeta.
  - cbn [interleave fst snd calls filter List.length Z.of_nat].
    rewrite !Z.add_0_r. auto.
  - assert (Hlast : forall x, sched <> [] ->
                      last (x :: sched) true = last sched true).
    { intros x Hs. destruct sched; [congruence|reflexivity]. }
    rewrite !calls_cons. destruct b; cbn [interleave Bool.eqb].
    + assert (Hstep : log_api_usage wa =
                (Ret tt, {| stdin := stdin wa; stdout := stdout wa;
                            stderr := stderr wa;
                            usage_file := Some (str_of_Z (ca + 1));
                            usage_count := Some (ca + 1)%Z |})).
      { unfold log_api_usage. now rewrite Ha. }
      rewrite Hstep. cbn [snd usage_file].
      match goal with
      | |- context [interleave sched ?u ?v] =>
          specialize (IH u v (ca + 1)%Z cb eq_refl Hb eq_refl)
      end.
      cbv zeta in IH. destruct IH as (H1 & H2 & H3 & H4).
      split; [rewrite H1; f_equal; lia|].
      split; [rewrite H2; f_equal; lia|].
      split; [exact H3|].
      rewrite H4. destruct sched as [|b' sched'].
      * cbn [usage_file last calls filter List.length Z.of_nat].
        do 2 f_equal; lia.
      * rewrite Hlast by discriminate.
        do 2 f_equal; destruct (last (b' :: sched') true); lia.
    + assert (Hstep : log_api_usage wb =
                (Ret tt, {| stdin := stdin wb; stdout := stdout wb;
                            stderr := stderr wb;
                            usage_file := Some (str_of_Z (cb + 1));
                            usage_count := Some (cb + 1)%Z |})).
      { unfold log_api_usage. now rewrite Hb. }
      rewrite Hstep. cbn [snd usage_file].
      match goal with
      | |- context [interleave sched ?u ?v] =>
          specialize (IH u v ca (cb + 1)%Z Ha eq_refl eq_refl)
      end.
      cbv zeta in IH. destruct IH as (H1 & H2 & H3 & H4).
      split; [rewrite H1; f_equal; lia|].
      split; [rewrite H2; f_equal; lia|].
      split; [exact H3|].
      rewrite H4. destruct sched as [|b' sched'].
      * cbn [usage_file with_file last calls filter List.length Z.of_nat].
        do 2 f_equal; lia.
      * rewrite Hlast by discriminate.
        do 2 f_equal; destruct (last (b' :: sched') true); lia.
Qed.

(** X2.  [log_api_usage] writes its own process's count without reading
    the file again.  So when two processes that loaded the same count
    [c] share the file, after any schedule of calls the file holds [c]
    plus the calls of the process that wrote last, and the other
    process's calls are lost: as soon as both have called, the file is
    short of [c] plus the number of calls made. *)
Theorem concurrent_calls_lose_updates
    (sched : list bool) (wa wb : world F) (c : Z) :
  usage_count wa = Some c -> usage_count wb = Some c ->
  usage_file wa = usage_file wb ->
  sched <> [] ->
  let n := (c + Z.of_nat (calls (last sched true) sched))%Z in
  usage_file (fst (interleave sched wa wb)) = Some (str_of_Z n)
  /\ usage_file (snd (interleave sched wa wb)) = Some (str_of_Z n)
  /\ (In true sched -> In false sched ->
      (n < c + Z.of_nat (List.length sched))%Z).
Proof.
  intros Ha Hb Hf Hne. cbv zeta.
  destruct (interleave_spec sched wa wb c c Ha Hb Hf) as (_ & _ & H3 & H4).
  cbv zeta in H4. rewrite <- H3, H4.
  destruct sched as [|b sched]; [congruence|].
  destruct (last (b :: sched) true); repeat split; try reflexivity;
    intros Ht Hfalse; apply calls_in in Ht, Hfalse;
    pose proof (calls_length (b :: sched)); lia.
Qed.

(** ** The counter over several runs *)

Lemma session_from_text n c :
  session (F:=F) n (Some (str_of_Z c)) =
  Some (str_of_Z (c + Z.of_nat n)).
Proof.
  unfold session, bind.
  destruct (strip_str_of_Z c) as [Hs Hne].
  pose proof (read_usage_count_padded [] [] (str_of_Z c) [] c
                eq_refl eq_refl Hs Hne (py_int_str_of_Z c)) as Hr.
  cbn [app] in Hr. rewrite app_nil_r in Hr.
  unfold pystr in *. rewrite Hr.
  rewrite (log_api_usage_times_spec n _ c) by reflexivity.
  cbn [snd usage_file]. destruct n; [|reflexivity].
  now rewrite Z.add_0_r.
Qed.

Lemma session_from_nothing n :
  session (F:=F) n None =
  match n with O => None | S _ => Some (str_of_Z (Z.of_nat n)) end.
Proof.
  unfold session, bind. unfold read_usage_count at 1, boot.
  cbn [usage_file stdin stdout stderr].
  rewrite (log_api_usage_times_spec n _ 0%Z) by reflexivity.
  cbn [snd usage_file]. now destruct n.
Qed.

Lemma sessions_from_text ns :
  forall c, sessions (F:=F) ns (Some (str_of_Z c)) =
            Some (str_of_Z (c + Z.of_nat (list_sum ns))).
Proof.
  induction ns as [|n ns IH]; intros c.
  - cbn. now rewrite Z.add_0_r.
  - unfold sessions in *. cbn [fold_left].
    change (list_sum (n :: ns)) with (n + list_sum ns)%nat.
    rewrite session_from_text, IH. do 2 f_equal; lia.
Qed.

(** X3.  The counter persists from one run to the next: after any
    number of runs that load the module and call [log_api_usage] -- the
    first run finding no file, or finding the decimal text of [c] -- the
    file holds the total number of calls (added to [c]); it is still
    absent when no call was ever made. *)
Theorem counter_adds_up_over_runs (ns : list nat) :
  sessions (F:=F) ns None =
    match list_sum ns with
    | O => None
    | S _ => Some (str_of_Z (Z.of_nat (list_sum ns)))
    end
  /\ forall c : Z,
       sessions (F:=F) ns (Some (str_of_Z c)) =
       Some (str_of_Z (c + Z.of_nat (list_sum ns))).
Proof.
  split; [|apply sessions_from_text].
  induction ns as [|n ns IH]; [reflexivity|].
  unfold sessions in *. cbn [fold_left].
  change (list_sum (n :: ns)) with (n + list_sum ns)%nat.
  rewrite session_from_nothing. destruct n as [|n].
  - exact IH.
  - pose proof (sessions_from_text ns (Z.of_nat (S n))) as H.
    unfold sessions in H. rewrite H. cbn [Nat.add].
    do 2 f_equal; lia.
Qed.

(** ** The prompt *)

Lemma is_substring_unfold needle hay :
  is_substring needle hay =
  match strip_prefix needle hay with
  | Some _ => true
  | None => match hay with
            | [] => false
            | _ :: hay' => is_substring needle hay'
            end
  end.
Proof. now destruct hay. Qed.

Lemma is_substring_app x p r : is_substring x (p ++ x ++ r) = true.
Proof.
  induction p as [|c p IH]; rewrite is_substring_unfold.
  - cbn [app]. now rewrite strip_prefix_app.
  - cbn [app]. rewrite IH. now destruct (strip_prefix x (c :: p ++ x ++ r)).
Qed.

Lemma str_of_Z_inj m n : str_of_Z m = str_of_Z n -> m = n.
Proof.
  intros H. apply (f_equal (py_int (digits := ascii_digits))) in H.
  rewrite !(py_int_str_of_Z (digits := ascii_digits)) in H.
  now inversion H.
Qed.

(** X4.  The prompt carries the three arguments verbatim, each after its
    label and in the order topic, difficulty, count, the count in
    decimal.  Different counts give different prompts.  Topic and
    difficulty are not delimited: a line break followed by [Difficulty: ]
    inside the topic gives the prompt of another pair of arguments. *)
Theorem prompt_of_carries_its_arguments
    (topic difficulty : pystr) (n : Z) :
  is_substring
    (lit "Topic: " ++ topic ++ 10 :: lit "Difficulty: " ++ difficulty
       ++ 10 :: lit "Generate " ++ str_of_Z n
       ++ lit " multiple-choice questions in JSON format:")
    (prompt_of topic difficulty n) = true
  /\ (forall m : Z,
        prompt_of topic difficulty m = prompt_of topic difficulty n -> m = n)
  /\ (forall x : pystr,
        prompt_of (topic ++ 10 :: lit "Difficulty: " ++ x) difficulty n =
        prompt_of topic (x ++ 10 :: lit "Difficulty: " ++ difficulty) n).
Proof.
  repeat split.
  - unfold prompt_of.
    match goal with
    | |- context [lit ?a ++ topic ++ lit ?b ++ difficulty ++ lit ?c
                    ++ str_of_Z n ++ qlit ?d] =>
        set (A := lit a); set (D := qlit d);
        change (lit b) with (10 :: lit "Difficulty: ");
        change (lit c) with (10 :: lit "Generate ");
        change A with (firstn 37 A ++ lit "Topic: ");
        change D with (lit " multiple-choice questions in JSON format:"
                         ++ skipn 42 D)
    end.
    match goal with
    | |- is_substring ?x ?h = true =>
        replace h with (firstn 37 A ++ x ++ skipn 42 D);
          [apply is_substring_app|]
    end.
    repeat (rewrite <- ?app_assoc, <- ?app_comm_cons). reflexivity.
  - intros m H. unfold prompt_of in H.
    do 5 apply app_inv_head in H. apply app_inv_tail in H.
    now apply str_of_Z_inj.
  - intros x. unfold prompt_of.
    match goal with
    | |- context [topic ++ lit ?b ++ _] =>
        change (lit b) with (10 :: lit "Difficulty: ")
    end.
    repeat (rewrite <- ?app_assoc, <- ?app_comm_cons). reflexivity.
Qed.

(** ** More on the response handler *)

Lemma logged_nil (w : world F) : logged w [] = w.
Proof. unfold logged. rewrite app_nil_r. now destruct w. Qed.

Lemma generate_questions_logs
    (topic difficulty : pystr) (n : Z) (w : world F) :
  exists lines,
    snd (generate_questions co_chat topic difficulty n w) = logged w lines
    /\ (List.length lines <= 2)%nat.
Proof.
  unfold generate_questions.
  destruct (co_chat (prompt_of topic difficulty n)) as [text|e].
  - destruct (json_loads text) as [v|e].
    + exists []. split; [symmetry; apply logged_nil|cbn; lia].
    + destruct (is_JSONDecodeError e).
      * eexists [_; _]. split; [|cbn; lia].
        unfold bind, print_err, ret, logged; cbn. now rewrite <- app_assoc.
      * destruct (is_Exception e).
        -- eexists [_]. split; [reflexivity|cbn; lia].
        -- exists []. split; [symmetry; apply logged_nil|cbn; lia].
  - destruct (is_JSONDecodeError e).
    + eexists [_]. split; [reflexivity|cbn; lia].
    + destruct (is_Exception e).
      * eexists [_]. split; [reflexivity|cbn; lia].
      * exists []. split; [symmetry; apply logged_nil|cbn; lia].
Qed.

(** X5.  Whatever the upstream call does and whatever it returns,
    [generate_questions] touches nothing but standard error, to which it
    adds at most two lines: standard input, standard output, the counter
    file and the counter are as before, also when it raises. *)
Theorem generate_questions_only_writes_diagnostics
    (topic difficulty : pystr) (n : Z) (w : world F) :
  let w' := snd (generate_questions co_chat topic difficulty n w) in
  stdin w' = stdin w /\ stdout w' = stdout w
  /\ usage_file w' = usage_file w /\ usage_count w' = usage_count w
  /\ exists lines,
       stderr w' = stderr w ++ lines /\ (List.length lines <= 2)%nat.
Proof.
  cbv zeta.
  destruct (generate_questions_logs topic difficulty n w) as (lines & -> & Hn).
  repeat split. now exists lines.
Qed.

Lemma main_passes_on a (w w' : world F) e :
  generate_questions co_chat (topic a) (difficulty a) (count a) w =
    (Raise e, w') ->
  main co_chat a w = (Raise e, w').
Proof.
  intros H. unfold main. destruct (arg_mode a); unfold bind; now rewrite H.
Qed.

Lemma run_readable a keys file :
  readable_counter file = true ->
  exists c,
    let w := {| stdin := keys; stdout := []; stderr := [];
                usage_file := file; usage_count := Some c |} in
    forall r w',
      main co_chat a w = (r, w') ->
      run co_chat a keys file = (exit_of r, w').
Proof.
  intros Hf. destruct (read_usage_count_ok (F:=F) keys file Hf) as [c Hr].
  exists c. intros w r w' Hm. exact (run_script co_chat a keys file _ r w' Hr Hm).
Qed.

(** X6.  [except Exception] does not cover [KeyboardInterrupt] and
    [SystemExit]: raised by the upstream call they leave
    [generate_questions] and the script with nothing logged and nothing
    printed, in either mode, and decide how the process ends. *)
Theorem upstream_interrupt_is_not_handled
    (a : args) (keys : list input_event) (file : option pystr)
    (w : world F) (e : pyexc F) :
  co_chat (prompt_of (topic a) (difficulty a) (count a)) = Raise e ->
  is_Exception e = false ->
  generate_questions co_chat (topic a) (difficulty a) (count a) w =
    (Raise e, w)
  /\ main co_chat a w = (Raise e, w)
  /\ (readable_counter file = true ->
      fst (run co_chat a keys file) = exit_of (Raise e)
      /\ stdout (snd (run co_chat a keys file)) = []
      /\ stderr (snd (run co_chat a keys file)) = []).
Proof.
  intros Hc He.
  assert (Hg : forall u : world F,
             generate_questions co_chat (topic a) (difficulty a) (count a) u =
             (Raise e, u)).
  { intros u. unfold generate_questions. rewrite Hc, He.
    now destruct e. }
  split; [apply Hg|]. split; [apply main_passes_on, Hg|].
  intros Hf. destruct (run_readable a keys file Hf) as [c Hrun].
  cbv zeta in Hrun. rewrite (Hrun _ _ (main_passes_on a _ _ e (Hg _))).
  now repeat split.
Qed.

(** X7.  Were the upstream call itself to raise [JSONDecodeError], the
    first handler would print its message and then read [response],
    which is not bound yet: [UnboundLocalError] leaves
    [generate_questions] after that one line, and the process exits with
    status 1 in either mode. *)
Theorem decode_error_of_the_client_is_not_handled
    (a : args) (keys : list input_event) (file : option pystr)
    (w : world F) (e : pyexc F) :
  co_chat (prompt_of (topic a) (difficulty a) (count a)) = Raise e ->
  is_JSONDecodeError e = true ->
  let line := [FStr (lit "Error parsing JSON from Cohere output: "); FExc e] in
  generate_questions co_chat (topic a) (difficulty a) (count a) w =
    (Raise (UnboundLocalError (lit "response")), logged w [line])
  /\ main co_chat a w =
       (Raise (UnboundLocalError (lit "response")), logged w [line])
  /\ (readable_counter file = true ->
      fst (run co_chat a keys file) = Exited 1
      /\ stdout (snd (run co_chat a keys file)) = []
      /\ stderr (snd (run co_chat a keys file)) = [line]).
Proof.
  intros Hc He. cbv zeta.
  pose proof (fun u => generate_questions_decode_error_from_client
                         co_chat (topic a) (difficulty a) (count a) u e Hc He)
    as Hg.
  split; [apply Hg|]. split; [apply main_passes_on, Hg|].
  intros Hf. destruct (run_readable a keys file Hf) as [c Hrun].
  cbv zeta in Hrun. rewrite (Hrun _ _ (main_passes_on a _ _ _ (Hg _))).
  now repeat split.
Qed.



(** ** Mode [json] *)

Lemma read_usage_count_streams (w : world F) :
  let w' := snd (read_usage_count w) in
  stdin w' = stdin w /\ stdout w' = stdout w /\ stderr w' = stderr w.
Proof.
  cbv zeta. unfold read_usage_count.
  destruct (usage_file w) as [content|]; [|now repeat split].
  destruct (strip content) as [|c t]; [now repeat split|].
  destruct (py_int (c :: t)); now repeat split.
Qed.

(** X9.  In mode [json] the script never reads standard input, writes at
    most one line to standard output, [json.dumps] of some value, and at
    most two lines to standard error, whatever the upstream call does
    and whatever the counter file holds. *)
Theorem json_mode_reads_no_input
    (a : args) (keys : list input_event) (file : option pystr) :
  arg_mode a = Json ->
  let w := snd (run co_chat a keys file) in
  stdin w = keys
  /\ (stdout w = [] \/ exists v, stdout w = [Print [FStr (json_dumps v)]])
  /\ (List.length (stderr w) <= 2)%nat.
Proof.
  intros Hm. cbv zeta. unfold run, script, bind.
  destruct (read_usage_count_streams (boot (F:=F) keys file)) as (H1 & H2 & H3).
  cbv zeta in H1, H2, H3.
  destruct (read_usage_count (boot keys file)) as [[[]|e] w1];
    cbn [snd fst boot stdin stdout stderr] in *.
  2:{ rewrite H1, H2, H3. cbn. repeat split; auto. }
  unfold main. rewrite Hm. unfold bind.
  destruct (generate_questions_logs (topic a) (difficulty a) (count a) w1)
    as (lines & Hg & Hn).
  destruct (generate_questions co_chat (topic a) (difficulty a) (count a) w1)
    as [[v|e] w2]; cbn [snd] in *; subst w2.
  - unfold print, logged. cbn [snd stdin stdout stderr].
    rewrite H1, H2, H3. cbn [app]. repeat split; eauto.
  - unfold logged. cbn [snd stdin stdout stderr].
    rewrite H1, H2, H3. cbn [app]. repeat split; auto.
Qed.

(** *** The printed line is printable ASCII *)

Lemma printable_digit c : is_digit c = true -> printable c = true.
Proof.
  unfold is_digit, printable. intros H. cmp.
  apply andb_true_iff; split; apply N.leb_le; lia.
Qed.

Lemma printable_digits ds :
  all_digits ds = true -> forallb printable ds = true.
Proof.
  unfold all_digits. intros H. apply forallb_forall. intros c Hc.
  apply printable_digit. exact (proj1 (forallb_forall _ _) H c Hc).
Qed.

Lemma printable_str_of_Z z : forallb printable (str_of_Z z) = true.
Proof.
  destruct z as [|p|p]; cbn [str_of_Z forallb];
    apply printable_digits, all_digits_str_of_N.
Qed.

Lemma printable_hex_char x : printable (hex_char (N.land x 15)) = true.
Proof.
  assert (H : N.land x 15 < 16).
  { change 15 with (N.ones 4). rewrite N.land_ones.
    apply N.mod_lt. discriminate. }
  revert H. generalize (N.land x 15). intros d Hd.
  unfold hex_char, printable.
  destruct (d <? 10); apply andb_true_iff; split; apply N.leb_le; lia.
Qed.

Lemma printable_hex4 n : forallb printable (92 :: 117 :: hex4 n) = true.
Proof.
  unfold hex4. cbn [forallb]. rewrite !printable_hex_char. reflexivity.
Qed.

Lemma printable_escape_char c : forallb printable (escape_char c) = true.
Proof.
  unfold escape_char.
  repeat match goal with
         | |- context [if c =? ?k then _ else _] =>
             destruct (c =? k); [reflexivity|]
         end.
  destruct ((32 <=? c) && (c <=? 126)) eqn:E.
  - cbn [forallb]. unfold printable. now rewrite E.
  - destruct (c <? 65536); [apply printable_hex4|].
    cbv zeta. rewrite forallb_app, !printable_hex4. reflexivity.
Qed.

Lemma printable_encode_string s : forallb printable (encode_string s) = true.
Proof.
  unfold encode_string. cbn [forallb]. rewrite forallb_app.
  cbn [forallb]. rewrite andb_true_r. change (printable 34) with true.
  cbn [andb]. induction s as [|c s IH]; [reflexivity|].
  cbn [flat_map]. now rewrite forallb_app, printable_escape_char, IH.
Qed.

Lemma printable_json_dumps (v : value F) :
  (forall x : F, forallb printable (float_repr x) = true) ->
  forallb printable (json_dumps v) = true.
Proof.
  intros Hrepr. pattern v.
  apply value_rect' with
    (Pl := fun l => forallb printable (dumps_items l) = true)
    (Pd := fun d => forallb printable (dumps_pairs d) = true).
  - reflexivity.
  - now intros [|].
  - apply printable_str_of_Z.
  - intros [| | |x]; try reflexivity. apply Hrepr.
  - apply printable_encode_string.
  - intros [|x l] Hl; [reflexivity|]. rewrite json_dumps_list.
    cbn [dumps_items forallb] in Hl. cbn [forallb]. exact Hl.
  - intros [|[k x] d] Hd; [reflexivity|]. rewrite json_dumps_dict.
    cbn [dumps_pairs forallb] in Hd. cbn [forallb]. exact Hd.
  - reflexivity.
  - intros x l Hx Hl. cbn [dumps_items forallb].
    now rewrite forallb_app, Hx, Hl.
  - reflexivity.
  - intros k x d Hx Hd. cbn [dumps_pairs forallb].
    rewrite forallb_app, printable_encode_string. cbn [forallb andb].
    now rewrite forallb_app, Hx, Hd.
Qed.

(** X10.  What [json.dumps] writes for the value the script prints in
    mode [json] is printable ASCII throughout -- no line break, no
    control character, nothing above the tilde, whatever characters the
    upstream reply held -- as long as the [repr] of a finite float
    is. *)
Theorem json_dumps_writes_printable_ascii (v : value F) :
  (forall x : F, forallb printable (float_repr x) = true) ->
  forallb printable (json_dumps v) = true
  /\ ~ In 10 (json_dumps v).
Proof.
  intros Hrepr. pose proof (printable_json_dumps v Hrepr) as H.
  split; [exact H|]. intros Hin.
  pose proof (proj1 (forallb_forall _ _) H 10 Hin) as Hp. discriminate Hp.
Qed.

(** X11.  In mode [json], when the reply parses to a plain value, the
    line the script prints is read back by [json.loads] as that very
    value; and a reply that is this line makes the script print it
    unchanged. *)
Theorem json_mode_line_parses_back
    (a : args) (w : world F) (text : pystr) (v : value F) :
  arg_mode a = Json ->
  co_chat (prompt_of (topic a) (difficulty a) (count a)) = Ret text ->
  json_loads text = Ret v ->
  plain v = true ->
  main co_chat a w = (Ret tt, printed w [Print [FStr (json_dumps v)]])
  /\ json_loads (json_dumps v) = Ret v
  /\ forall co_chat' : pystr -> res F pystr,
       co_chat' (prompt_of (topic a) (difficulty a) (count a)) =
         Ret (json_dumps v) ->
       main co_chat' a w = (Ret tt, printed w [Print [FStr (json_dumps v)]]).
Proof.
  intros Hm Hc Hl Hp.
  pose proof (json_loads_json_dumps v Hp) as Hback.
  assert (Hmain : forall chat t,
            chat (prompt_of (topic a) (difficulty a) (count a)) = Ret t ->
            json_loads t = Ret v ->
            main chat a w = (Ret tt, printed w [Print [FStr (json_dumps v)]])).
  { intros chat t Ht Hv. unfold main. rewrite Hm.
    unfold bind, generate_questions. now rewrite Ht, Hv. }
  split; [exact (Hmain co_chat text Hc Hl)|]. split; [exact Hback|].
  intros chat Ht. exact (Hmain chat _ Ht Hback).
Qed.

(** ** Mode [interactive]: replies that are no list of objects *)

(** X12.  A reply that parses to a value that is true but is no list --
    a number, [true], a string, an object -- is not recognised as such:
    the script goes on to iterate over it and stops on [TypeError]
    before anything is printed or read. *)
Theorem reply_that_is_no_list_raises_TypeError
    (a : args) (keys : list input_event) (file : option pystr)
    (w : world F) (text : pystr) (v : value F) :
  arg_mode a = Interactive ->
  co_chat (prompt_of (topic a) (difficulty a) (count a)) = Ret text ->
  json_loads text = Ret v ->
  py_truthy v = true -> is_list v = false ->
  main co_chat a w = (Raise TypeError, w)
  /\ (readable_counter file = true ->
      fst (run co_chat a keys file) = Exited 1
      /\ stdout (snd (run co_chat a keys file)) = []
      /\ stdin (snd (run co_chat a keys file)) = keys).
Proof.
  intros Hm Hc Hl Ht Hv.
  assert (Hmain : forall u : world F, main co_chat a u = (Raise TypeError, u)).
  { intros u. unfold main. rewrite Hm. unfold bind at 1, generate_questions.
    rewrite Hc, Hl. unfold ret at 1. rewrite Ht. cbn [negb].
    rewrite bind_lift.
    destruct v as [|b|z|f|s|l|d]; try reflexivity; try discriminate.
    - destruct s as [|c s]; [discriminate|]. cbn [py_iter map quiz_loop].
      unfold bind at 1, loop_body. now rewrite bind_lift.
    - destruct d as [|[k x] d]; [discriminate|]. cbn [py_iter map quiz_loop fst].
      unfold bind at 1, loop_body. now rewrite bind_lift. }
  split; [apply Hmain|].
  intros Hf. destruct (run_readable a keys file Hf) as [c Hrun].
  cbv zeta in Hrun. rewrite (Hrun _ _ (Hmain _)). now repeat split.
Qed.

(** X13.  An element of the parsed list that is no object -- a number, a
    string, [null], a list -- makes the loop body raise [TypeError] at
    its first line, before anything is printed for it; nothing handles
    it, so the process exits with status 1 when the element is the first
    of the list. *)
Theorem question_that_is_no_object_raises_TypeError
    (i : Z) (q : value F) (rest : list (value F)) (w : world F) :
  is_dict q = false ->
  loop_body i q w = (Raise TypeError, w)
  /\ quiz_loop i (q :: rest) w = (Raise TypeError, w)
  /\ forall a text keys file,
       arg_mode a = Interactive ->
       co_chat (prompt_of (topic a) (difficulty a) (count a)) = Ret text ->
       json_loads text = Ret (VList (q :: rest)) ->
       main co_chat a w = (Raise TypeError, w)
       /\ (readable_counter file = true ->
           fst (run co_chat a keys file) = Exited 1).
Proof.
  intros Hq.
  assert (Hb : forall j (u : world F), loop_body j q u = (Raise TypeError, u)).
  { intros j u. unfold loop_body. rewrite bind_lift.
    destruct q as [|b|z|f|s|l|d]; try reflexivity. discriminate. }
  assert (Hl : forall j (u : world F),
             quiz_loop j (q :: rest) u = (Raise TypeError, u)).
  { intros j u. cbn [quiz_loop]. unfold bind at 1. now rewrite Hb. }
  split; [apply Hb|]. split; [apply Hl|].
  intros a text keys file Hm Hc Hj.
  assert (Hmain : forall u : world F, main co_chat a u = (Raise TypeError, u)).
  { intros u. unfold main. rewrite Hm. unfold bind at 1, generate_questions.
    rewrite Hc, Hj. unfold ret at 1. cbn [py_truthy negb].
    rewrite bind_lift. cbn [py_iter]. apply Hl. }
  split; [apply Hmain|].
  intros Hf. destruct (run_readable a keys file Hf) as [c Hrun].
  cbv zeta in Hrun. now rewrite (Hrun _ _ (Hmain _)).
Qed.

(** ** Mode [interactive]: the two prompts *)

Lemma advanced_advanced (w : world F) k1 e1 k2 e2 :
  advanced (advanced w k1 e1) k2 e2 = advanced w k2 (e1 ++ e2).
Proof. unfold advanced; cbn. now rewrite <- app_assoc. Qed.

Lemma printed_advanced (w : world F) e :
  printed w e = advanced w (stdin w) e.
Proof. reflexivity. Qed.

Lemma print_choices_shown items :
  forall idx (w : world F),
    print_choices idx items w =
    (Ret tt, advanced w (stdin w) (choices_shown idx items)).
Proof.
  induction items as [|c items IH]; intros idx w;
    cbn [print_choices choices_shown].
  - unfold ret, advanced. rewrite app_nil_r. now destruct w.
  - rewrite bind_print, IH, printed_advanced, advanced_advanced.
    reflexivity.
Qed.

Lemma bind_input {B} p (k : pystr -> M F B) (w : world F) :
  bind (input p) k w =
  match stdin w with
  | Line s :: rest => k s (advanced w rest [Prompt p])
  | CtrlC :: rest => (Raise KeyboardInterrupt, advanced w rest [Prompt p])
  | [] => (Raise EOFError, advanced w [] [Prompt p])
  end.
Proof.
  unfold bind, input, advanced. now destruct (stdin w) as [|[s|] rest].
Qed.

Lemma bind_int {B} s (k : Z -> M F B) (w : world F) :
  bind (int s) k w =
  match py_int s with
  | Some z => k z w
  | None => (Raise (ValueError s), w)
  end.
Proof. unfold bind, int. now destruct (py_int s). Qed.

Lemma bind_print_advanced {B} line (k : unit -> M F B) (w : world F) keys ev :
  bind (print line) k (advanced w keys ev) =
  k tt (advanced w keys (ev ++ [Print line])).
Proof. rewrite bind_print, printed_advanced, advanced_advanced. reflexivity. Qed.

Lemma bind_ret {A B} (a : A) (k : A -> M F B) (w : world F) :
  bind (ret a) k w = k a w.
Proof. reflexivity. Qed.





(** Lines 101-114 up to the second prompt: the choices are listed again
    and the prompt is shown; a line that [int()] rejects gives the
    message and [continue]; an integer leads on to lines 110-114; a
    keyboard interrupt and the end of input are not handled. *)
Lemma after_first_try_prompt d (w : world F) cs :
  dict_get d (lit "choices") = Some (VList cs) ->
  after_first_try (VDict d) w =
  match stdin w with
  | Line s :: keys =>
      match py_int s with
      | None =>
          (Ret Continue,
           advanced w keys
             (choices_shown 0 cs ++
              [Prompt answer_prompt; Print [FStr (lit "Invalid input.")]]))
      | Some z =>
          (ai <- lift (py_getitem (VDict d) (VStr (lit "answer_index"))) ;;
           (if py_eq_int z ai then print [FStr msg_correct]
            else
              choices <- lift (py_getitem (VDict d) (VStr (lit "choices"))) ;;
              ai' <- lift (py_getitem (VDict d) (VStr (lit "answer_index"))) ;;
              correct_answer <- lift (py_getitem choices ai') ;;
              print [FStr msg_wrong; FVal correct_answer]) ;;
           e <- lift (py_getitem (VDict d) (VStr (lit "explanation"))) ;;
           print [FStr (lit "Explanation: "); FVal e] ;;
           raise (NameError (lit "update_ability")))
            (advanced w keys (choices_shown 0 cs ++ [Prompt answer_prompt]))
      end
  | CtrlC :: keys =>
      (Raise KeyboardInterrupt,
       advanced w keys (choices_shown 0 cs ++ [Prompt answer_prompt]))
  | [] =>
      (Raise EOFError,
       advanced w [] (choices_shown 0 cs ++ [Prompt answer_prompt]))
  end.
Proof.
  intros Hch.
  match goal with |- _ = ?rhs => set (R := rhs) end.
  unfold after_first_try.
  match goal with
  | |- context [bind (try_except _ _ _) ?k] => set (K := k)
  end.
  rewrite bind_lift. cbn [py_getitem]. rewrite Hch.
  rewrite bind_lift. cbn [py_iter].
  unfold bind at 1. rewrite print_choices_shown.
  unfold bind at 1, try_except. rewrite bind_input.
  cbn [advanced stdin]. fold (advanced w (stdin w) (choices_shown 0 cs)).
  subst R. destruct (stdin w) as [|[s|] keys].
  - now rewrite advanced_advanced.
  - rewrite bind_int. destruct (py_int s) as [z|].
    + unfold ret at 1. cbv beta iota. rewrite advanced_advanced.
      subst K. reflexivity.
    + cbn [is_ValueError]. rewrite bind_print_advanced, advanced_advanced.
      subst K. reflexivity.
  - now rewrite advanced_advanced.
Qed.





(** X17.  The second prompt on anything but an integer.  A line that
    [int()] rejects gives [Invalid input.] and [continue], on to the
    next question.  A keyboard interrupt, which the first prompt turns
    into [Quiz interrupted.], is not handled here, and neither is the
    end of input. *)
Theorem second_prompt_handles_ValueError_only
    (d : list (pystr * value F)) (w : world F) (cs : list (value F)) :
  dict_get d (lit "choices") = Some (VList cs) ->
  let shown := choices_shown 0 cs ++ [Prompt answer_prompt] in
  (forall s keys,
     stdin w = Line s :: keys -> py_int s = None ->
     after_first_try (VDict d) w =
     (Ret Continue,
      advanced w keys (shown ++ [Print [FStr (lit "Invalid input.")]])))
  /\ (forall keys,
        stdin w = CtrlC :: keys ->
        after_first_try (VDict d) w =
        (Raise KeyboardInterrupt, advanced w keys shown))
  /\ (stdin w = [] ->
      after_first_try (VDict d) w = (Raise EOFError, advanced w [] shown)).
Proof.
  intros Hch. cbv zeta.
  pose proof (after_first_try_prompt d w cs Hch) as H.
  repeat split.
  - intros s keys Hin Hs. rewrite H, Hin, Hs. now rewrite <- app_assoc.
  - intros keys Hin. now rewrite H, Hin.
  - intros Hin. now rewrite H, Hin.
Qed.

(** ** Mode [interactive]: the loop *)

(** The body of the loop up to the first prompt. *)
Lemma loop_body_shows i d (w : world F) text cs :
  dict_get d (lit "question") = Some text ->
  dict_get d (lit "choices") = Some (VList cs) ->
  loop_body i (VDict d) w =
  (f <- first_try (VDict d) ;;
   match f with
   | Break => ret Break
   | Continue => after_first_try (VDict d)
   end)
    (advanced w (stdin w) (question_shown i text :: choices_shown 0 cs)).
Proof.
  intros Hq Hch. unfold loop_body.
  rewrite bind_lift. cbn [py_getitem]. rewrite Hq.
  rewrite bind_print, printed_advanced.
  rewrite bind_lift, Hch, bind_lift. cbn [py_iter].
  unfold bind at 1. rewrite print_choices_shown, advanced_advanced.
  reflexivity.
Qed.





(** X19.  At the first prompt a line that [int()] rejects -- a blank
    line is one -- and a keyboard interrupt end the quiz in good order:
    [Quiz interrupted.] is printed, the questions that remain are not
    shown, whatever they are, and the loop ends normally.  The end of
    input is not handled: [EOFError] leaves the loop. *)
Theorem first_answer_that_is_no_integer_ends_the_quiz
    (i : Z) (d : list (pystr * value F)) (rest : list (value F))
    (w : world F) (text : value F) (cs : list (value F)) :
  dict_get d (lit "question") = Some text ->
  dict_get d (lit "choices") = Some (VList cs) ->
  let shown :=
    question_shown i text :: choices_shown 0 cs ++ [Prompt answer_prompt] in
  (forall ev keys,
     stdin w = ev :: keys -> no_integer ev = true ->
     quiz_loop i (VDict d :: rest) w =
     (Ret tt,
      advanced w keys
        (shown ++ [Print [FStr (10 :: lit "Quiz interrupted.")]])))
  /\ (stdin w = [] ->
      quiz_loop i (VDict d :: rest) w = (Raise EOFError, advanced w [] shown))
  /\ (forall s, blank s = true -> no_integer (Line s) = true).
Proof.
  intros Hq Hch. cbv zeta. repeat split.
  - intros ev keys Hin Hev. cbn [quiz_loop]. unfold bind at 1.
    rewrite (loop_body_shows i d w text cs Hq Hch). unfold bind at 1.
    rewrite first_try_breaks.
    + cbn [advanced stdin stdout stderr usage_file usage_count].
      rewrite Hin. unfold ret, advanced. cbn [tl app].
      rewrite <- !app_assoc. reflexivity.
    + cbn [advanced stdin]. rewrite Hin. destruct ev as [s|]; [|exact I].
      unfold no_integer, reads_int in Hev. now destruct (py_int s).
  - intros Hin. cbn [quiz_loop]. unfold bind at 1.
    rewrite (loop_body_shows i d w text cs Hq Hch). unfold bind at 1.
    unfold first_try, try_except. rewrite bind_input.
    cbn [advanced stdin]. rewrite Hin.
    cbn [is_ValueError is_KeyboardInterrupt orb].
    unfold advanced; cbn [stdin stdout stderr usage_file usage_count app].
    now rewrite <- ?app_assoc.
  - intros s Hs. unfold no_integer, reads_int.
    now rewrite (py_int_blank s Hs).
Qed.

(** ** How the process can end *)

Lemma allowed_exception keys (e : pyexc F) :
  is_Exception e = true -> allowed keys e.
Proof. now destruct e. Qed.

Lemma allowed_app used keys (e : pyexc F) :
  allowed keys e -> allowed (used ++ keys) e.
Proof.
  destruct e; cbn [allowed]; auto. intros H. apply in_or_app. now right.
Qed.

Lemma tame_ret A (a : A) : tame (F := F) (ret a).
Proof.
  intros w r w' H. inversion H; subst. split; [now exists []|discriminate].
Qed.

Lemma tame_raise A e :
  is_Exception e = true \/ e = SystemExit 1 -> tame (F := F) (raise (A:=A) e).
Proof.
  intros He w r w' H. inversion H; subst. split; [now exists []|].
  intros e' E. inversion E; subst e'.
  destruct He as [He| ->]; [now apply allowed_exception|reflexivity].
Qed.

Lemma tame_lift A (r : res F A) :
  (forall e, r = Raise e -> is_Exception e = true) -> tame (lift r).
Proof.
  intros He w r' w' H. inversion H; subst. split; [now exists []|].
  intros e E. apply allowed_exception. now apply He.
Qed.

Lemma tame_print line : tame (F := F) (print line).
Proof.
  intros w r w' H. inversion H; subst. split; [now exists []|discriminate].
Qed.

Lemma tame_print_err line : tame (F := F) (print_err line).
Proof.
  intros w r w' H. inversion H; subst. split; [now exists []|discriminate].
Qed.

Lemma tame_input p : tame (F := F) (input p).
Proof.
  intros w r w' H. unfold input in H.
  destruct (stdin w) as [|[s|] rest] eqn:E; inversion H; subst;
    cbn [stdin]; (split; [|intros e' E'; inversion E'; subst e']).
  - now exists [].
  - exact I.
  - now exists [Line s].
  - now exists [CtrlC].
  - now left.
Qed.

Lemma tame_int s : tame (F := F) (int s).
Proof.
  unfold int. destruct (py_int s); [apply tame_ret|].
  apply tame_raise. now left.
Qed.

Lemma tame_bind A B (m : M F A) (k : A -> M F B) :
  tame m -> (forall a, tame (k a)) -> tame (bind m k).
Proof.
  intros Hm Hk w r w' H. unfold bind in H.
  destruct (m w) as [[a|e] w1] eqn:E.
  - destruct (Hm _ _ _ E) as ([u1 H1] & _).
    destruct (Hk a _ _ _ H) as ([u2 H2] & H3).
    split.
    + exists (u1 ++ u2). now rewrite H1, H2, app_assoc.
    + intros e Hr. rewrite H1. apply allowed_app. now apply H3.
  - inversion H; subst. destruct (Hm _ _ _ E) as (H1 & H2).
    split; [exact H1|]. intros e' E'. inversion E'; subst e'.
    now apply H2.
Qed.

Lemma tame_try A (body : M F A) classes handler :
  tame body -> (forall e, tame (handler e)) ->
  tame (try_except body classes handler).
Proof.
  intros Hb Hh w r w' H. unfold try_except in H.
  destruct (body w) as [[a|e] w1] eqn:E.
  - inversion H; subst. exact (Hb _ _ _ E).
  - destruct (classes e).
    + destruct (Hb _ _ _ E) as ([u1 H1] & _).
      destruct (Hh e _ _ _ H) as ([u2 H2] & H3).
      split.
      * exists (u1 ++ u2). now rewrite H1, H2, app_assoc.
      * intros e' Hr. rewrite H1. apply allowed_app. now apply H3.
    + inversion H; subst. exact (Hb _ _ _ E).
Qed.

Lemma tame_if A (b : bool) (m1 m2 : M F A) :
  tame m1 -> tame m2 -> tame (if b then m1 else m2).
Proof. now destruct b. Qed.

Lemma py_getitem_exception (c k : value F) e :
  py_getitem c k = Raise e -> is_Exception e = true.
Proof.
  assert (Hseq : forall A (x : option A) (f : A -> value F),
            match x with Some v => Ret (f v) | None => Raise IndexError end =
            Raise e -> is_Exception e = true).
  { intros A [v|] f H; now inversion H. }
  unfold py_getitem.
  destruct c as [|b|z|f|s|l|d]; try (intros H; now inversion H).
  - destruct k as [|b|z|f|s'|l'|d']; cbv beta iota zeta;
      try (intros H; now inversion H);
      apply (Hseq _ _ (fun ch => VStr [ch])).
  - destruct k as [|b|z|f|s'|l'|d']; cbv beta iota zeta;
      try (intros H; now inversion H);
      apply (Hseq _ _ (fun v => v)).
  - destruct k as [|b|z|f|s'|l'|d'];
      try (intros H; now inversion H).
    destruct (dict_get d s'); intros H; now inversion H.
Qed.

Lemma tame_getitem (c k : value F) : tame (lift (py_getitem c k)).
Proof. apply tame_lift. intros e. apply py_getitem_exception. Qed.

Lemma tame_iter (v : value F) : tame (lift (py_iter v)).
Proof. apply tame_lift. intros e H. destruct v; now inversion H. Qed.

Lemma tame_contains k (c : value F) : tame (lift (py_contains k c)).
Proof. apply tame_lift. intros e H. destruct c; now inversion H. Qed.

Create HintDb tame.
#[local] Hint Resolve tame_ret tame_print tame_print_err tame_input tame_int
  tame_if tame_getitem tame_iter tame_contains : tame.
#[local] Hint Extern 2 (tame (bind _ _)) =>
  apply tame_bind; [|intros ?] : tame.
#[local] Hint Extern 2 (tame (try_except _ _ _)) =>
  apply tame_try; [|intros ?] : tame.
#[local] Hint Extern 1 (tame (raise (NameError _))) =>
  apply tame_raise; left; reflexivity : tame.
#[local] Hint Extern 1 (tame (raise (SystemExit 1))) =>
  apply tame_raise; right; reflexivity : tame.

Lemma tame_print_choices items idx : tame (F := F) (print_choices idx items).
Proof.
  revert idx; induction items as [|c items IH]; intros idx; simpl;
    auto with tame.
Qed.

#[local] Hint Resolve tame_print_choices : tame.

Lemma tame_first_try q : tame (F := F) (first_try q).
Proof.
  unfold first_try. apply tame_try; [|auto with tame].
  apply tame_bind; [auto with tame|intros s].
  apply tame_bind; [auto with tame|intros user_input].
  apply tame_bind; [|auto with tame].
  apply tame_if; [|auto with tame].
  repeat (apply tame_bind; [auto with tame|intros ?]).
  destruct a3; auto with tame.
Qed.

Lemma tame_after_first_try q : tame (F := F) (after_first_try q).
Proof.
  unfold after_first_try.
  repeat (apply tame_bind; [auto 7 with tame|intros ?]).
  destruct a2 as [user_input|]; [|auto with tame].
  apply tame_bind; [auto with tame|intros ai].
  apply tame_bind; [|auto 6 with tame].
  apply tame_if; auto 7 with tame.
Qed.

#[local] Hint Resolve tame_first_try tame_after_first_try : tame.







(** ** The listing of the choices *)

(** X21.  The listing of the choices writes one line per choice and
    nothing else: the [k]-th line carries the number [k], counted from
    0 in the script, and the [k]-th choice, however many choices there
    are. *)
Theorem choices_are_numbered_from_zero
    (cs : list (value F)) (idx : Z) (w : world F) :
  exists events,
    print_choices idx cs w = (Ret tt, advanced w (stdin w) events)
    /\ List.length events = List.length cs
    /\ forall k c,
         nth_error cs k = Some c ->
         nth_error events k =
         Some (Print [FStr (lit "  "); FStr (str_of_Z (idx + Z.of_nat k));
                      FStr (lit ". "); FVal c]).
Proof.
  exists (choices_shown idx cs). split; [apply print_choices_shown|].
  revert idx. induction cs as [|c0 cs IH]; intros idx.
  - split; [reflexivity|]. intros [|k] c H; discriminate H.
  - destruct (IH (idx + 1)%Z) as [Hlen Hnth].
    cbn [choices_shown List.length]. split; [now rewrite Hlen|].
    intros [|k] c H; cbn [nth_error] in *.
    + inversion H; subst. now rewrite Z.add_0_r.
    + rewrite (Hnth k c H).
      now replace (idx + Z.of_nat (S k))%Z with (idx + 1 + Z.of_nat k)%Z
        by lia.
Qed.

(** ** The counter is read and never used *)

Lemma same_streams_refl (w : world F) : same_streams w w.
Proof. now repeat split. Qed.

Lemma ignores_ret A (a : A) : ignores_counter (F := F) (ret a).
Proof. now intros w w' H. Qed.

Lemma ignores_raise A e : ignores_counter (F := F) (raise (A:=A) e).
Proof. now intros w w' H. Qed.

Lemma ignores_lift A (r : res F A) : ignores_counter (lift r).
Proof. now intros w w' H. Qed.

Lemma ignores_print line : ignores_counter (F := F) (print line).
Proof.
  intros w w' (H1 & H2 & H3). unfold print, same_streams; cbn.
  now rewrite H1, H2, H3.
Qed.

Lemma ignores_print_err line : ignores_counter (F := F) (print_err line).
Proof.
  intros w w' (H1 & H2 & H3). unfold print_err, same_streams; cbn.
  now rewrite H1, H2, H3.
Qed.

Lemma ignores_input p : ignores_counter (F := F) (input p).
Proof.
  intros w w' (H1 & H2 & H3). unfold input, same_streams. rewrite <- H1.
  destruct (stdin w) as [|[s|] rest]; cbn; now rewrite H2, H3.
Qed.

Lemma ignores_int s : ignores_counter (F := F) (int s).
Proof. intros w w' H. unfold int. now destruct (py_int s). Qed.

Lemma ignores_bind A B (m : M F A) (k : A -> M F B) :
  ignores_counter m -> (forall a, ignores_counter (k a)) ->
  ignores_counter (bind m k).
Proof.
  intros Hm Hk w w' H. unfold bind. destruct (Hm w w' H) as [Hr Hw].
  destruct (m w) as [r1 w1], (m w') as [r2 w2]. cbn [fst snd] in *.
  subst r2. destruct r1 as [a|e]; [now apply Hk|]. now split.
Qed.

Lemma ignores_try A (body : M F A) classes handler :
  ignores_counter body -> (forall e, ignores_counter (handler e)) ->
  ignores_counter (try_except body classes handler).
Proof.
  intros Hb Hh w w' H. unfold try_except. destruct (Hb w w' H) as [Hr Hw].
  destruct (body w) as [r1 w1], (body w') as [r2 w2]. cbn [fst snd] in *.
  subst r2. destruct r1 as [a|e]; [now split|].
  destruct (classes e); [now apply Hh|now split].
Qed.

Lemma ignores_if A (b : bool) (m1 m2 : M F A) :
  ignores_counter m1 -> ignores_counter m2 ->
  ignores_counter (if b then m1 else m2).
Proof. now destruct b. Qed.

Create HintDb ignores.
#[local] Hint Resolve ignores_ret ignores_raise ignores_lift ignores_print
  ignores_print_err ignores_input ignores_int ignores_if : ignores.
#[local] Hint Extern 2 (ignores_counter (bind _ _)) =>
  apply ignores_bind; [|intros ?] : ignores.
#[local] Hint Extern 2 (ignores_counter (try_except _ _ _)) =>
  apply ignores_try; [|intros ?] : ignores.

Lemma ignores_generate_questions topic difficulty n :
  ignores_counter (generate_questions co_chat topic difficulty n).
Proof.
  unfold generate_questions.
  destruct (co_chat _) as [text|e]; [destruct (json_loads text) as [v|e]|];
    auto 7 with ignores.
Qed.

Lemma ignores_print_choices items idx :
  ignores_counter (F := F) (print_choices idx items).
Proof.
  revert idx; induction items as [|c items IH]; intros idx; simpl;
    auto with ignores.
Qed.

#[local] Hint Resolve ignores_generate_questions ignores_print_choices
  : ignores.

Lemma ignores_first_try q : ignores_counter (F := F) (first_try q).
Proof.
  unfold first_try. apply ignores_try; [|auto with ignores].
  apply ignores_bind; [auto with ignores|intros s].
  apply ignores_bind; [auto with ignores|intros user_input].
  apply ignores_bind; [|auto with ignores].
  apply ignores_if; [|auto with ignores].
  repeat (apply ignores_bind; [auto with ignores|intros ?]).
  destruct a3; auto with ignores.
Qed.

Lemma ignores_after_first_try q :
  ignores_counter (F := F) (after_first_try q).
Proof.
  unfold after_first_try.
  repeat (apply ignores_bind; [auto 7 with ignores|intros ?]).
  destruct a2 as [user_input|]; [|auto with ignores].
  apply ignores_bind; [auto with ignores|intros ai].
  apply ignores_bind; [|auto 6 with ignores].
  apply ignores_if; auto 7 with ignores.
Qed.

#[local] Hint Resolve ignores_first_try ignores_after_first_try : ignores.

Lemma ignores_loop_body i q : ignores_counter (F := F) (loop_body i q).
Proof.
  unfold loop_body.
  repeat (apply ignores_bind; [auto with ignores|intros ?]).
  destruct a4; auto with ignores.
Qed.

Lemma ignores_quiz_loop qs i : ignores_counter (F := F) (quiz_loop i qs).
Proof.
  revert i; induction qs as [|q qs IH]; intros i; simpl;
    [auto with ignores|].
  apply ignores_bind; [apply ignores_loop_body|intros [|]];
    auto with ignores.
Qed.

Lemma ignores_main a : ignores_counter (F := F) (main co_chat a).
Proof.
  unfold main. destruct (arg_mode a).
  - auto with ignores.
  - apply ignores_bind; [auto with ignores|intros questions].
    apply ignores_if; [auto with ignores|].
    apply ignores_bind; [auto with ignores|intros items].
    apply ignores_quiz_loop.
Qed.

(** X22.  The counter is read when the module is loaded and never used
    afterwards: with any two counter files that can be read -- absent,
    blank, or holding whatever integers -- the same arguments, reply and
    keystrokes give the same exit status and the same standard input,
    output and error at the end. *)
Theorem counter_value_never_matters
    (a : args) (keys : list input_event) (file1 file2 : option pystr) :
  readable_counter file1 = true -> readable_counter file2 = true ->
  fst (run co_chat a keys file1) = fst (run co_chat a keys file2)
  /\ same_streams (snd (run co_chat a keys file1))
       (snd (run co_chat a keys file2)).
Proof.
  intros H1 H2.
  destruct (read_usage_count_ok (F:=F) keys file1 H1) as [c1 Hr1].
  destruct (read_usage_count_ok (F:=F) keys file2 H2) as [c2 Hr2].
  unfold run, script, bind. rewrite Hr1, Hr2.
  match goal with
  | |- context [main co_chat a ?u] =>
      match goal with
      | |- context [main co_chat a ?v] =>
          lazymatch u with
          | v => fail
          | _ => destruct (ignores_main a u v) as [Hr Hw];
                   [now repeat split|]
          end
      end
  end.
  destruct (main co_chat a _) as [r1 w1], (main co_chat a _) as [r2 w2].
  cbn [fst snd] in *. now subst r2.
Qed.

(** ** Mode [interactive] without questions *)

(** X23.  In mode [interactive], when the upstream call fails with an
    ordinary error, or returns a text that does not parse, or one that
    parses to a false value (an empty list, [null], [0], an empty
    string or object), the script prints [No questions generated.] on
    standard output -- not on standard error -- and exits with status 1,
    without reading any input. *)
Theorem no_questions_ends_interactive_mode
    (a : args) (keys : list input_event) (file : option pystr) :
  arg_mode a = Interactive ->
  readable_counter file = true ->
  service_outcome (co_chat (prompt_of (topic a) (difficulty a) (count a))) ->
  (forall text v,
     co_chat (prompt_of (topic a) (difficulty a) (count a)) = Ret text ->
     json_loads text = Ret v -> py_truthy v = false) ->
  let w := snd (run co_chat a keys file) in
  fst (run co_chat a keys file) = Exited 1
  /\ stdin w = keys
  /\ stdout w = [Print [FStr (lit "No questions generated.")]]
  /\ (List.length (stderr w) <= 2)%nat.
Proof.
  intros Hm Hf Hs Hfalse. cbv zeta.
  destruct (run_readable a keys file Hf) as [c Hrun].
  cbv zeta in Hrun.
  match type of Hrun with
  | forall r w', main _ _ ?u = _ -> _ => set (w0 := u) in *
  end.
  destruct (generate_questions_returns co_chat (topic a) (difficulty a)
              (count a) w0 Hs) as (v & lines & Hg & Hv).
  destruct (generate_questions_logs (topic a) (difficulty a)
              (count a) w0) as (lines' & Hl & Hn).
  rewrite Hg in Hl. cbn [snd] in Hl.
  assert (Hfalsy : py_truthy v = false).
  { destruct Hv as [(text & Hc & Hj) | ->]; [now apply (Hfalse text)|].
    reflexivity. }
  assert (Hmain : main co_chat a w0 =
            (Raise (SystemExit 1),
             printed (logged w0 lines)
               [Print [FStr (lit "No questions generated.")]])).
  { unfold main. rewrite Hm. unfold bind at 1. rewrite Hg, Hfalsy.
    reflexivity. }
  rewrite (Hrun _ _ Hmain). cbn [fst snd].
  repeat split.
  assert (Hlen : List.length (stderr (logged w0 lines)) =
                 List.length (stderr (logged w0 lines'))) by now rewrite Hl.
  unfold printed, logged in *. cbn [stderr] in *. subst w0. cbn [stderr] in *.
  cbn [app] in *. lia.
Qed.

(** ** Whitespace around the reply *)

(** X24.  JSON whitespace around the reply does not matter: a text that
    [json.loads] reads as a value is read as the same value with spaces,
    tabs and line breaks before and after it, and [generate_questions]
    returns that value with nothing logged. *)
Theorem whitespace_around_the_reply_is_ignored
    (topic difficulty : pystr) (n : Z) (w : world F)
    (text pre post : pystr) (v : value F) :
  json_loads text = Ret v ->
  all_ws pre = true -> all_ws post = true ->
  co_chat (prompt_of topic difficulty n) = Ret (pre ++ text ++ post) ->
  json_loads (pre ++ text ++ post) = Ret v
  /\ generate_questions co_chat topic difficulty n w = (Ret v, w).
Proof.
  intros Hl Hpre Hpost Hc.
  pose proof (json_loads_ext text v pre post Hl Hpre Hpost) as H.
  split; [exact H|]. unfold generate_questions. now rewrite Hc, H.
Qed.

(** X25.  Text after the value makes the whole reply unusable: when a
    text that [json.loads] reads as a value is followed by a text that
    begins with whitespace, a comma or a closing bracket or brace and is
    not whitespace throughout -- a remark on the next line, for one --
    [json.loads] raises [Extra data] at its first character other than
    whitespace, and [generate_questions] logs the error and the raw
    reply and returns the empty list, the value that was read being
    dropped. *)
Theorem text_after_the_value_discards_the_reply
    (topic difficulty : pystr) (n : Z) (w : world F)
    (text post : pystr) (v : value F) :
  json_loads text = Ret v ->
  ended post = true -> all_ws post = false ->
  co_chat (prompt_of topic difficulty n) = Ret (text ++ post) ->
  let reply := text ++ post in
  let e := JSONDecodeError (lit "Extra data") reply
             (N.of_nat (List.length reply - List.length (skip_ws post))) in
  json_loads reply = Raise e
  /\ generate_questions co_chat topic difficulty n w =
     (Ret (VList []),
      logged w [[FStr (lit "Error parsing JSON from Cohere output: "); FExc e];
                [FStr (lit "Raw response: "); FStr reply]]).
Proof.
  intros Hl He Hpost Hc. cbv zeta.
  assert (H : json_loads (text ++ post) =
              Raise (JSONDecodeError (lit "Extra data") (text ++ post)
                       (N.of_nat (List.length (text ++ post)
                                  - List.length (skip_ws post))))).
  { unfold json_loads in *.
    destruct text as [|c text]; [discriminate|]. cbn [app].
    destruct (c =? 65279); [discriminate|].
    change (c :: text ++ post) with ((c :: text) ++ post).
    unfold decode in *.
    destruct (scan_once true (S (List.length (c :: text)))
                (skip_ws (c :: text))) as [v0 rest| |] eqn:Es;
      try discriminate.
    destruct (skip_ws rest) as [|c' rest'] eqn:Er; [|discriminate].
    inversion Hl; subst v0. clear Hl.
    assert (Hne : skip_ws (c :: text) <> []).
    { intros E. rewrite E in Es. discriminate. }
    rewrite (skip_ws_app_keep (c :: text) post Hne).
    pose proof (skip_ws_nil_all_ws rest Er) as Hrest.
    assert (Hend : ended (rest ++ post) = true).
    { destruct rest as [|a rest0]; [exact He|].
      rewrite ended_app by discriminate. now apply all_ws_ended. }
    rewrite (scan_once_ext true _ _ _ _ Es _ post);
      [|rewrite !length_app; lia|exact Hend].
    rewrite (skip_ws_all_ws_app rest post Hrest).
    destruct (skip_ws post) as [|a post'] eqn:Ep; [|reflexivity].
    apply skip_ws_nil_all_ws in Ep. congruence. }
  split; [exact H|].
  now rewrite (generate_questions_parse_failure co_chat topic difficulty n w
                 (text ++ post) _ Hc H).
Qed.

End Further.

(* ================================================================== *)
(** * Further runs on concrete inputs *)
(* ================================================================== *)


Lemma concurrent_calls_lose_updates_witness :
  let sched := [true; false; true] in
  usage_file (fst (interleave sched loaded_5 loaded_5)) = Some (lit "7")
  /\ usage_file (snd (interleave sched loaded_5 loaded_5)) = Some (lit "7")
  /\ (In true sched -> In false sched -> (7 < 5 + 3)%Z).
Proof.
  exact (concurrent_calls_lose_updates [true; false; true]
           loaded_5 loaded_5 5 eq_refl eq_refl eq_refl
           ltac:(discriminate)).
Defined.

Lemma upstream_interrupt_is_not_handled_witness :
  generate_questions interrupted (lit "HTML Basics") (lit "beginner") 1
    (boot [] None) = (Raise KeyboardInterrupt, boot [] None)
  /\ main interrupted (default_args Json) (boot [] None) =
       (Raise KeyboardInterrupt, boot [] None)
  /\ fst (run interrupted (default_args Json) [] None) = Interrupted
  /\ stdout (snd (run interrupted (default_args Json) [] None)) = []
  /\ stderr (snd (run interrupted (default_args Json) [] None)) = [].
Proof.
  destruct (upstream_interrupt_is_not_handled (digits := ascii_digits) interrupted
              (default_args Json) [] None (boot [] None) KeyboardInterrupt
              eq_refl eq_refl) as (H1 & H2 & H3).
  split; [exact H1|]. split; [exact H2|]. exact (H3 eq_refl).
Defined.

Lemma decode_error_of_the_client_is_not_handled_witness :
  let e := JSONDecodeError (lit "Expecting value") (lit "<html>") 0 in
  let line := [FStr (lit "Error parsing JSON from Cohere output: "); FExc e] in
  generate_questions undecodable (lit "HTML Basics") (lit "beginner") 1
    (boot [] None) =
    (Raise (UnboundLocalError (lit "response")), logged (boot [] None) [line])
  /\ main undecodable (default_args Json) (boot [] None) =
       (Raise (UnboundLocalError (lit "response")),
        logged (boot [] None) [line])
  /\ fst (run undecodable (default_args Json) [] None) = Exited 1
  /\ stdout (snd (run undecodable (default_args Json) [] None)) = []
  /\ stderr (snd (run undecodable (default_args Json) [] None)) = [line].
Proof.
  cbv zeta.
  destruct (decode_error_of_the_client_is_not_handled (digits := ascii_digits) undecodable
              (default_args Json) [] None (boot [] None)
              (JSONDecodeError (lit "Expecting value") (lit "<html>") 0)
              eq_refl eq_refl) as (H1 & H2 & H3).
  split; [exact H1|]. split; [exact H2|]. exact (H3 eq_refl).
Defined.


Lemma json_mode_reads_no_input_witness :
  let w := snd (run (fun _ => answers one_question) (default_args Json)
                  [Line (lit "1")] None) in
  stdin w = [Line (lit "1")]
  /\ (stdout w = [] \/ exists v, stdout w = [Print [FStr (json_dumps v)]])
  /\ (List.length (stderr w) <= 2)%nat.
Proof.
  exact (json_mode_reads_no_input (digits := ascii_digits) (fun _ => answers one_question)
           (default_args Json) [Line (lit "1")] None eq_refl).
Defined.

Lemma json_dumps_writes_printable_ascii_witness :
  let v : value Empty_set :=
    VDict [(233 :: lit "t",
            VList [VStr [26085; 128512; 10]; VInt (-5); VNone])] in
  forallb printable (json_dumps v) = true /\ ~ In 10 (json_dumps v).
Proof.
  apply (json_dumps_writes_printable_ascii
           (VDict [(233 :: lit "t",
                    VList [VStr [26085; 128512; 10]; VInt (-5); VNone])])).
  intros [].
Defined.

Lemma json_mode_line_parses_back_witness :
  let v := VList [question_Q; question_R] in
  main (fun _ => answers two_questions) (default_args Json) (boot [] None) =
    (Ret tt, printed (boot [] None) [Print [FStr (json_dumps v)]])
  /\ json_loads (json_dumps v) = Ret v
  /\ forall co_chat' : pystr -> res Empty_set pystr,
       co_chat' (prompt_of (lit "HTML Basics") (lit "beginner") 1) =
         Ret (json_dumps v) ->
       main co_chat' (default_args Json) (boot [] None) =
         (Ret tt, printed (boot [] None) [Print [FStr (json_dumps v)]]).
Proof.
  exact (json_mode_line_parses_back (digits := ascii_digits) (fun _ => answers two_questions)
           (default_args Json) (boot [] None) two_questions
           (VList [question_Q; question_R])
           eq_refl eq_refl loads_two_questions eq_refl).
Defined.

Lemma reply_that_is_no_list_raises_TypeError_witness :
  let reply := qlit "{'question': 'Q'}" in
  let w := boot [Line (lit "1")] None in
  main (fun _ => answers reply) (default_args Interactive) w =
    (Raise TypeError, w)
  /\ fst (run (fun _ => answers reply) (default_args Interactive)
            [Line (lit "1")] None) = Exited 1
  /\ stdout (snd (run (fun _ => answers reply) (default_args Interactive)
                    [Line (lit "1")] None)) = []
  /\ stdin (snd (run (fun _ => answers reply) (default_args Interactive)
                   [Line (lit "1")] None)) = [Line (lit "1")].
Proof.
  cbv zeta.
  destruct (reply_that_is_no_list_raises_TypeError (digits := ascii_digits)
              (fun _ => answers (qlit "{'question': 'Q'}"))
              (default_args Interactive) [Line (lit "1")] None
              (boot [Line (lit "1")] None) (qlit "{'question': 'Q'}")
              (VDict [(lit "question", VStr (lit "Q"))])
              eq_refl eq_refl ltac:(vm_compute; reflexivity)
              eq_refl eq_refl) as (H1 & H2).
  split; [exact H1|]. exact (H2 eq_refl).
Defined.

Lemma question_that_is_no_object_raises_TypeError_witness :
  let w := boot [Line (lit "1")] None in
  loop_body 1 (VStr (lit "Q")) w = (Raise TypeError, w)
  /\ quiz_loop 1 [VStr (lit "Q"); question_R] w = (Raise TypeError, w)
  /\ main (fun _ => answers (qlit "['Q']")) (default_args Interactive) w =
       (Raise TypeError, w)
  /\ fst (run (fun _ => answers (qlit "['Q']")) (default_args Interactive)
            [Line (lit "1")] None) = Exited 1.
Proof.
  cbv zeta.
  destruct (question_that_is_no_object_raises_TypeError (digits := ascii_digits)
              (fun _ => answers (qlit "['Q']")) 1 (VStr (lit "Q")) []
              (boot [Line (lit "1")] None) eq_refl) as (H1 & _ & H3).
  destruct (question_that_is_no_object_raises_TypeError (digits := ascii_digits)
              (fun _ => answers (qlit "['Q']")) 1 (VStr (lit "Q"))
              [question_R]
              (boot [Line (lit "1")] None) eq_refl) as (_ & H2 & _).
  split; [exact H1|]. split; [exact H2|].
  destruct (H3 (default_args Interactive) (qlit "['Q']")
              [Line (lit "1")] None eq_refl eq_refl
              ltac:(vm_compute; reflexivity)) as (H4 & H5).
  split; [exact H4|]. exact (H5 eq_refl).
Defined.




Lemma second_prompt_handles_ValueError_only_witness :
  let shown := choices_shown 0 choices_ABCD ++ [Prompt answer_prompt] in
  after_first_try (VDict fields_Q) (boot [Line (lit "b")] None) =
    (Ret Continue,
     advanced (boot [Line (lit "b")] None) []
       (shown ++ [Print [FStr (lit "Invalid input.")]]))
  /\ after_first_try (VDict fields_Q) (boot [CtrlC] None) =
       (Raise KeyboardInterrupt, advanced (boot [CtrlC] None) [] shown)
  /\ after_first_try (VDict fields_Q) (boot [] None) =
       (Raise EOFError, advanced (boot [] None) [] shown).
Proof.
  cbv zeta. split; [|split].
  - exact (proj1 (second_prompt_handles_ValueError_only (digits := ascii_digits) fields_Q
                    (boot [Line (lit "b")] None) choices_ABCD eq_refl)
             (lit "b") [] eq_refl eq_refl).
  - exact (proj1 (proj2 (second_prompt_handles_ValueError_only (digits := ascii_digits) fields_Q
                           (boot [CtrlC] None) choices_ABCD eq_refl))
             [] eq_refl).
  - exact (proj2 (proj2 (second_prompt_handles_ValueError_only (digits := ascii_digits) fields_Q
                           (boot [] None) choices_ABCD eq_refl))
             eq_refl).
Defined.


Lemma first_answer_that_is_no_integer_witness :
  let shown :=
    question_shown 1 (VStr (lit "Q")) :: choices_shown 0 choices_ABCD
      ++ [Prompt answer_prompt] in
  quiz_loop 1 [VDict fields_Q; question_R] (boot [Line []; Line (lit "1")] None) =
    (Ret tt,
     advanced (boot [Line []; Line (lit "1")] None) [Line (lit "1")]
       (shown ++ [Print [FStr (10 :: lit "Quiz interrupted.")]]))
  /\ quiz_loop 1 [VDict fields_Q; question_R] (boot [] None) =
       (Raise EOFError, advanced (boot [] None) [] shown).
Proof.
  cbv zeta. split.
  - exact (proj1 (first_answer_that_is_no_integer_ends_the_quiz (digits := ascii_digits)
                    1 fields_Q [question_R]
                    (boot [Line []; Line (lit "1")] None)
                    (VStr (lit "Q")) choices_ABCD eq_refl eq_refl)
             (Line []) [Line (lit "1")] eq_refl eq_refl).
  - exact (proj1 (proj2 (first_answer_that_is_no_integer_ends_the_quiz (digits := ascii_digits)
                           1 fields_Q [question_R] (boot [] None)
                           (VStr (lit "Q")) choices_ABCD eq_refl eq_refl))
             eq_refl).
Defined.


Lemma counter_value_never_matters_witness :
  fst (run (fun _ => answers one_question) (default_args Json) []
         None) =
  fst (run (fun _ => answers one_question) (default_args Json) []
         (Some (lit "41")))
  /\ same_streams
       (snd (run (fun _ => answers one_question) (default_args Json) []
               None))
       (snd (run (fun _ => answers one_question) (default_args Json) []
               (Some (lit "41")))).
Proof.
  exact (counter_value_never_matters (digits := ascii_digits) (fun _ => answers one_question)
           (default_args Json) [] None (Some (lit "41")) eq_refl eq_refl).
Defined.

Lemma no_questions_ends_interactive_mode_witness :
  let w := snd (run (fun _ => unreachable (lit "503"))
                  (default_args Interactive) [Line (lit "1")] None) in
  fst (run (fun _ => unreachable (lit "503")) (default_args Interactive)
         [Line (lit "1")] None) = Exited 1
  /\ stdin w = [Line (lit "1")]
  /\ stdout w = [Print [FStr (lit "No questions generated.")]]
  /\ (List.length (stderr w) <= 2)%nat.
Proof.
  apply (no_questions_ends_interactive_mode (digits := ascii_digits)
           (fun _ => unreachable (lit "503")) (default_args Interactive)
           [Line (lit "1")] None eq_refl eq_refl (conj eq_refl eq_refl)).
  intros text v H. discriminate H.
Defined.

Lemma whitespace_around_the_reply_witness :
  let reply := [10; 32] ++ one_question ++ [13; 10] in
  json_loads reply = Ret (VList [question_Q])
  /\ generate_questions (fun _ => answers reply)
       (lit "HTML Basics") (lit "beginner") 1 (boot [] None) =
     (Ret (VList [question_Q]), boot [] None).
Proof.
  exact (whitespace_around_the_reply_is_ignored
           (fun _ => answers ([10; 32] ++ one_question ++ [13; 10]))
           (lit "HTML Basics") (lit "beginner") 1 (boot [] None)
           one_question [10; 32] [13; 10] (VList [question_Q])
           ltac:(vm_compute; reflexivity) eq_refl eq_refl eq_refl).
Defined.

Lemma text_after_the_value_witness :
  let reply := one_question ++ 10 :: lit "Good luck!" in
  let e := JSONDecodeError (lit "Extra data") reply 92 in
  json_loads reply = Raise e
  /\ generate_questions (fun _ => answers reply)
       (lit "HTML Basics") (lit "beginner") 1 (boot [] None) =
     (Ret (VList []),
      logged (boot [] None)
        [[FStr (lit "Error parsing JSON from Cohere output: "); FExc e];
         [FStr (lit "Raw response: "); FStr reply]]).
Proof.
  exact (text_after_the_value_discards_the_reply
           (fun _ => answers (one_question ++ 10 :: lit "Good luck!"))
           (lit "HTML Basics") (lit "beginner") 1 (boot [] None)
           one_question (10 :: lit "Good luck!") (VList [question_Q])
           ltac:(vm_compute; reflexivity) eq_refl eq_refl eq_refl).
Defined.
